(** * The SSE connection registry and event-delivery engine

    A shallow embedding of [SSEService] (features/sse/services/sse-service.ts)
    and of the types of features/sse/types/index.ts.

    - The [Map<string, SSEClient>] of the service is an association list in
      insertion order with unique keys, with [Map_set], [Map_get] and
      [Map_delete] as ECMAScript defines them.
    - Everything the class reaches outside itself ([Date.now],
      [randomUUID], the [ReadableStreamDefaultController] of a client) is an
      operation of a [Host], an interface the development is parametric in.
      Every call made on a controller is recorded in a trace, tagged with the
      client on whose behalf it is made.
    - Methods are computations in a state-and-exception monad [M]: a method
      returns normally ([Ok]) or throws ([Throw]), and in both cases the
      state reached is kept, as in JavaScript.
    - JavaScript numbers are integers ([Z]): timestamps, delays and limits.
      [console.log], [console.warn] and [console.error] have no effect on
      the service and are left out.
    - The callers of the service come last: the procedures of the tRPC
      router (features/sse/trpc/router.ts) and the broadcast route with its
      rate limiter (app/api/sse-broadcast/route.ts). *)

From Stdlib Require Import ZArith List String Ascii Bool Lia DecimalString.
From stdpp Require Import base list gmap strings.
Import ListNotations.

Set Warnings "-register-all".

Open Scope string_scope.
Open Scope list_scope.
Open Scope Z_scope.

(** ** JavaScript values *)

(** Truthiness of a string and of a number, as [if (x)] tests it. *)
Definition truthy_string (s : string) : bool :=
  match s with EmptyString => false | String _ _ => true end.

Definition truthy_number (n : Z) : bool := negb (n =? 0).

(** An optional property [x?: T] is [undefined] when absent; [undefined] is
    falsy. *)
Definition truthy_opt {A} (truthy : A -> bool) (x : option A) : bool :=
  match x with None => false | Some a => truthy a end.

(** [`${n}`] for an integer [n]. *)
Definition Number_toString (n : Z) : string :=
  NilZero.string_of_int (Z.to_int n).

(** The values [JSON.stringify] turns into text. The properties of an
    object are listed in enumeration order. *)
Inductive JSON : Type :=
| JNull
| JBool (b : bool)
| JNumber (n : Z)
| JString (s : string)
| JArray (items : list JSON)
| JObject (props : list (string * JSON)).

Definition hex_digit (n : N) : ascii :=
  match n with
  | 0 => "0" | 1 => "1" | 2 => "2" | 3 => "3" | 4 => "4" | 5 => "5"
  | 6 => "6" | 7 => "7" | 8 => "8" | 9 => "9" | 10 => "a" | 11 => "b"
  | 12 => "c" | 13 => "d" | 14 => "e" | _ => "f"
  end%N%char.

(** The characters that string literals of this file cannot hold. *)
Definition LF : string := String "010"%char EmptyString.
Definition DQUOTE : string := String "034"%char EmptyString.
Definition BACKSLASH : string := String "092"%char EmptyString.

(** One character of a string inside a JSON string literal. *)
Definition escape_char (c : ascii) : string :=
  let n := N_of_ascii c in
  if (n =? 34)%N then BACKSLASH +:+ DQUOTE
  else if (n =? 92)%N then BACKSLASH +:+ BACKSLASH
  else if (n =? 8)%N then BACKSLASH +:+ "b"
  else if (n =? 12)%N then BACKSLASH +:+ "f"
  else if (n =? 10)%N then BACKSLASH +:+ "n"
  else if (n =? 13)%N then BACKSLASH +:+ "r"
  else if (n =? 9)%N then BACKSLASH +:+ "t"
  else if (n <? 32)%N then
    BACKSLASH +:+ "u00" +:+ String (hex_digit (n / 16))
                              (String (hex_digit (n mod 16)) EmptyString)
  else String c EmptyString.

Fixpoint escape_chars (s : string) : string :=
  match s with
  | EmptyString => EmptyString
  | String c s' => escape_char c +:+ escape_chars s'
  end.

Definition QuoteJSONString (s : string) : string :=
  DQUOTE +:+ escape_chars s +:+ DQUOTE.

Fixpoint JSON_stringify (v : JSON) : string :=
  match v with
  | JNull => "null"
  | JBool true => "true"
  | JBool false => "false"
  | JNumber n => Number_toString n
  | JString s => QuoteJSONString s
  | JArray items =>
      "[" +:+ String.concat "," (List.map JSON_stringify items) +:+ "]"
  | JObject props =>
      "{" +:+ String.concat ","
                (List.map (fun p => QuoteJSONString (fst p) +:+ ":"
                                    +:+ JSON_stringify (snd p)) props)
          +:+ "}"
  end.

(** ** Events and their wire encoding *)

Module SSEEvent.
(** [interface SSEEvent<T>], with [T] the JSON values. *)
Record t : Type := mk {
  id : option string;
  event : string;
  data : JSON;
  retry : option Z
}.
End SSEEvent.

(** [lines.join(sep)]. *)
Definition Array_join (sep : string) (lines : list string) : string :=
  String.concat sep lines.

(** [SSEService.formatSSEMessage]. [lines.push(x)] appends [x]. *)
Definition formatSSEMessage (event : SSEEvent.t) : string :=
  let lines : list string := [] in
  let lines :=
    match SSEEvent.id event with
    | Some i => if truthy_string i then lines ++ ["id: " +:+ i] else lines
    | None => lines
    end in
  let lines := lines ++ ["event: " +:+ SSEEvent.event event] in
  let lines := lines ++ ["data: " +:+ JSON_stringify (SSEEvent.data event)] in
  let lines :=
    match SSEEvent.retry event with
    | Some r =>
        if truthy_number r then lines ++ ["retry: " +:+ Number_toString r]
        else lines
    | None => lines
    end in
  Array_join LF lines +:+ LF +:+ LF.

(** [Math.round(p / q)] for integers [p] and [q > 0], in exact arithmetic:
    the nearest integer, a tie going up. *)
Definition Math_round_div (p q : Z) : Z := (2 * p + q) / (2 * q).

(** [Math.min(...xs)] of a non-empty array. *)
Definition Math_min (x : Z) (xs : list Z) : Z := fold_left Z.min xs x.

(** ** Map *)

(** A [Map<string, V>]: its entries in insertion order, keys unique. *)
Section JSMap.
Context {V : Type}.

Fixpoint Map_get (k : string) (m : list (string * V)) : option V :=
  match m with
  | [] => None
  | (k', v) :: m' => if String.eqb k' k then Some v else Map_get k m'
  end.

(** [m.set(k, v)]: the value of an existing key is replaced where it
    stands, a new key goes last. *)
Fixpoint Map_set (k : string) (v : V) (m : list (string * V))
  : list (string * V) :=
  match m with
  | [] => [(k, v)]
  | (k', v') :: m' =>
      if String.eqb k' k then (k, v) :: m' else (k', v') :: Map_set k v m'
  end.

Fixpoint Map_delete (k : string) (m : list (string * V))
  : list (string * V) :=
  match m with
  | [] => []
  | (k', v') :: m' =>
      if String.eqb k' k then m' else (k', v') :: Map_delete k m'
  end.

Definition Map_keys (m : list (string * V)) : list string := m.*1.
Definition Map_values (m : list (string * V)) : list V := m.*2.
Definition Map_size (m : list (string * V)) : Z := Z.of_nat (length m).
End JSMap.

(** ** The types of the service *)

(** A reference to a [ReadableStreamDefaultController] object; two clients
    holding the same reference share the stream. *)
Definition Controller : Type := nat.

(** The object [setInterval] returns. *)
Definition Timeout : Type := nat.

Module SSEClient.
(** [interface SSEClient]; [connectedAt] is the time value of the [Date]. *)
Record t : Type := mk {
  id : string;
  userId : option string;
  response : Controller;
  lastPing : Z;
  connectedAt : Z
}.

Definition with_lastPing (now : Z) (c : t) : t :=
  mk (id c) (userId c) (response c) now (connectedAt c).
End SSEClient.

Module SSEServiceConfig.
(** [interface SSEServiceConfig]: every field is optional. *)
Record t : Type := mk {
  heartbeatInterval : option Z;
  clientTimeout : option Z;
  reconnectDelay : option Z;
  maxClients : option Z
}.
End SSEServiceConfig.

Module Config.
(** [Required<SSEServiceConfig>]. *)
Record t : Type := mk {
  heartbeatInterval : Z;
  clientTimeout : Z;
  reconnectDelay : Z;
  maxClients : Z
}.
End Config.

Module SSEServiceStats.
Record t : Type := mk {
  totalClients : Z;
  authenticatedClients : Z;
  anonymousClients : Z;
  averageConnectionTime : Z;
  oldestConnection : Z
}.
End SSEServiceStats.

Module SSEService.
(** The private fields of [class SSEService]. *)
Record t : Type := mk {
  clients : list (string * SSEClient.t);
  heartbeatInterval : option Timeout;
  config : Config.t;
  isShuttingDown : bool
}.

Definition with_clients (m : list (string * SSEClient.t)) (s : t) : t :=
  mk m (heartbeatInterval s) (config s) (isShuttingDown s).
Definition with_heartbeatInterval (h : option Timeout) (s : t) : t :=
  mk (clients s) h (config s) (isShuttingDown s).
Definition with_isShuttingDown (b : bool) (s : t) : t :=
  mk (clients s) (heartbeatInterval s) (config s) b.
End SSEService.

(** ** Exceptions, the host and the trace *)

Inductive Exn : Type := Error (message : string).

Inductive Result (A : Type) : Type :=
| Ok (a : A)
| Throw (e : Exn).
Arguments Ok {A} a.
Arguments Throw {A} e.

(** What the class uses of its environment. [desiredSize] is the getter of
    a controller, [None] standing for [null]; [enqueue] and [close] return
    or throw. The world may answer in any way: a theorem about the service
    holds for every host. *)
Class Host (W : Type) : Type := {
  Date_now : W -> Z * W;
  Date_toISOString : W -> string * W;
  randomUUID : W -> string * W;
  desiredSize : Controller -> W -> option Z;
  enqueue : Controller -> string -> W -> Result unit * W;
  close : Controller -> W -> Result unit * W
}.

(** A call made on the controller of a client, with what it answered. *)
Inductive ControllerOp : Type :=
| GetDesiredSize (v : option Z)
| Enqueue (chunk : string) (r : Result unit)
| Close (r : Result unit).

Record Call : Type := mkCall {
  call_client : string;
  call_controller : Controller;
  call_op : ControllerOp
}.

(** ** The state and the monad of methods *)

(** The service object, the world it runs in, the calls made on controllers
    so far (oldest first) and the timers of the event loop: the client ids
    of the pending [setTimeout] callbacks of [addClient], and the live
    [setInterval] timers. *)
Record State (W : Type) : Type := mkState {
  this : SSEService.t;
  world : W;
  trace : list Call;
  timeouts : list string;
  intervals : list Timeout
}.
Arguments mkState {W} _ _ _ _ _.
Arguments this {W} _.
Arguments world {W} _.
Arguments trace {W} _.
Arguments timeouts {W} _.
Arguments intervals {W} _.

Definition M (W A : Type) : Type := State W -> Result A * State W.

Definition ret {W A} (a : A) : M W A := fun s => (Ok a, s).

Definition bind {W A B} (c : M W A) (k : A -> M W B) : M W B :=
  fun s =>
    match c s with
    | (Ok a, s') => k a s'
    | (Throw e, s') => (Throw e, s')
    end.

Definition throw {W A} (e : Exn) : M W A := fun s => (Throw e, s).

(** [try { body } catch (error) { handler }]. *)
Definition try_catch {W A} (body : M W A) (handler : Exn -> M W A) : M W A :=
  fun s =>
    match body s with
    | (Ok a, s') => (Ok a, s')
    | (Throw e, s') => handler e s'
    end.

Declare Scope js_scope.
Delimit Scope js_scope with js.
Notation "x <- c ;; k" := (bind c (fun x => k))
  (at level 100, c at next level, right associativity) : js_scope.
Notation "c ;; k" := (bind c (fun _ => k))
  (at level 100, right associativity) : js_scope.

(** The state a computation ends in, and its result. *)
Definition exec {W A} (c : M W A) (s : State W) : State W := snd (c s).
Definition result {W A} (c : M W A) (s : State W) : Result A := fst (c s).

(** [xs.forEach(f)] on an array. *)
Fixpoint Array_forEach {W A} (xs : list A) (f : A -> M W unit) : M W unit :=
  match xs with
  | [] => ret tt
  | x :: xs' => (f x ;; Array_forEach xs' f)%js
  end.

Section Service.
Context {W : Type} `{Host W}.
Local Open Scope js_scope.

Definition get_this : M W SSEService.t := fun s => (Ok (this s), s).

Definition modify_this (f : SSEService.t -> SSEService.t) : M W unit :=
  fun s =>
    (Ok tt, mkState (f (this s)) (world s) (trace s) (timeouts s)
                    (intervals s)).

(** A host operation that cannot throw. *)
Definition host_call {A} (op : W -> A * W) : M W A :=
  fun s =>
    let (a, w) := op (world s) in
    (Ok a, mkState (this s) w (trace s) (timeouts s) (intervals s)).

(** The calls on the controller [client.response] of the client
    registered as [clientId]; each is recorded with its answer. *)
Definition controller_desiredSize (clientId : string) (c : Controller)
  : M W (option Z) :=
  fun s =>
    let v := desiredSize c (world s) in
    (Ok v, mkState (this s) (world s)
                   (trace s ++ [mkCall clientId c (GetDesiredSize v)])
                   (timeouts s) (intervals s)).

Definition controller_enqueue (clientId : string) (c : Controller)
    (chunk : string) : M W unit :=
  fun s =>
    let (r, w) := enqueue c chunk (world s) in
    (r, mkState (this s) w
                (trace s ++ [mkCall clientId c (Enqueue chunk r)])
                (timeouts s) (intervals s)).

Definition controller_close (clientId : string) (c : Controller)
  : M W unit :=
  fun s =>
    let (r, w) := close c (world s) in
    (r, mkState (this s) w (trace s ++ [mkCall clientId c (Close r)])
                (timeouts s) (intervals s)).

(** [setTimeout(() => { ... clientId ... }, 200)] of [addClient]. *)
Definition setTimeout_connected (clientId : string) : M W unit :=
  fun s =>
    (Ok tt, mkState (this s) (world s) (trace s) (timeouts s ++ [clientId])
                    (intervals s)).

(** [setInterval(callback, delay)]: a timer no live timer equals. *)
Definition setInterval : M W Timeout :=
  fun s =>
    let t := S (list_max (intervals s)) in
    (Ok t, mkState (this s) (world s) (trace s) (timeouts s)
                   (intervals s ++ [t])).

Definition clearInterval (t : Timeout) : M W unit :=
  fun s =>
    (Ok tt, mkState (this s) (world s) (trace s) (timeouts s)
                    (List.filter (fun t' => negb (Nat.eqb t' t))
                                 (intervals s))).

(** [for (const [clientId, client] of this.clients.entries())], with the
    variables the body assigns as an accumulator. The iterator of a Map
    is live: an entry deleted before the iterator reaches it is skipped.
    No loop body of the class calls [clients.set], so the keys the iterator
    can reach are those of the Map when the loop starts. *)
Fixpoint for_of_entries {A} (keys : list string) (acc : A)
    (body : A -> string -> SSEClient.t -> M W A) : M W A :=
  match keys with
  | [] => ret acc
  | clientId :: keys' =>
      self <- get_this ;;
      match Map_get clientId (SSEService.clients self) with
      | None => for_of_entries keys' acc body
      | Some client =>
          acc' <- body acc clientId client ;;
          for_of_entries keys' acc' body
      end
  end.

Definition for_of_clients {A} (acc : A)
    (body : A -> string -> SSEClient.t -> M W A) : M W A :=
  self <- get_this ;;
  for_of_entries (Map_keys (SSEService.clients self)) acc body.

(** *** The methods of [SSEService] *)

(** [removeClient]. A controller is an object, so [if (client.response)]
    holds; the error [close] may throw is caught. [Date.now()] is read for
    the log line. *)
Definition removeClient (clientId : string) : M W bool :=
  self <- get_this ;;
  match Map_get clientId (SSEService.clients self) with
  | None => ret false
  | Some client =>
      try_catch (controller_close clientId (SSEClient.response client))
                (fun _ => ret tt) ;;
      modify_this (fun self =>
        SSEService.with_clients
          (Map_delete clientId (SSEService.clients self)) self) ;;
      _ <- host_call Date_now ;;
      ret true
  end.

(** [client.lastPing = now], on the client object [sendToClient] looked
    up: the object the Map holds under [clientId]. *)
Definition set_lastPing (clientId : string) (now : Z) : M W unit :=
  modify_this (fun self =>
    match Map_get clientId (SSEService.clients self) with
    | Some client =>
        SSEService.with_clients
          (Map_set clientId (SSEClient.with_lastPing now client)
                   (SSEService.clients self)) self
    | None => self
    end).

(** [sendToClient]. [new TextEncoder().encode] turns the string into its
    bytes, which a [string] here already is. *)
Definition sendToClient (clientId : string) (event : SSEEvent.t)
  : M W bool :=
  self <- get_this ;;
  match Map_get clientId (SSEService.clients self) with
  | None => ret false
  | Some client =>
      try_catch
        (let eventString := formatSSEMessage event in
         size <- controller_desiredSize clientId (SSEClient.response client) ;;
         match size with
         | None => removeClient clientId ;; ret false
         | Some _ =>
             controller_enqueue clientId (SSEClient.response client)
                                eventString ;;
             now <- host_call Date_now ;;
             set_lastPing clientId now ;;
             ret true
         end)
        (fun _ => removeClient clientId ;; ret false)
  end.
(** The errors [addClient] throws. *)
Definition Unavailable : Exn := Error "Service is shutting down".
Definition CapacityExceeded : Exn :=
  Error "Maximum client connections reached".

(** [addClient]: [lastPing] is [Date.now()] and [connectedAt] is
    [new Date()], two readings of the clock. *)
Definition addClient (controller : Controller) (userId : option string)
  : M W string :=
  self <- get_this ;;
  if SSEService.isShuttingDown self then throw Unavailable
  else if Map_size (SSEService.clients self)
          >=? Config.maxClients (SSEService.config self)
  then throw CapacityExceeded
  else
    clientId <- host_call randomUUID ;;
    lastPing <- host_call Date_now ;;
    connectedAt <- host_call Date_now ;;
    let client :=
      SSEClient.mk clientId userId controller lastPing connectedAt in
    modify_this (fun self =>
      SSEService.with_clients
        (Map_set clientId client (SSEService.clients self)) self) ;;
    setTimeout_connected clientId ;;
    ret clientId.

(** The callback [addClient] hands to [setTimeout]. *)
Definition connected_callback (clientId : string) : M W unit :=
  timestamp <- host_call Date_now ;;
  serverTime <- host_call Date_toISOString ;;
  sendToClient clientId
    (SSEEvent.mk None "connected"
       (JObject [("clientId", JString clientId);
                 ("timestamp", JNumber timestamp);
                 ("serverTime", JString serverTime)])
       None) ;;
  ret tt.

(** [client.userId === userId] for a string [userId]. *)
Definition userId_is (userId : string) (client : SSEClient.t) : bool :=
  match SSEClient.userId client with
  | Some u => String.eqb u userId
  | None => false
  end.

(** [sendToUser]: the body of its loop, then the method; the result is
    [sentCount]. *)
Definition sendToUser_visit (userId : string) (event : SSEEvent.t)
    (sentCount : Z) (clientId : string) (client : SSEClient.t) : M W Z :=
  if userId_is userId client then
    sent <- sendToClient clientId event ;;
    if sent then ret (sentCount + 1) else ret sentCount
  else ret sentCount.

Definition sendToUser (userId : string) (event : SSEEvent.t) : M W Z :=
  for_of_clients 0 (sendToUser_visit userId event).

(** [clientId !== excludeClientId], [excludeClientId] being optional. *)
Definition is_excluded (excludeClientId : option string) (clientId : string)
  : bool :=
  match excludeClientId with
  | Some x => String.eqb clientId x
  | None => false
  end.

(** [broadcast]: [this.clients.keys()] is iterated live as well. *)
Definition broadcast_visit (event : SSEEvent.t)
    (excludeClientId : option string)
    (sentCount : Z) (clientId : string) (_ : SSEClient.t) : M W Z :=
  if negb (is_excluded excludeClientId clientId) then
    sent <- sendToClient clientId event ;;
    if sent then ret (sentCount + 1) else ret sentCount
  else ret sentCount.

Definition broadcast (event : SSEEvent.t) (excludeClientId : option string)
  : M W Z :=
  for_of_clients 0 (broadcast_visit event excludeClientId).

(** [getActiveClients]. *)
Definition getActiveClients : M W (list string) :=
  self <- get_this ;;
  ret (Map_keys (SSEService.clients self)).

(** [getClientsByUser]: nothing is deleted during this loop, so the live
    iterator sees every entry. *)
Definition getClientsByUser_visit (userId : string)
    (userClients : list string) (clientId : string) (client : SSEClient.t)
  : M W (list string) :=
  if userId_is userId client then ret (userClients ++ [clientId])
  else ret userClients.

Definition getClientsByUser (userId : string) : M W (list string) :=
  for_of_clients [] (getClientsByUser_visit userId).

(** [(c) => c.userId], as a filter uses it. *)
Definition has_userId (c : SSEClient.t) : bool :=
  truthy_opt truthy_string (SSEClient.userId c).

(** [getStats]. *)
Definition getStats : M W SSEServiceStats.t :=
  now <- host_call Date_now ;;
  self <- get_this ;;
  let connections := Map_values (SSEService.clients self) in
  ret (SSEServiceStats.mk
         (Map_size (SSEService.clients self))
         (Z.of_nat (length (List.filter has_userId connections)))
         (Z.of_nat (length (List.filter (fun c => negb (has_userId c))
                                        connections)))
         (match connections with
          | [] => 0
          | _ :: _ =>
              Math_round_div
                (fold_left (fun sum c => sum + (now - SSEClient.connectedAt c))
                           connections 0)
                (Z.of_nat (length connections) * 1000)
          end)
         (match connections with
          | [] => 0
          | c :: cs =>
              Math_round_div
                (now - Math_min (SSEClient.connectedAt c)
                                (List.map SSEClient.connectedAt cs))
                1000
          end)).

(** The callback [startHeartbeat] hands to [setInterval], one tick: the
    body of its loop, then the callback. *)
Definition heartbeat_visit (now timeout : Z) (staleClients : list string)
    (clientId : string) (client : SSEClient.t) : M W (list string) :=
  let timeSinceLastPing := now - SSEClient.lastPing client in
  if timeSinceLastPing >? timeout then ret (staleClients ++ [clientId])
  else
    serverTime <- host_call Date_toISOString ;;
    sent <- sendToClient clientId
              (SSEEvent.mk None "ping"
                 (JObject [("timestamp", JNumber now);
                           ("serverTime", JString serverTime)])
                 None) ;;
    if negb sent then ret (staleClients ++ [clientId])
    else ret staleClients.

Definition remove_stale (clientId : string) : M W unit :=
  removeClient clientId ;; ret tt.

Definition heartbeat_callback : M W unit :=
  self <- get_this ;;
  if SSEService.isShuttingDown self then ret tt
  else
    now <- host_call Date_now ;;
    let timeout := Config.clientTimeout (SSEService.config self) in
    staleClients <- for_of_clients [] (heartbeat_visit now timeout) ;;
    Array_forEach staleClients remove_stale ;;
    self <- get_this ;;
    if Map_size (SSEService.clients self) >? 0
    then getStats ;; ret tt
    else ret tt.

(** [startHeartbeat]. *)
Definition startHeartbeat : M W unit :=
  self <- get_this ;;
  match SSEService.heartbeatInterval self with
  | Some t => clearInterval t
  | None => ret tt
  end ;;
  t <- setInterval ;;
  modify_this (SSEService.with_heartbeatInterval (Some t)).

(** [cleanup]: the function given to [clientIds.forEach], then the
    method. *)
Definition cleanup_visit (clientId : string) : M W unit :=
  try_catch
    (timestamp <- host_call Date_now ;;
     sendToClient clientId
       (SSEEvent.mk None "server-shutdown"
          (JObject [("message", JString "Server is shutting down");
                    ("timestamp", JNumber timestamp)])
          None) ;;
     ret tt)
    (fun _ => ret tt) ;;
  removeClient clientId ;;
  ret tt.

Definition stop_heartbeat : M W unit :=
  self <- get_this ;;
  match SSEService.heartbeatInterval self with
  | Some t =>
      clearInterval t ;;
      modify_this (SSEService.with_heartbeatInterval None)
  | None => ret tt
  end.

Definition cleanup : M W unit :=
  stop_heartbeat ;;
  self <- get_this ;;
  let clientIds := Map_keys (SSEService.clients self) in
  Array_forEach clientIds cleanup_visit.

(** The handler [setupGracefulShutdown] installs for SIGTERM and SIGINT. *)
Definition shutdown : M W unit :=
  modify_this (SSEService.with_isShuttingDown true) ;;
  cleanup.

(** [config?.x ?? d]. *)
Definition nullish {A} (x : option A) (d : A) : A :=
  match x with Some a => a | None => d end.

(** [new SSEService(config)] in the world [w]: the field initialisers,
    then the body of the constructor. *)
Definition new_SSEService (config : option SSEServiceConfig.t) (w : W)
  : State W :=
  let field {A} (f : SSEServiceConfig.t -> option A) : option A :=
    match config with Some c => f c | None => None end in
  let self :=
    SSEService.mk [] None
      (Config.mk
         (nullish (field SSEServiceConfig.heartbeatInterval) 30000)
         (nullish (field SSEServiceConfig.clientTimeout) 90000)
         (nullish (field SSEServiceConfig.reconnectDelay) 2000)
         (nullish (field SSEServiceConfig.maxClients) 1000))
      false in
  exec startHeartbeat (mkState self w [] [] []).
End Service.

(** ** Runs of the service *)

(** What can happen to a service between two moments: a call of a public
    method, a timer of the event loop firing, a termination signal, or the
    world changing on its own (the clock, a peer closing its stream). *)
Inductive Op (W : Type) : Type :=
| CallAddClient (controller : Controller) (userId : option string)
| CallRemoveClient (clientId : string)
| CallSendToClient (clientId : string) (event : SSEEvent.t)
| CallSendToUser (userId : string) (event : SSEEvent.t)
| CallBroadcast (event : SSEEvent.t) (excludeClientId : option string)
| CallGetStats
| CallCleanup
| Signal
| TimeoutFires (n : nat)
| IntervalFires
| WorldMoves (f : W -> W).
Arguments CallAddClient {W} _ _.
Arguments CallRemoveClient {W} _.
Arguments CallSendToClient {W} _ _.
Arguments CallSendToUser {W} _ _.
Arguments CallBroadcast {W} _ _.
Arguments CallGetStats {W}.
Arguments CallCleanup {W}.
Arguments Signal {W}.
Arguments TimeoutFires {W} _.
Arguments IntervalFires {W}.
Arguments WorldMoves {W} _.

(** The calls of the registry alone. *)
Inductive RegistryCall : Type :=
| Register (controller : Controller) (userId : option string)
| Remove (clientId : string).

Section Runs.
Context {W : Type} `{Host W}.

(** The [n]-th pending [setTimeout] callback leaves the queue and runs. *)
Definition fire_timeout (n : nat) (s : State W) : State W :=
  match nth_error (timeouts s) n with
  | Some clientId =>
      exec (connected_callback clientId)
           (mkState (this s) (world s) (trace s)
                    (firstn n (timeouts s) ++ skipn (S n) (timeouts s))
                    (intervals s))
  | None => s
  end.

(** The heartbeat callback runs if its timer is live. *)
Definition fire_interval (s : State W) : State W :=
  match intervals s with
  | [] => s
  | _ :: _ => exec heartbeat_callback s
  end.

Definition step (op : Op W) (s : State W) : State W :=
  match op with
  | CallAddClient controller userId => exec (addClient controller userId) s
  | CallRemoveClient clientId => exec (removeClient clientId) s
  | CallSendToClient clientId event => exec (sendToClient clientId event) s
  | CallSendToUser userId event => exec (sendToUser userId event) s
  | CallBroadcast event excludeClientId =>
      exec (broadcast event excludeClientId) s
  | CallGetStats => exec getStats s
  | CallCleanup => exec cleanup s
  | Signal => exec shutdown s
  | TimeoutFires n => fire_timeout n s
  | IntervalFires => fire_interval s
  | WorldMoves f =>
      mkState (this s) (f (world s)) (trace s) (timeouts s) (intervals s)
  end.

Definition run (ops : list (Op W)) (s : State W) : State W :=
  fold_left (fun s op => step op s) ops s.

(** A run of register and remove calls, with the ids it leaves
    registered: an id enters the set when [addClient] returns it and
    leaves it when [removeClient] is called on it. *)
Fixpoint run_registry (calls : list RegistryCall) (s : State W)
    (live : gset string) : State W * gset string :=
  match calls with
  | [] => (s, live)
  | Register controller userId :: calls' =>
      match addClient controller userId s with
      | (Ok clientId, s') => run_registry calls' s' ({[clientId]} ∪ live)
      | (Throw _, s') => run_registry calls' s' live
      end
  | Remove clientId :: calls' =>
      run_registry calls' (exec (removeClient clientId) s)
                   (live ∖ {[clientId]})
  end.

(** *** Notions the statements use *)

Definition clients_of (s : State W) : list (string * SSEClient.t) :=
  SSEService.clients (this s).

(** The invariant of the service: the keys of the Map are distinct, and a
    service that is shutting down holds no client. *)
Definition wf (s : State W) : Prop :=
  NoDup (Map_keys (clients_of s))
  /\ (SSEService.isShuttingDown (this s) = true -> clients_of s = []).

(** The calls made on behalf of the client [clientId]. *)
Definition calls_of (clientId : string) (calls : list Call) : list Call :=
  filter (fun c => call_client c = clientId) calls.

Definition is_send (c : Call) : bool :=
  match call_op c with
  | GetDesiredSize _ | Enqueue _ _ => true
  | Close _ => false
  end.

(** What sending and removing leave as it is, and the clients they may
    touch: between [s] and [s'] the configuration, the shutdown flag and the
    timers stay, no key is added, the clients outside [ks] stay as they
    are, and the calls made are on behalf of clients in [ks]. *)
Definition same_setup (s s' : State W) : Prop :=
  SSEService.config (this s') = SSEService.config (this s)
  /\ SSEService.isShuttingDown (this s') = SSEService.isShuttingDown (this s)
  /\ SSEService.heartbeatInterval (this s')
     = SSEService.heartbeatInterval (this s)
  /\ timeouts s' = timeouts s
  /\ intervals s' = intervals s.

Definition steps_on (ks : list string) (s s' : State W) : Prop :=
  same_setup s s'
  /\ (NoDup (Map_keys (clients_of s)) -> NoDup (Map_keys (clients_of s')))
  /\ (forall k, k ∈ Map_keys (clients_of s') -> k ∈ Map_keys (clients_of s))
  /\ (forall k, k ∉ ks ->
        Map_get k (clients_of s') = Map_get k (clients_of s))
  /\ exists calls,
       trace s' = trace s ++ calls
       /\ forall call, call ∈ calls -> call_client call ∈ ks.

Definition is_enqueue (c : Call) : bool :=
  match call_op c with
  | Enqueue _ _ => true
  | _ => false
  end.

(** A successful write. *)
Definition is_written (c : Call) : bool :=
  match call_op c with
  | Enqueue _ (Ok _) => true
  | _ => false
  end.

(** Whether [sendToUser] and [getClientsByUser] select the key [k]. *)
Definition is_target (userId : string) (s : State W) (k : string) : bool :=
  match Map_get k (clients_of s) with
  | Some client => userId_is userId client
  | None => false
  end.

(** The state [s] with the entry of [k] taken out of the Map, and nothing
    else changed. *)
Definition without_client (k : string) (s : State W) : State W :=
  mkState (SSEService.with_clients (Map_delete k (clients_of s)) (this s))
          (world s) (trace s) (timeouts s) (intervals s).

(** Whether a client has a recorded user id, empty or not. *)
Definition has_recorded_userId (c : SSEClient.t) : bool :=
  match SSEClient.userId c with Some _ => true | None => false end.

(** The calls a computation adds to the trace. *)
Definition new_calls {A} (c : M W A) (s : State W) : list Call :=
  skipn (length (trace s)) (trace (exec c s)).

(** Whether the write of [sendToClient] to a controller succeeds in a
    world: the stream does not report itself closed and [enqueue]
    returns. *)
Definition write_succeeds (c : Controller) (chunk : string) (w : W) : bool :=
  match desiredSize c w with
  | None => false
  | Some _ =>
      match fst (enqueue c chunk w) with
      | Ok _ => true
      | Throw _ => false
      end
  end.

(** The calls by which [sendToClient] tries to write [chunk] on the
    controller [h] of the client [k], and whether the write succeeds:
    the stream reports itself closed, or [enqueue] throws, or it
    returns. *)
Inductive send_calls (k : string) (h : Controller) (chunk : string)
  : list Call -> bool -> Prop :=
| send_closed :
    send_calls k h chunk [mkCall k h (GetDesiredSize None)] false
| send_threw z e :
    send_calls k h chunk
      [mkCall k h (GetDesiredSize (Some z));
       mkCall k h (Enqueue chunk (Throw e))] false
| send_wrote z :
    send_calls k h chunk
      [mkCall k h (GetDesiredSize (Some z));
       mkCall k h (Enqueue chunk (Ok tt))] true.

(** The event [cleanup] sends. *)
Definition shutdown_event (timestamp : Z) : SSEEvent.t :=
  SSEEvent.mk None "server-shutdown"
    (JObject [("message", JString "Server is shutting down");
              ("timestamp", JNumber timestamp)])
    None.

(** Every chunk written by the calls satisfies [P]. *)
Definition enqueues_only (P : string -> Prop) (calls : list Call) : Prop :=
  forall call chunk r,
    call ∈ calls -> call_op call = Enqueue chunk r -> P chunk.

(** Whatever the calls write is a [server-shutdown] event. *)
Definition announces_shutdown (calls : list Call) : Prop :=
  enqueues_only
    (fun chunk => exists timestamp,
                    chunk = formatSSEMessage (shutdown_event timestamp))
    calls.

(** The [ping] event of a heartbeat tick. *)
Definition ping_event (now : Z) (serverTime : string) : SSEEvent.t :=
  SSEEvent.mk None "ping"
    (JObject [("timestamp", JNumber now); ("serverTime", JString serverTime)])
    None.

(** What the loop of a tick has done for the client [c] registered as [k],
    told by the calls on its behalf before and after, its entry in the Map
    and whether it is [listed] in [staleClients]: a client silent for too
    long is listed and nothing else; to any other a ping is sent, and it is
    listed if and only if the send failed, which has removed it. *)
Definition visited (now timeout : Z) (k : string) (c : SSEClient.t)
    (before after : list Call) (entry : option SSEClient.t) (listed : Prop)
  : Prop :=
  if now - SSEClient.lastPing c >? timeout
  then after = before /\ entry = Some c /\ listed
  else exists serverTime sent calls,
         after = before ++ calls
         /\ send_calls k (SSEClient.response c)
              (formatSSEMessage (ping_event now serverTime))
              (List.filter is_send calls) sent
         /\ (sent = false -> listed /\ entry = None)
         /\ (sent = true -> ~ listed /\ is_Some entry).

(** *** The operations as the specification words them *)

(** "Calls [sendTo] for each" id of a list resolved beforehand, with the
    result of every send. *)
Fixpoint sendTo_each (ids : list string) (event : SSEEvent.t)
  : M W (list bool) :=
  match ids with
  | [] => ret []
  | clientId :: ids' =>
      (sent <- sendToClient clientId event ;;
       rest <- sendTo_each ids' event ;;
       ret (sent :: rest))%js
  end.

Definition count_true (bs : list bool) : Z :=
  Z.of_nat (length (List.filter (fun b => b) bs)).

(** "Resolves [listIdsForUser(userId)] at call time, then calls [sendTo]
    for each; returns the number of successful sends." *)
Definition sendToUser_resolved (userId : string) (event : SSEEvent.t)
  : M W Z :=
  (ids <- getClientsByUser userId ;;
   sent <- sendTo_each ids event ;;
   ret (count_true sent))%js.

End Runs.

(** The wire grammar of an event, an absent field giving no line:
<<
   ["id: " <id> "\n"]  "event: " <name> "\n"  "data: " <json> "\n"
   ["retry: " <retry> "\n"]  "\n"
>> *)
Definition wire_encoding (id : option string) (name json : string)
    (retry : option Z) : string :=
  match id with Some i => "id: " +:+ i +:+ LF | None => EmptyString end
  +:+ "event: " +:+ name +:+ LF
  +:+ "data: " +:+ json +:+ LF
  +:+ match retry with
      | Some r => "retry: " +:+ Number_toString r +:+ LF
      | None => EmptyString
      end
  +:+ LF.

(** The id and the retry delay an event gets a line for: [if (event.id)]
    and [if (event.retry)] let a non-empty id and a non-zero delay through. *)
Definition emitted_id (event : SSEEvent.t) : option string :=
  match SSEEvent.id event with
  | Some i => if truthy_string i then Some i else None
  | None => None
  end.

Definition emitted_retry (event : SSEEvent.t) : option Z :=
  match SSEEvent.retry event with
  | Some r => if truthy_number r then Some r else None
  | None => None
  end.

(** The event [{id: "42", event: "update", data: {"a": 1}, retry: 3000}]. *)
Definition update_42 : SSEEvent.t :=
  SSEEvent.mk (Some "42") "update" (JObject [("a", JNumber 1)]) (Some 3000).

(** ** A host to run the service on

    Controllers follow the streams standard: [desiredSize] is [null] on an
    errored stream and [0] on a closed one; [enqueue] and [close] throw
    unless the stream is readable. *)
Module Sim.
Inductive StreamState : Type := Readable | Closed | Errored.

Record World : Type := mk {
  clock : Z;
  uuids : nat;
  streams : list (Controller * StreamState)
}.

Fixpoint state_of (c : Controller) (l : list (Controller * StreamState))
  : StreamState :=
  match l with
  | [] => Readable
  | (c', st) :: l' => if Nat.eqb c' c then st else state_of c l'
  end.

Definition TypeError : Exn := Error "Invalid state: Controller is already closed".

#[global] Instance host : Host World := {|
  Date_now w := (clock w, w);
  Date_toISOString w := ("1970-01-01T00:00:00.000Z", w);
  randomUUID w :=
    ("uuid-" +:+ NilZero.string_of_uint (Nat.to_uint (uuids w)),
     mk (clock w) (S (uuids w)) (streams w));
  desiredSize c w :=
    match state_of c (streams w) with
    | Readable => Some 1
    | Closed => Some 0
    | Errored => None
    end;
  enqueue c _ w :=
    match state_of c (streams w) with
    | Readable => (Ok tt, w)
    | _ => (Throw TypeError, w)
    end;
  close c w :=
    match state_of c (streams w) with
    | Readable => (Ok tt, mk (clock w) (uuids w) ((c, Closed) :: streams w))
    | _ => (Throw TypeError, w)
    end
|}.

(** A world at time [t] whose streams are all readable. *)
Definition fresh (t : Z) : World := mk t 0 [].

(** The stream of controller [c] errors; time passes. *)
Definition break (c : Controller) (w : World) : World :=
  mk (clock w) (uuids w) ((c, Errored) :: streams w).
Definition shut (c : Controller) (w : World) : World :=
  mk (clock w) (uuids w) ((c, Closed) :: streams w).
Definition advance (dt : Z) (w : World) : World :=
  mk (clock w + dt) (uuids w) (streams w).
End Sim.

(** Services for the examples: one client of user [u1] on controller 7;
    then a second, anonymous, on controller 8 and a third, whose user id is
    the empty string, on controller 9. *)
Definition one_client : State Sim.World :=
  exec (addClient 7%nat (Some "u1")) (new_SSEService None (Sim.fresh 1000)).

Definition three_clients : State Sim.World :=
  run [CallAddClient 8%nat None; CallAddClient 9%nat (Some EmptyString)]
      one_client.

(** A hundred seconds later, after a message to the second client. *)
Definition before_tick : State Sim.World :=
  run [WorldMoves (Sim.advance 100000); CallSendToClient "uuid-1" update_42]
      three_clients.

Definition the_client_7 : SSEClient.t :=
  SSEClient.mk "uuid-0" (Some "u1") 7%nat 1000 1000.

(** A service that accepts no client, for the examples. *)
Definition no_room : SSEServiceConfig.t :=
  SSEServiceConfig.mk None None None (Some 0).

(** ** The callers of the service

    The procedures of the tRPC router (features/sse/trpc/router.ts) and the
    broadcast route (app/api/sse-broadcast/route.ts), on the service
    instance [SSEService.getInstance()] returns. What the validation layer
    (zod) hands to a procedure is its input here. *)

(** [a || b] for an optional string [a] and a string [b]. *)
Definition or_string (a : option string) (b : string) : string :=
  match a with
  | Some x => if truthy_string x then x else b
  | None => b
  end.

Module SendResult.
(** [{ success, message }]. *)
Record t : Type := mk { success : bool; message : string }.
End SendResult.

Module CountResult.
(** [{ success, sentCount, message }]. *)
Record t : Type := mk { success : bool; sentCount : Z; message : string }.
End CountResult.

Module ClientsResult.
(** [{ clients, count }], with [userId] for [getClientsByUser]. *)
Record t : Type := mk {
  clients : list string;
  count : Z;
  userId : option string
}.
End ClientsResult.

Module HealthResult.
(** [{ status, timestamp, ...stats }]. *)
Record t : Type := mk {
  status : string;
  timestamp : string;
  stats : SSEServiceStats.t
}.
End HealthResult.

Section Router.
Context {W : Type} `{Host W}.
Local Open Scope js_scope.

(** [sseRouter.sendToClient]: the mutation, on its validated input. *)
Definition sseRouter_sendToClient (clientId event : string) (data : JSON)
  : M W SendResult.t :=
  id <- host_call randomUUID ;;
  sent <- sendToClient clientId (SSEEvent.mk (Some id) event data None) ;;
  ret (SendResult.mk sent
         (if sent then "Event sent successfully"
          else "Client not found or unreachable")).

(** [sseRouter.sendToUser]; [session_user] is [ctx.session.user.id]. *)
Definition sseRouter_sendToUser (session_user : string)
    (userId : option string) (event : string) (data : JSON)
  : M W CountResult.t :=
  let targetUserId := or_string userId session_user in
  id <- host_call randomUUID ;;
  sentCount <- sendToUser targetUserId
                 (SSEEvent.mk (Some id) event data None) ;;
  ret (CountResult.mk (sentCount >? 0) sentCount
         ("Event sent to " +:+ Number_toString sentCount +:+ " client(s)")).

(** [sseRouter.broadcast]. *)
Definition sseRouter_broadcast (excludeClientId : option string)
    (event : string) (data : JSON) : M W CountResult.t :=
  id <- host_call randomUUID ;;
  sentCount <- broadcast (SSEEvent.mk (Some id) event data None)
                         excludeClientId ;;
  ret (CountResult.mk (sentCount >? 0) sentCount
         ("Event broadcast to " +:+ Number_toString sentCount
          +:+ " client(s)")).

(** [sseRouter.getActiveClients]. *)
Definition sseRouter_getActiveClients : M W ClientsResult.t :=
  clients <- getActiveClients ;;
  ret (ClientsResult.mk clients (Z.of_nat (length clients)) None).

(** [sseRouter.getClientsByUser]. *)
Definition sseRouter_getClientsByUser (session_user : string)
    (userId : option string) : M W ClientsResult.t :=
  let targetUserId := or_string userId session_user in
  clients <- getClientsByUser targetUserId ;;
  ret (ClientsResult.mk clients (Z.of_nat (length clients))
                        (Some targetUserId)).

(** [sseRouter.healthCheck]. *)
Definition sseRouter_healthCheck : M W HealthResult.t :=
  stats <- getStats ;;
  timestamp <- host_call Date_toISOString ;;
  ret (HealthResult.mk "healthy" timestamp stats).
End Router.

(** *** The broadcast route and its rate limiter *)

Module RateLimitEntry.
(** [{ count: number; resetTime: number }]. *)
Record t : Type := mk { count : Z; resetTime : Z }.
End RateLimitEntry.

Definition RATE_LIMIT : Z := 10.
Definition RATE_WINDOW : Z := 60 * 1000.

Module BroadcastData.
(** What [broadcastSchema.parse] returns. *)
Record t : Type := mk {
  event : string;
  data : JSON;
  targetClientId : option string;
  excludeClientId : option string
}.
End BroadcastData.

(** What [await request.json()] followed by [broadcastSchema.parse(body)]
    comes to: the validated data, a [ZodError], or another exception (a body
    that is not JSON). *)
Inductive Body : Type :=
| Parsed (validatedData : BroadcastData.t)
| ZodError
| BodyError.

Module NextRequest.
(** What [POST] reads of its request; [x_forwarded_for] is
    [request.headers.get("x-forwarded-for")]. *)
Record t : Type := mk {
  ip : option string;
  x_forwarded_for : option string;
  body : Body
}.
End NextRequest.

(** The responses of [POST]: status 200 with
    [{ success: true, message, sentCount }], or an error status. *)
Inductive Response : Type :=
| Json200 (message : string) (sentCount : Z)
| Json400
| Json429
| Json500.

(** The module-level [rateLimitMap] and the service. *)
Record RouteState (W : Type) : Type := mkRoute {
  rateLimitMap : list (string * RateLimitEntry.t);
  sse : State W
}.
Arguments mkRoute {W} _ _.
Arguments rateLimitMap {W} _.
Arguments sse {W} _.

(** The block of [POST] that counts the request of [clientIP] at time
    [now]: whether the request goes on, and the Map afterwards.
    [clientLimit.count++] changes the entry where it stands. *)
Definition rate_limit (now : Z) (clientIP : string)
    (m : list (string * RateLimitEntry.t))
  : bool * list (string * RateLimitEntry.t) :=
  match Map_get clientIP m with
  | Some clientLimit =>
      if now <? RateLimitEntry.resetTime clientLimit then
        if RateLimitEntry.count clientLimit >=? RATE_LIMIT then (false, m)
        else
          (true,
           Map_set clientIP
             (RateLimitEntry.mk (RateLimitEntry.count clientLimit + 1)
                                (RateLimitEntry.resetTime clientLimit)) m)
      else
        (true, Map_set clientIP (RateLimitEntry.mk 1 (now + RATE_WINDOW)) m)
  | None =>
      (true, Map_set clientIP (RateLimitEntry.mk 1 (now + RATE_WINDOW)) m)
  end.

(** The body of the loop of the sweep, and the loop: the iterator is live
    and the body deletes the entry it visits at most. *)
Definition sweep_visit (now : Z) (m : list (string * RateLimitEntry.t))
    (ip : string) : list (string * RateLimitEntry.t) :=
  match Map_get ip m with
  | Some limit =>
      if now >? RateLimitEntry.resetTime limit then Map_delete ip m else m
  | None => m
  end.

Definition sweep (now : Z) (m : list (string * RateLimitEntry.t))
  : list (string * RateLimitEntry.t) :=
  fold_left (sweep_visit now) (Map_keys m) m.

Section BroadcastRoute.
Context {W : Type} `{Host W}.

(** [request.ip || request.headers.get("x-forwarded-for") || "unknown"]. *)
Definition clientIP_of (request : NextRequest.t) : string :=
  or_string (NextRequest.ip request)
            (or_string (NextRequest.x_forwarded_for request) "unknown").

Definition broadcast_message (sentCount : Z) : string :=
  "Event broadcast to " +:+ Number_toString sentCount +:+ " client(s)".

(** The event [POST] sends: the [event] and [data] of the request, without
    an id. *)
Definition event_of (validatedData : BroadcastData.t) : SSEEvent.t :=
  SSEEvent.mk None (BroadcastData.event validatedData)
              (BroadcastData.data validatedData) None.

(** The lines of [POST] that send, with [sentCount] as their result:
    to the target if there is one, to everyone but the excluded client
    otherwise. *)
Definition deliver (validatedData : BroadcastData.t) : M W Z :=
  match BroadcastData.targetClientId validatedData with
  | Some target =>
      if truthy_string target then
        bind (sendToClient target (event_of validatedData))
             (fun sent : bool => ret (if sent then 1 else 0))
      else broadcast (event_of validatedData)
                     (BroadcastData.excludeClientId validatedData)
  | None =>
      broadcast (event_of validatedData)
                (BroadcastData.excludeClientId validatedData)
  end.

(** [POST]: everything runs inside [try]; an exception ends in the [catch]
    block, which answers 400 to a [ZodError] and 500 to anything else. *)
Definition POST (request : NextRequest.t) (rs : RouteState W)
  : Response * RouteState W :=
  let clientIP := clientIP_of request in
  let (now, w) := Date_now (world (sse rs)) in
  let s := mkState (this (sse rs)) w (trace (sse rs)) (timeouts (sse rs))
                   (intervals (sse rs)) in
  let (allowed, m) := rate_limit now clientIP (rateLimitMap rs) in
  if negb allowed then (Json429, mkRoute m s)
  else
    match NextRequest.body request with
    | ZodError => (Json400, mkRoute m s)
    | BodyError => (Json500, mkRoute m s)
    | Parsed validatedData =>
        match deliver validatedData s with
        | (Ok sentCount, s') =>
            (Json200 (broadcast_message sentCount) sentCount, mkRoute m s')
        | (Throw _, s') => (Json500, mkRoute m s')
        end
    end.


(** The verdicts of the limiter on requests of one address at the given
    times, oldest first. *)
Fixpoint rate_limit_all (clientIP : string) (times : list Z)
    (m : list (string * RateLimitEntry.t)) : list bool :=
  match times with
  | [] => []
  | now :: times' =>
      let (allowed, m') := rate_limit now clientIP m in
      allowed :: rate_limit_all clientIP times' m'
  end.
End BroadcastRoute.

(** *** Notions the further statements use *)

Section MoreNotions.
Context {W : Type} `{Host W}.

Definition is_close (c : Call) : bool :=
  match call_op c with
  | Close _ => true
  | _ => false
  end.

(** The [connected] event of the callback of [addClient]. *)
Definition connected_event (clientId : string) (timestamp : Z)
    (serverTime : string) : SSEEvent.t :=
  SSEEvent.mk None "connected"
    (JObject [("clientId", JString clientId);
              ("timestamp", JNumber timestamp);
              ("serverTime", JString serverTime)])
    None.

(** "Resolves [listIds()] at call time, calls [sendTo] for every id except
    [excludeId]; returns the successful-send count." *)
Definition broadcast_resolved (event : SSEEvent.t)
    (excludeClientId : option string) : M W Z :=
  (ids <- getActiveClients ;;
   sent <- sendTo_each
             (List.filter (fun id => negb (is_excluded excludeClientId id)) ids)
             event ;;
   ret (count_true sent))%js.

(** The live interval timers are the heartbeat timer of the service, if it
    has one. *)
Definition timer_ok (s : State W) : Prop :=
  intervals s
  = match SSEService.heartbeatInterval (this s) with
    | Some t => [t]
    | None => []
    end.




End MoreNotions.

(** * Properties *)

(** ** The Map *)

Section MapFacts.
Context {V : Type}.
Implicit Types (m : list (string * V)) (k : string) (v : V).

Lemma Map_get_None m k : Map_get k m = None <-> k ∉ Map_keys m.
Proof.
  unfold Map_keys. induction m as [|[k' v'] m IH]; csimpl.
  - split; [intros _; apply not_elem_of_nil | reflexivity].
  - rewrite not_elem_of_cons. destruct (String.eqb_spec k' k) as [->|Hne].
    + split; [discriminate | tauto].
    + rewrite IH. intuition congruence.
Qed.

Lemma Map_get_Some_In m k v : Map_get k m = Some v -> k ∈ Map_keys m.
Proof.
  intros Hget. destruct (decide (k ∈ Map_keys m)) as [Hin|Hout].
  - exact Hin.
  - apply Map_get_None in Hout. congruence.
Qed.

Lemma Map_get_In m k : k ∈ Map_keys m -> exists v, Map_get k m = Some v.
Proof.
  intros Hin. destruct (Map_get k m) as [v|] eqn:Hget.
  - now exists v.
  - apply Map_get_None in Hget. contradiction.
Qed.

Lemma Map_get_entry m k v : Map_get k m = Some v -> (k, v) ∈ m.
Proof.
  induction m as [|[k' v'] m IH]; csimpl; [discriminate|].
  destruct (String.eqb_spec k' k) as [->|Hne].
  - intros [= ->]. apply elem_of_cons. now left.
  - intros Hget. apply elem_of_cons. right. now apply IH.
Qed.

Lemma Map_entry_get m k v :
  NoDup (Map_keys m) -> (k, v) ∈ m -> Map_get k m = Some v.
Proof.
  unfold Map_keys. induction m as [|[k' v'] m IH]; csimpl.
  - intros _ Hin. now apply elem_of_nil in Hin.
  - rewrite NoDup_cons, elem_of_cons. intros [Hout Hnd] [Heq|Hin].
    + injection Heq as -> ->. now rewrite String.eqb_refl.
    + destruct (String.eqb_spec k' k) as [->|Hne].
      * exfalso. apply Hout. apply list_elem_of_fmap. now exists (k, v).
      * now apply IH.
Qed.

Lemma Map_get_delete_ne m k k' :
  k' <> k -> Map_get k' (Map_delete k m) = Map_get k' m.
Proof.
  intros Hne. induction m as [|[k0 v0] m IH]; csimpl; [reflexivity|].
  destruct (String.eqb_spec k0 k) as [->|Hk].
  - destruct (String.eqb_spec k k') as [->|_]; [contradiction|reflexivity].
  - csimpl. now rewrite IH.
Qed.

Lemma Map_keys_delete m k k' :
  k' ∈ Map_keys (Map_delete k m) -> k' ∈ Map_keys m.
Proof.
  unfold Map_keys. induction m as [|[k0 v0] m IH]; csimpl; [tauto|].
  destruct (String.eqb_spec k0 k) as [->|Hk]; csimpl;
    rewrite ?elem_of_cons; tauto.
Qed.

Lemma Map_delete_NoDup m k :
  NoDup (Map_keys m) -> NoDup (Map_keys (Map_delete k m)).
Proof.
  induction m as [|[k0 v0] m IH]; csimpl; [trivial|].
  unfold Map_keys in *. csimpl. rewrite NoDup_cons. intros [Hout Hnd].
  destruct (String.eqb_spec k0 k) as [->|Hk]; csimpl; [assumption|].
  apply NoDup_cons. split; [|now apply IH].
  intros Hin. apply Hout. eapply Map_keys_delete, Hin.
Qed.

Lemma Map_get_delete_eq m k :
  NoDup (Map_keys m) -> Map_get k (Map_delete k m) = None.
Proof.
  induction m as [|[k0 v0] m IH]; csimpl; [reflexivity|].
  unfold Map_keys in *. csimpl. rewrite NoDup_cons. intros [Hout Hnd].
  destruct (String.eqb_spec k0 k) as [->|Hk].
  - now apply Map_get_None.
  - csimpl. destruct (String.eqb_spec k0 k); [contradiction|]. now apply IH.
Qed.

Lemma Map_delete_absent m k : Map_get k m = None -> Map_delete k m = m.
Proof.
  induction m as [|[k0 v0] m IH]; csimpl; [reflexivity|].
  destruct (String.eqb_spec k0 k) as [->|Hk]; [discriminate|].
  intros Hget. now rewrite IH.
Qed.

Lemma Map_get_set_eq m k v : Map_get k (Map_set k v m) = Some v.
Proof.
  induction m as [|[k0 v0] m IH]; csimpl.
  - now rewrite String.eqb_refl.
  - destruct (String.eqb_spec k0 k) as [->|Hk]; csimpl.
    + now rewrite String.eqb_refl.
    + destruct (String.eqb_spec k0 k); [contradiction|]. exact IH.
Qed.

Lemma Map_get_set_ne m k k' v :
  k' <> k -> Map_get k' (Map_set k v m) = Map_get k' m.
Proof.
  intros Hne. induction m as [|[k0 v0] m IH]; csimpl.
  - destruct (String.eqb_spec k k') as [->|_]; [contradiction|reflexivity].
  - destruct (String.eqb_spec k0 k) as [->|Hk]; csimpl.
    + destruct (String.eqb_spec k k') as [->|_]; [contradiction|reflexivity].
    + now rewrite IH.
Qed.

Lemma Map_keys_set_present m k v :
  k ∈ Map_keys m -> Map_keys (Map_set k v m) = Map_keys m.
Proof.
  unfold Map_keys. induction m as [|[k0 v0] m IH]; csimpl.
  - intros Hin. now apply elem_of_nil in Hin.
  - rewrite elem_of_cons.
    destruct (String.eqb_spec k0 k) as [->|Hk]; csimpl; [reflexivity|].
    intros [Heq|Hin]; [congruence|]. now rewrite IH.
Qed.

Lemma Map_keys_set_absent m k v :
  k ∉ Map_keys m -> Map_keys (Map_set k v m) = Map_keys m ++ [k].
Proof.
  unfold Map_keys. induction m as [|[k0 v0] m IH]; csimpl; [reflexivity|].
  rewrite not_elem_of_cons. intros [Hne Hout].
  destruct (String.eqb_spec k0 k) as [->|Hk]; csimpl.
  - congruence.
  - now rewrite IH.
Qed.

Lemma Map_keys_set_In m k k' v :
  k' ∈ Map_keys (Map_set k v m) <-> k' = k \/ k' ∈ Map_keys m.
Proof.
  destruct (decide (k ∈ Map_keys m)) as [Hin|Hout].
  - rewrite Map_keys_set_present by assumption.
    split; [tauto|]. intros [->|?]; assumption.
  - rewrite Map_keys_set_absent by assumption.
    rewrite elem_of_app, list_elem_of_singleton. tauto.
Qed.

Lemma Map_set_NoDup m k v :
  NoDup (Map_keys m) -> NoDup (Map_keys (Map_set k v m)).
Proof.
  intros Hnd. destruct (decide (k ∈ Map_keys m)) as [Hin|Hout].
  - now rewrite Map_keys_set_present.
  - rewrite Map_keys_set_absent by assumption.
    apply NoDup_app. split; [assumption|]. split; [|apply NoDup_singleton].
    intros x Hx Hx'. apply list_elem_of_singleton in Hx'. now subst.
Qed.

(** Under distinct keys, deleting a key leaves exactly the other keys. *)
Lemma Map_keys_delete_iff m k k' :
  NoDup (Map_keys m) ->
  k' ∈ Map_keys (Map_delete k m) <-> k' ∈ Map_keys m /\ k' <> k.
Proof.
  intros Hnd. split.
  - intros Hin. split; [eapply Map_keys_delete, Hin|].
    intros ->. apply Map_get_In in Hin as [v Hv].
    rewrite Map_get_delete_eq in Hv by assumption. discriminate.
  - intros [Hin Hne]. apply Map_get_In in Hin as [v Hv].
    eapply Map_get_Some_In. rewrite Map_get_delete_ne by assumption.
    exact Hv.
Qed.
End MapFacts.

(** ** The methods, one by one *)

Ltac unfold_monad :=
  unfold bind, ret, throw, try_catch, get_this, modify_this, host_call,
    controller_desiredSize, controller_enqueue, controller_close,
    setTimeout_connected, exec, result, clients_of in *;
  cbn [fst snd this world trace timeouts intervals] in *.

(** Projections of states the methods build. *)
Ltac proj_simpl :=
  cbn [this world trace timeouts intervals fst snd
       SSEService.clients SSEService.config SSEService.isShuttingDown
       SSEService.heartbeatInterval SSEService.with_clients
       SSEService.with_heartbeatInterval SSEService.with_isShuttingDown] in *.

Section Methods.
Context {W : Type} `{Host W}.
Implicit Types (s : State W) (k clientId : string) (c client : SSEClient.t).

(** Each method as an equation, one per path through its body. *)
Lemma removeClient_absent s k :
  Map_get k (clients_of s) = None -> removeClient k s = (Ok false, s).
Proof.
  intros Hget. unfold removeClient. unfold_monad. now rewrite Hget.
Qed.

(** The state [removeClient] leaves when it finds the client. *)
Lemma removeClient_present s k c :
  Map_get k (clients_of s) = Some c ->
  removeClient k s =
    (Ok true,
     mkState
       (SSEService.with_clients (Map_delete k (clients_of s)) (this s))
       (snd (Date_now (snd (close (SSEClient.response c) (world s)))))
       (trace s ++ [mkCall k (SSEClient.response c)
                           (Close (fst (close (SSEClient.response c)
                                              (world s))))])
       (timeouts s) (intervals s)).
Proof.
  intros Hget. unfold removeClient. unfold_monad. rewrite Hget.
  destruct (close (SSEClient.response c) (world s)) as [[[]|e] w]; cbn;
    destruct (Date_now w) as [t w']; reflexivity.
Qed.

Lemma sendToClient_absent s k event :
  Map_get k (clients_of s) = None -> sendToClient k event s = (Ok false, s).
Proof.
  intros Hget. unfold sendToClient. unfold_monad. now rewrite Hget.
Qed.

(** The stream reports itself closed: nothing is written. *)
Lemma sendToClient_closed s k c event :
  Map_get k (clients_of s) = Some c ->
  desiredSize (SSEClient.response c) (world s) = None ->
  sendToClient k event s =
    (Ok false,
     mkState
       (SSEService.with_clients (Map_delete k (clients_of s)) (this s))
       (snd (Date_now (snd (close (SSEClient.response c) (world s)))))
       (trace s ++ [mkCall k (SSEClient.response c) (GetDesiredSize None);
                    mkCall k (SSEClient.response c)
                           (Close (fst (close (SSEClient.response c)
                                              (world s))))])
       (timeouts s) (intervals s)).
Proof.
  intros Hget Hsize. unfold sendToClient.
  unfold bind at 1. unfold get_this at 1. cbn [this]. fold (clients_of s).
  rewrite Hget. unfold try_catch, bind at 1. unfold controller_desiredSize.
  cbn [world]. rewrite Hsize.
  unfold bind. erewrite removeClient_present by (cbn; exact Hget).
  cbn. now rewrite <- app_assoc.
Qed.

(** [enqueue] throws: the catch block removes the client. *)
Lemma sendToClient_throws s k c event z e w :
  Map_get k (clients_of s) = Some c ->
  desiredSize (SSEClient.response c) (world s) = Some z ->
  enqueue (SSEClient.response c) (formatSSEMessage event) (world s)
    = (Throw e, w) ->
  sendToClient k event s =
    (Ok false,
     mkState
       (SSEService.with_clients (Map_delete k (clients_of s)) (this s))
       (snd (Date_now (snd (close (SSEClient.response c) w))))
       (trace s ++ [mkCall k (SSEClient.response c) (GetDesiredSize (Some z));
                    mkCall k (SSEClient.response c)
                           (Enqueue (formatSSEMessage event) (Throw e));
                    mkCall k (SSEClient.response c)
                           (Close (fst (close (SSEClient.response c) w)))])
       (timeouts s) (intervals s)).
Proof.
  intros Hget Hsize Henq. unfold sendToClient.
  unfold bind at 1. unfold get_this at 1. cbn [this]. fold (clients_of s).
  rewrite Hget. unfold try_catch, bind at 1. unfold controller_desiredSize.
  cbn [world]. rewrite Hsize.
  unfold bind at 1. unfold controller_enqueue. cbn [world]. rewrite Henq.
  unfold bind. erewrite removeClient_present by (cbn; exact Hget).
  cbn. now rewrite <- !app_assoc.
Qed.

(** The write succeeds: [lastPing] becomes the time read after it. *)
Lemma sendToClient_written s k c event z w :
  Map_get k (clients_of s) = Some c ->
  desiredSize (SSEClient.response c) (world s) = Some z ->
  enqueue (SSEClient.response c) (formatSSEMessage event) (world s)
    = (Ok tt, w) ->
  sendToClient k event s =
    (Ok true,
     mkState
       (SSEService.with_clients
          (Map_set k (SSEClient.with_lastPing (fst (Date_now w)) c)
                   (clients_of s))
          (this s))
       (snd (Date_now w))
       (trace s ++ [mkCall k (SSEClient.response c) (GetDesiredSize (Some z));
                    mkCall k (SSEClient.response c)
                           (Enqueue (formatSSEMessage event) (Ok tt))])
       (timeouts s) (intervals s)).
Proof.
  intros Hget Hsize Henq. unfold sendToClient, set_lastPing. unfold_monad.
  rewrite Hget. cbn. rewrite Hsize. cbn. rewrite Henq. cbn.
  destruct (Date_now w) as [t w']. cbn. rewrite Hget.
  now rewrite <- app_assoc.
Qed.
End Methods.

(** ** What a method leaves untouched *)

Section Frames.
Context {W : Type} `{Host W}.
Implicit Types (s : State W) (k clientId : string) (c client : SSEClient.t).

Lemma same_setup_refl s : same_setup s s.
Proof. repeat split. Qed.

Lemma same_setup_trans s s1 s2 :
  same_setup s s1 -> same_setup s1 s2 -> same_setup s s2.
Proof.
  intros (? & ? & ? & ? & ?) (? & ? & ? & ? & ?). repeat split; congruence.
Qed.

Lemma steps_on_refl ks s : steps_on ks s s.
Proof.
  split; [apply same_setup_refl|]. repeat split; auto. exists []. split; [now rewrite app_nil_r|].
  intros call Hin. now apply elem_of_nil in Hin.
Qed.

Lemma steps_on_trans ks s s1 s2 :
  steps_on ks s s1 -> steps_on ks s1 s2 -> steps_on ks s s2.
Proof.
  intros (Hs & Hnd & Hsub & Hget & d & Hd & Htag)
         (Hs' & Hnd' & Hsub' & Hget' & d' & Hd' & Htag').
  split; [eapply same_setup_trans; eassumption|]. repeat split; auto.
  - intros k Hk. rewrite Hget', Hget; auto.
  - exists (d ++ d'). split; [rewrite Hd', Hd; now rewrite app_assoc|].
    intros call Hin. apply elem_of_app in Hin as [Hin|Hin]; auto.
Qed.

Lemma steps_on_mono ks ks' s s' :
  (forall k, k ∈ ks -> k ∈ ks') -> steps_on ks s s' -> steps_on ks' s s'.
Proof.
  intros Hsub (Hs & Hnd & Hkeys & Hget & d & Hd & Htag).
  split; [exact Hs|]. repeat split; auto.
  exists d. split; auto.
Qed.

(** A change of the world alone touches no client. *)
Lemma steps_on_world ks s w :
  steps_on ks s (mkState (this s) w (trace s) (timeouts s) (intervals s)).
Proof.
  split; [repeat split|]. repeat split; auto. exists []. split; [cbn; now rewrite app_nil_r|].
  intros call Hin. now apply elem_of_nil in Hin.
Qed.

Lemma host_call_steps {A} (op : W -> A * W) ks s :
  exists a, host_call op s = (Ok a, exec (host_call op) s)
            /\ a = fst (op (world s))
            /\ steps_on ks s (exec (host_call op) s).
Proof.
  unfold exec, host_call. destruct (op (world s)) as [a w]. exists a.
  cbn. repeat split; auto. apply steps_on_world.
Qed.

(** A state in which [k] is gone and calls on its behalf were made. *)
Lemma steps_on_deleted s k w calls :
  (forall call, call ∈ calls -> call_client call = k) ->
  steps_on [k] s
    (mkState (SSEService.with_clients (Map_delete k (clients_of s)) (this s))
             w (trace s ++ calls) (timeouts s) (intervals s)).
Proof.
  intros Htag. unfold steps_on, clients_of. proj_simpl.
  split; [repeat split|]. repeat split; auto.
  - apply Map_delete_NoDup.
  - intros k'. apply Map_keys_delete.
  - intros k' Hk'. apply Map_get_delete_ne. intros ->. apply Hk'.
    now apply list_elem_of_singleton.
  - exists calls. split; [reflexivity|]. intros call Hin.
    apply list_elem_of_singleton. auto.
Qed.

Lemma steps_on_updated s k c' w calls :
  k ∈ Map_keys (clients_of s) ->
  (forall call, call ∈ calls -> call_client call = k) ->
  steps_on [k] s
    (mkState (SSEService.with_clients (Map_set k c' (clients_of s)) (this s))
             w (trace s ++ calls) (timeouts s) (intervals s)).
Proof.
  intros Hin Htag. unfold steps_on, clients_of in *. proj_simpl.
  split; [repeat split|]. repeat split; auto.
  - apply Map_set_NoDup.
  - intros k'. now rewrite Map_keys_set_present.
  - intros k' Hk'. apply Map_get_set_ne. intros ->. apply Hk'.
    now apply list_elem_of_singleton.
  - exists calls. split; [reflexivity|]. intros call Hc.
    apply list_elem_of_singleton. auto.
Qed.

Ltac tagged :=
  let call := fresh "call" in
  let Hin := fresh "Hin" in
  intros call Hin;
  repeat (apply elem_of_cons in Hin as [->|Hin]; [reflexivity|]);
  now apply elem_of_nil in Hin.

Lemma removeClient_steps s k :
  exists found,
    removeClient k s = (Ok found, exec (removeClient k) s)
    /\ steps_on [k] s (exec (removeClient k) s).
Proof.
  unfold exec. destruct (Map_get k (clients_of s)) as [c|] eqn:Hget.
  - rewrite (removeClient_present _ _ _ Hget). exists true.
    split; [reflexivity|]. apply steps_on_deleted. tagged.
  - rewrite (removeClient_absent _ _ Hget). exists false.
    split; [reflexivity|]. apply steps_on_refl.
Qed.

Lemma sendToClient_steps s k event :
  exists sent,
    sendToClient k event s = (Ok sent, exec (sendToClient k event) s)
    /\ steps_on [k] s (exec (sendToClient k event) s).
Proof.
  unfold exec. destruct (Map_get k (clients_of s)) as [c|] eqn:Hget.
  2:{ rewrite (sendToClient_absent _ _ _ Hget). exists false.
      split; [reflexivity|]. apply steps_on_refl. }
  destruct (desiredSize (SSEClient.response c) (world s)) as [z|] eqn:Hsize.
  2:{ rewrite (sendToClient_closed _ _ _ _ Hget Hsize). exists false.
      split; [reflexivity|]. apply steps_on_deleted. tagged. }
  destruct (enqueue (SSEClient.response c) (formatSSEMessage event) (world s))
    as [[[]|e] w] eqn:Henq.
  - rewrite (sendToClient_written _ _ _ _ _ _ Hget Hsize Henq). exists true.
    split; [reflexivity|]. apply steps_on_updated; [|tagged].
    eapply Map_get_Some_In, Hget.
  - rewrite (sendToClient_throws _ _ _ _ _ _ _ Hget Hsize Henq).
    exists false. split; [reflexivity|]. apply steps_on_deleted. tagged.
Qed.
End Frames.

(** ** The wire encoding *)

Lemma append_cons (x : ascii) (a b : string) :
  String x a +:+ b = String x (a +:+ b).
Proof. reflexivity. Qed.

Lemma append_assoc (a b c : string) : (a +:+ b) +:+ c = a +:+ (b +:+ c).
Proof.
  induction a as [|x a IH]; [reflexivity|]. now rewrite !append_cons, IH.
Qed.

Lemma formatSSEMessage_grammar (event : SSEEvent.t) :
  formatSSEMessage event
  = wire_encoding (emitted_id event) (SSEEvent.event event)
                  (JSON_stringify (SSEEvent.data event)) (emitted_retry event).
Proof.
  unfold formatSSEMessage, wire_encoding, emitted_id, emitted_retry, Array_join.
  destruct (SSEEvent.id event) as [i|]; [destruct (truthy_string i)|];
    (destruct (SSEEvent.retry event) as [r|]; [destruct (truthy_number r)|]);
    cbn [app String.concat]; rewrite ?append_assoc; reflexivity.
Qed.

(** C1. For every event the encoder produces exactly the wire grammar: the
    line [id: <id>] only if the event has an id (a non-empty one), then
    [event: <name>], then [data: <json of the payload>], then
    [retry: <delay>] only if the event has a retry delay (a non-zero one),
    every line ended by a line feed, and one more line feed at the end.
    The event [{id: "42", event: "update", data: {"a": 1}, retry: 3000}]
    encodes to ["id: 42\nevent: update\ndata: {\"a\":1}\nretry: 3000\n\n"],
    and an event with neither id nor retry delay has neither line. *)
Theorem formatSSEMessage_wire_encoding :
  (forall event,
     formatSSEMessage event
     = wire_encoding (emitted_id event) (SSEEvent.event event)
                     (JSON_stringify (SSEEvent.data event))
                     (emitted_retry event))
  /\ (forall event i, emitted_id event = Some i -> SSEEvent.id event = Some i)
  /\ (forall event r,
        emitted_retry event = Some r -> SSEEvent.retry event = Some r)
  /\ (forall event i,
        SSEEvent.id event = Some i -> i <> EmptyString ->
        emitted_id event = Some i)
  /\ (forall event r,
        SSEEvent.retry event = Some r -> r <> 0 -> emitted_retry event = Some r)
  /\ formatSSEMessage update_42
     = "id: 42" +:+ LF +:+ "event: update" +:+ LF
       +:+ "data: {" +:+ DQUOTE +:+ "a" +:+ DQUOTE +:+ ":1}" +:+ LF
       +:+ "retry: 3000" +:+ LF +:+ LF
  /\ (forall event,
        SSEEvent.id event = None -> SSEEvent.retry event = None ->
        formatSSEMessage event
        = "event: " +:+ SSEEvent.event event +:+ LF
          +:+ "data: " +:+ JSON_stringify (SSEEvent.data event) +:+ LF +:+ LF).
Proof.
  split; [exact formatSSEMessage_grammar|].
  repeat split.
  - intros event i. unfold emitted_id.
    destruct (SSEEvent.id event) as [j|]; [|discriminate].
    destruct (truthy_string j); congruence.
  - intros event r. unfold emitted_retry.
    destruct (SSEEvent.retry event) as [q|]; [|discriminate].
    destruct (truthy_number q); congruence.
  - intros event i Hid Hne. unfold emitted_id. rewrite Hid.
    destruct i; [contradiction|reflexivity].
  - intros event r Hretry Hne. unfold emitted_retry, truthy_number.
    rewrite Hretry. destruct (Z.eqb_spec r 0); [contradiction|reflexivity].
  - intros event Hid Hretry. rewrite formatSSEMessage_grammar.
    unfold emitted_id, emitted_retry, wire_encoding. rewrite Hid, Hretry.
    rewrite ?append_assoc. reflexivity.
Qed.

Lemma formatSSEMessage_wire_encoding_witness :
  emitted_id update_42 = Some "42"
  /\ emitted_retry update_42 = Some 3000
  /\ formatSSEMessage (SSEEvent.mk None "ping" JNull None)
     = "event: ping" +:+ LF +:+ "data: null" +:+ LF +:+ LF.
Proof.
  destruct formatSSEMessage_wire_encoding
    as (_ & _ & _ & Hid & Hretry & _ & Hnone).
  split; [|split].
  - apply (Hid update_42 "42"); [reflexivity|discriminate].
  - apply (Hretry update_42 3000); [reflexivity|lia].
  - apply (Hnone (SSEEvent.mk None "ping" JNull None)); reflexivity.
Defined.

(** ** Registration and removal *)

Section Registry.
Context {W : Type} `{Host W}.
Implicit Types (s : State W) (k clientId : string) (c client : SSEClient.t).

Lemma new_calls_app {A} (m : M W A) s calls :
  trace (exec m s) = trace s ++ calls -> new_calls m s = calls.
Proof. intros Heq. unfold new_calls. rewrite Heq. apply drop_app_length. Qed.

Lemma getActiveClients_eq s :
  getActiveClients s = (Ok (Map_keys (clients_of s)), s).
Proof. reflexivity. Qed.

Lemma addClient_shutting_down s controller userId :
  SSEService.isShuttingDown (this s) = true ->
  addClient controller userId s = (Throw Unavailable, s).
Proof. intros Hdown. unfold addClient. unfold_monad. now rewrite Hdown. Qed.

Lemma addClient_accepts s controller userId :
  SSEService.isShuttingDown (this s) = false ->
  Map_size (clients_of s) < Config.maxClients (SSEService.config (this s)) ->
  let id_w := randomUUID (world s) in
  let t1_w := Date_now (snd id_w) in
  let t2_w := Date_now (snd t1_w) in
  addClient controller userId s =
    (Ok (fst id_w),
     mkState
       (SSEService.with_clients
          (Map_set (fst id_w)
             (SSEClient.mk (fst id_w) userId controller (fst t1_w) (fst t2_w))
             (clients_of s))
          (this s))
       (snd t2_w) (trace s) (timeouts s ++ [fst id_w]) (intervals s)).
Proof.
  intros Hdown Hroom. unfold addClient. unfold_monad. rewrite Hdown.
  destruct (Z.geb_spec (Map_size (SSEService.clients (this s)))
              (Config.maxClients (SSEService.config (this s)))); [lia|].
  cbn. destruct (randomUUID (world s)) as [id w]. cbn.
  destruct (Date_now w) as [t1 w1]. cbn.
  destruct (Date_now w1) as [t2 w2]. reflexivity.
Qed.

Lemma addClient_full s controller userId :
  SSEService.isShuttingDown (this s) = false ->
  Map_size (clients_of s) >= Config.maxClients (SSEService.config (this s)) ->
  addClient controller userId s = (Throw CapacityExceeded, s).
Proof.
  intros Hdown Hfull. unfold addClient. unfold_monad. rewrite Hdown.
  destruct (Z.geb_spec (Map_size (SSEService.clients (this s)))
              (Config.maxClients (SSEService.config (this s)))); [reflexivity|lia].
Qed.
End Registry.

(** C2, as the code has it. A registry that holds [maxClients] connections
    or more rejects [addClient] and stays as it is, down to the last field:
    with the error "Maximum client connections reached" when it is not
    shutting down, and with "Service is shutting down", which the method
    tests first, when it is. *)
Theorem addClient_at_capacity {W : Type} `{Host W} (s : State W)
    (controller : Controller) (userId : option string) :
  Map_size (clients_of s) >= Config.maxClients (SSEService.config (this s)) ->
  addClient controller userId s
  = (Throw (if SSEService.isShuttingDown (this s) then Unavailable
            else CapacityExceeded), s).
Proof.
  intros Hfull. destruct (SSEService.isShuttingDown (this s)) eqn:Hdown.
  - now apply addClient_shutting_down.
  - now apply addClient_full.
Qed.

Lemma addClient_at_capacity_witness :
  addClient 1%nat None (new_SSEService (Some no_room) (Sim.fresh 0))
  = (Throw CapacityExceeded, new_SSEService (Some no_room) (Sim.fresh 0)).
Proof.
  apply (addClient_at_capacity
           (new_SSEService (Some no_room) (Sim.fresh 0)) 1%nat None).
  vm_compute. discriminate.
Defined.

(** C2 as it is worded fails: after the shutdown handler has run, a service
    configured with [maxClients = 0] holds [maxClients] connections, and
    [addClient] does not fail with the capacity error. *)
Lemma addClient_at_capacity_counterexample :
  ~ (forall (s : State Sim.World) controller userId,
       Map_size (clients_of s)
       >= Config.maxClients (SSEService.config (this s)) ->
       addClient controller userId s = (Throw CapacityExceeded, s)).
Proof.
  intros Hclaim.
  specialize (Hclaim (exec shutdown
                        (new_SSEService (Some no_room) (Sim.fresh 0)))
                     1%nat None).
  vm_compute in Hclaim. assert (0 >= 0) as Hge by lia.
  specialize (Hclaim ltac:(discriminate)). discriminate.
Qed.

(** C3. [removeClient] on an id the registry does not hold returns [false]
    and changes nothing. On a registered id it calls [close] on the
    controller once and returns [true] whatever [close] answers, a thrown
    error included; the entry is deleted and the other entries stay; and a
    second call on the same id returns [false] and changes nothing. *)
Theorem removeClient_idempotent {W : Type} `{Host W} (s : State W)
    (clientId : string) :
  (Map_get clientId (clients_of s) = None ->
   removeClient clientId s = (Ok false, s))
  /\ (forall client,
        NoDup (Map_keys (clients_of s)) ->
        Map_get clientId (clients_of s) = Some client ->
        let s' := exec (removeClient clientId) s in
        removeClient clientId s = (Ok true, s')
        /\ new_calls (removeClient clientId) s
           = [mkCall clientId (SSEClient.response client)
                (Close (fst (close (SSEClient.response client) (world s))))]
        /\ clients_of s' = Map_delete clientId (clients_of s)
        /\ (clientId ∉ Map_keys (clients_of s'))
        /\ (forall k, k <> clientId ->
              Map_get k (clients_of s') = Map_get k (clients_of s))
        /\ removeClient clientId s' = (Ok false, s')).
Proof.
  split; [apply removeClient_absent|].
  intros client Hnd Hget s'.
  assert (Map_get clientId (clients_of s') = None) as Hgone.
  { subst s'. unfold exec. rewrite (removeClient_present _ _ _ Hget).
    unfold clients_of. proj_simpl. now apply Map_get_delete_eq. }
  subst s'. unfold exec in *. rewrite (removeClient_present _ _ _ Hget) in *.
  proj_simpl. repeat split.
  - apply new_calls_app. unfold exec.
    now rewrite (removeClient_present _ _ _ Hget).
  - now apply Map_get_None.
  - intros k Hk. unfold clients_of. proj_simpl. now apply Map_get_delete_ne.
  - now apply removeClient_absent.
Qed.

Lemma removeClient_idempotent_witness :
  let s := exec (addClient 7%nat (Some "u1"))
                (new_SSEService None (Sim.fresh 1000)) in
  removeClient "uuid-0" s = (Ok true, exec (removeClient "uuid-0") s)
  /\ removeClient "uuid-0" (exec (removeClient "uuid-0") s)
     = (Ok false, exec (removeClient "uuid-0") s)
  /\ removeClient "uuid-9" s = (Ok false, s).
Proof.
  intros s.
  destruct (removeClient_idempotent s "uuid-0") as [_ Hpresent].
  destruct (removeClient_idempotent s "uuid-9") as [Habsent _].
  specialize (Hpresent (SSEClient.mk "uuid-0" (Some "u1") 7%nat 1000 1000)).
  destruct Hpresent as (Hfirst & _ & _ & _ & _ & Hsecond).
  - apply (bool_decide_unpack _). vm_compute. exact I.
  - reflexivity.
  - split; [exact Hfirst|]. split; [exact Hsecond|].
    apply Habsent. reflexivity.
Defined.

(** ** Delivery to one client *)

(** C4. For a registered client, when the write fails (the stream reports
    itself closed, or [enqueue] throws), [sendToClient] runs [removeClient]
    on that id and returns [false]: the id is no longer among the active
    clients, no exception reaches the caller, and [enqueue] was called at
    most once. When the write succeeds, [sendToClient] returns [true] and
    the [lastPing] of the client is the time read after the write. *)
Theorem sendToClient_evicts_on_failure {W : Type} `{Host W} (s : State W)
    (clientId : string) (client : SSEClient.t) (event : SSEEvent.t) :
  NoDup (Map_keys (clients_of s)) ->
  Map_get clientId (clients_of s) = Some client ->
  let h := SSEClient.response client in
  let chunk := formatSSEMessage event in
  let s' := exec (sendToClient clientId event) s in
  (write_succeeds h chunk (world s) = false ->
   sendToClient clientId event s = (Ok false, s')
   /\ (exists s1,
         Map_get clientId (clients_of s1) = Some client
         /\ removeClient clientId s1 = (Ok true, s'))
   /\ (exists ids, getActiveClients s' = (Ok ids, s') /\ clientId ∉ ids)
   /\ (length (List.filter is_enqueue
                 (new_calls (sendToClient clientId event) s)) <= 1)%nat)
  /\ (write_succeeds h chunk (world s) = true ->
      sendToClient clientId event s = (Ok true, s')
      /\ Map_get clientId (clients_of s')
         = Some (SSEClient.with_lastPing
                   (fst (Date_now (snd (enqueue h chunk (world s))))) client)
      /\ List.filter is_enqueue (new_calls (sendToClient clientId event) s)
         = [mkCall clientId h (Enqueue chunk (Ok tt))]).
Proof.
  intros Hnd Hget h chunk s'. subst h chunk s'. unfold write_succeeds, exec.
  destruct (desiredSize (SSEClient.response client) (world s)) as [z|] eqn:Hsize.
  - destruct (enqueue (SSEClient.response client) (formatSSEMessage event)
                      (world s)) as [[[]|e] w] eqn:Henq; cbn [fst snd].
    + split; [discriminate|]. intros _.
      rewrite (sendToClient_written _ _ _ _ _ _ Hget Hsize Henq).
      proj_simpl. repeat split.
      * unfold clients_of. proj_simpl. apply Map_get_set_eq.
      * erewrite new_calls_app
          by (unfold exec;
              rewrite (sendToClient_written _ _ _ _ _ _ Hget Hsize Henq);
              reflexivity).
        reflexivity.
    + split; [|discriminate]. intros _.
      rewrite (sendToClient_throws _ _ _ _ _ _ _ Hget Hsize Henq).
      proj_simpl. repeat split.
      * exists (mkState (this s) w
                  (trace s ++ [mkCall clientId (SSEClient.response client)
                                 (GetDesiredSize (Some z));
                               mkCall clientId (SSEClient.response client)
                                 (Enqueue (formatSSEMessage event) (Throw e))])
                  (timeouts s) (intervals s)).
        split; [exact Hget|].
        rewrite (removeClient_present _ _ client) by exact Hget.
        unfold clients_of. proj_simpl. now rewrite <- app_assoc.
      * eexists. split; [apply getActiveClients_eq|].
        apply Map_get_None. unfold clients_of. proj_simpl.
        now apply Map_get_delete_eq.
      * erewrite new_calls_app
          by (unfold exec;
              rewrite (sendToClient_throws _ _ _ _ _ _ _ Hget Hsize Henq);
              reflexivity).
        cbn. lia.
  - split; [|discriminate]. intros _.
    rewrite (sendToClient_closed _ _ _ _ Hget Hsize).
    proj_simpl. repeat split.
    + exists (mkState (this s) (world s)
                (trace s ++ [mkCall clientId (SSEClient.response client)
                               (GetDesiredSize None)])
                (timeouts s) (intervals s)).
      split; [exact Hget|].
      rewrite (removeClient_present _ _ client) by exact Hget.
      unfold clients_of. proj_simpl. now rewrite <- app_assoc.
    + eexists. split; [apply getActiveClients_eq|].
      apply Map_get_None. unfold clients_of. proj_simpl.
      now apply Map_get_delete_eq.
    + erewrite new_calls_app
        by (unfold exec; rewrite (sendToClient_closed _ _ _ _ Hget Hsize);
            reflexivity).
      cbn. lia.
Qed.

Lemma sendToClient_evicts_on_failure_witness :
  let gone := step (WorldMoves (Sim.break 7%nat)) one_client in
  sendToClient "uuid-0" update_42 gone
  = (Ok false, exec (sendToClient "uuid-0" update_42) gone)
  /\ sendToClient "uuid-0" update_42 one_client
     = (Ok true, exec (sendToClient "uuid-0" update_42) one_client).
Proof.
  intros gone. split.
  - apply (sendToClient_evicts_on_failure gone "uuid-0" the_client_7 update_42);
      [apply (bool_decide_unpack _); vm_compute; exact I
      | reflexivity | reflexivity].
  - apply (sendToClient_evicts_on_failure one_client "uuid-0" the_client_7
             update_42);
      [apply (bool_decide_unpack _); vm_compute; exact I
      | reflexivity | reflexivity].
Defined.

(** ** Statistics *)

(** C9. On a registry without connections [getStats] returns normally, with
    a total of 0, an average connection time of 0 and an oldest connection
    of 0; both counts are 0 as well. No division is evaluated. *)
Theorem getStats_empty {W : Type} `{Host W} (s : State W) :
  clients_of s = [] ->
  result getStats s = Ok (SSEServiceStats.mk 0 0 0 0 0).
Proof.
  intros Hempty. unfold getStats. unfold_monad.
  destruct (Date_now (world s)) as [now w]. cbn. now rewrite Hempty.
Qed.

Lemma getStats_empty_witness :
  result getStats (new_SSEService None (Sim.fresh 1000))
  = Ok (SSEServiceStats.mk 0 0 0 0 0).
Proof.
  apply (getStats_empty (new_SSEService None (Sim.fresh 1000))). reflexivity.
Defined.

(** ** Loops *)

Section Loops.
Context {W : Type} `{Host W}.
Implicit Types (s : State W) (k clientId : string) (c client : SSEClient.t).

Lemma bind_eq {A B} (m : M W A) (f : A -> M W B) s a s1 :
  m s = (Ok a, s1) -> bind m f s = f a s1.
Proof. intros Heq. unfold bind. now rewrite Heq. Qed.

Lemma bind_assoc {A B C} (m : M W A) (f : A -> M W B) (g : B -> M W C) s :
  bind (bind m f) g s = bind m (fun a => bind (f a) g) s.
Proof. unfold bind. destruct (m s) as [[a|e] s1]; reflexivity. Qed.

Lemma exec_eq {A} (m : M W A) s a s1 : m s = (Ok a, s1) -> exec m s = s1.
Proof. intros Heq. unfold exec. now rewrite Heq. Qed.

Lemma steps_on_cons k ks s s1 s2 :
  steps_on [k] s s1 -> steps_on ks s1 s2 -> steps_on (k :: ks) s s2.
Proof.
  intros H1 H2. apply steps_on_trans with s1.
  - eapply steps_on_mono, H1. intros x Hx.
    apply list_elem_of_singleton in Hx as ->. apply elem_of_cons. now left.
  - eapply steps_on_mono, H2. intros x Hx. apply elem_of_cons. now right.
Qed.

(** The calls on behalf of a client no step touches are those of before. *)
Lemma steps_on_calls ks s s' k :
  steps_on ks s s' -> k ∉ ks -> calls_of k (trace s') = calls_of k (trace s).
Proof.
  intros (_ & _ & _ & _ & d & Hd & Htag) Hk. unfold calls_of.
  rewrite Hd, filter_app.
  assert (filter (fun call => call_client call = k) d = []) as ->.
  { clear Hd. induction d as [|call d IH]; [reflexivity|].
    rewrite filter_cons. destruct (decide (call_client call = k)) as [Heq|_].
    - exfalso. apply Hk. rewrite <- Heq. apply Htag, elem_of_cons. now left.
    - apply IH. intros x Hx. apply Htag, elem_of_cons. now right. }
  apply app_nil_r.
Qed.

Lemma steps_on_get ks s s' k :
  steps_on ks s s' -> k ∉ ks ->
  Map_get k (clients_of s') = Map_get k (clients_of s).
Proof. intros (_ & _ & _ & Hget & _) Hk. now apply Hget. Qed.

Lemma steps_on_NoDup ks s s' :
  steps_on ks s s' ->
  NoDup (Map_keys (clients_of s)) -> NoDup (Map_keys (clients_of s')).
Proof. intros (_ & Hnd & _). exact Hnd. Qed.

Lemma steps_on_keys ks s s' k :
  steps_on ks s s' ->
  k ∈ Map_keys (clients_of s') -> k ∈ Map_keys (clients_of s).
Proof. intros (_ & _ & Hkeys & _). apply Hkeys. Qed.

Lemma steps_on_trace ks s s' :
  steps_on ks s s' -> exists calls, trace s' = trace s ++ calls.
Proof. intros (_ & _ & _ & _ & d & Hd & _). now exists d. Qed.

Lemma steps_on_setup ks s s' : steps_on ks s s' -> same_setup s s'.
Proof. intros (Hs & _). exact Hs. Qed.

(** A live loop over the entries whose body touches the entry it visits
    alone touches the entries it iterates over, and returns. *)
Lemma for_of_entries_steps {A} (body : A -> string -> SSEClient.t -> M W A) :
  (forall acc k c s,
     Map_get k (clients_of s) = Some c ->
     exists acc' s', body acc k c s = (Ok acc', s') /\ steps_on [k] s s') ->
  forall ks acc s,
    exists acc' s',
      for_of_entries ks acc body s = (Ok acc', s') /\ steps_on ks s s'.
Proof.
  intros Hbody ks. induction ks as [|k ks IH]; intros acc s.
  - exists acc, s. split; [reflexivity|apply steps_on_refl].
  - cbn [for_of_entries]. unfold bind at 1, get_this at 1.
    cbn [this]. fold (clients_of s).
    destruct (Map_get k (clients_of s)) as [c|] eqn:Hget.
    + destruct (Hbody acc k c s Hget) as (acc1 & s1 & Heq & Hsteps).
      rewrite (bind_eq _ _ _ _ _ Heq).
      destruct (IH acc1 s1) as (acc2 & s2 & Heq2 & Hsteps2).
      exists acc2, s2. split; [exact Heq2|].
      eapply steps_on_cons; eassumption.
    + destruct (IH acc s) as (acc2 & s2 & Heq2 & Hsteps2).
      exists acc2, s2. split; [exact Heq2|].
      eapply steps_on_mono, Hsteps2.
      intros x Hx. apply elem_of_cons. now right.
Qed.

Lemma for_of_clients_steps {A} (body : A -> string -> SSEClient.t -> M W A) :
  (forall acc k c s,
     Map_get k (clients_of s) = Some c ->
     exists acc' s', body acc k c s = (Ok acc', s') /\ steps_on [k] s s') ->
  forall acc s,
    exists acc' s',
      for_of_clients acc body s = (Ok acc', s')
      /\ steps_on (Map_keys (clients_of s)) s s'.
Proof.
  intros Hbody acc s.
  destruct (for_of_entries_steps body Hbody (Map_keys (clients_of s)) acc s)
    as (acc' & s' & Heq & Hsteps).
  exists acc', s'. unfold for_of_clients. unfold bind, get_this.
  cbn [this]. fold (clients_of s). rewrite Heq. split; [reflexivity|].
  exact Hsteps.
Qed.

Lemma Array_forEach_steps (f : string -> M W unit) :
  (forall k s, exists s', f k s = (Ok tt, s') /\ steps_on [k] s s') ->
  forall ks s,
    exists s', Array_forEach ks f s = (Ok tt, s') /\ steps_on ks s s'.
Proof.
  intros Hf ks. induction ks as [|k ks IH]; intros s.
  - exists s. split; [reflexivity|apply steps_on_refl].
  - cbn [Array_forEach]. destruct (Hf k s) as (s1 & Heq & Hsteps).
    rewrite (bind_eq _ _ _ _ _ Heq).
    destruct (IH s1) as (s2 & Heq2 & Hsteps2). exists s2.
    split; [exact Heq2|]. eapply steps_on_cons; eassumption.
Qed.

(** [removeClient] and [sendToClient] return, and touch their client alone. *)
Lemma removeClient_returns s k :
  exists found s', removeClient k s = (Ok found, s') /\ steps_on [k] s s'.
Proof.
  destruct (removeClient_steps s k) as (found & Heq & Hsteps). eauto.
Qed.

Lemma sendToClient_returns s k event :
  exists sent s', sendToClient k event s = (Ok sent, s') /\ steps_on [k] s s'.
Proof.
  destruct (sendToClient_steps s k event) as (sent & Heq & Hsteps). eauto.
Qed.

Lemma host_call_returns {A} (op : W -> A * W) ks s :
  exists s', host_call op s = (Ok (fst (op (world s))), s')
             /\ world s' = snd (op (world s))
             /\ this s' = this s /\ trace s' = trace s
             /\ steps_on ks s s'.
Proof.
  unfold host_call. destruct (op (world s)) as [a w].
  eexists. split; [reflexivity|]. proj_simpl.
  do 3 (split; [reflexivity|]). apply steps_on_world.
Qed.
End Loops.

(** ** Every method returns, and keeps the invariant *)

Ltac step_bind Heq := rewrite (bind_eq _ _ _ _ _ Heq).

Section Invariant.
Context {W : Type} `{Host W}.
Implicit Types (s : State W) (k clientId : string) (c client : SSEClient.t).

Lemma sendToUser_visit_returns userId event n k c s :
  exists n' s',
    sendToUser_visit userId event n k c s = (Ok n', s') /\ steps_on [k] s s'.
Proof.
  unfold sendToUser_visit. destruct (userId_is userId c).
  - destruct (sendToClient_returns s k event) as (sent & s1 & Heq & Hst).
    step_bind Heq. destruct sent; eexists _, _; split; try reflexivity; auto.
  - eexists _, _. split; [reflexivity|apply steps_on_refl].
Qed.

Lemma broadcast_visit_returns event exclude n k c s :
  exists n' s',
    broadcast_visit event exclude n k c s = (Ok n', s') /\ steps_on [k] s s'.
Proof.
  unfold broadcast_visit. destruct (negb (is_excluded exclude k)).
  - destruct (sendToClient_returns s k event) as (sent & s1 & Heq & Hst).
    step_bind Heq. destruct sent; eexists _, _; split; try reflexivity; auto.
  - eexists _, _. split; [reflexivity|apply steps_on_refl].
Qed.

Lemma heartbeat_visit_returns now timeout stale k c s :
  exists stale' s',
    heartbeat_visit now timeout stale k c s = (Ok stale', s')
    /\ steps_on [k] s s'.
Proof.
  unfold heartbeat_visit. destruct (now - SSEClient.lastPing c >? timeout).
  - eexists _, _. split; [reflexivity|apply steps_on_refl].
  - destruct (host_call_returns Date_toISOString [k] s)
      as (s1 & Heq1 & _ & _ & _ & Hst1).
    step_bind Heq1.
    destruct (sendToClient_returns s1 k
                (SSEEvent.mk None "ping"
                   (JObject [("timestamp", JNumber now);
                             ("serverTime",
                              JString (fst (Date_toISOString (world s))))])
                   None)) as (sent & s2 & Heq2 & Hst2).
    step_bind Heq2.
    destruct sent; eexists _, _; (split; [reflexivity|]);
      eapply steps_on_trans; eassumption.
Qed.

Lemma remove_stale_returns k s :
  exists s', remove_stale k s = (Ok tt, s') /\ steps_on [k] s s'.
Proof.
  unfold remove_stale.
  destruct (removeClient_returns s k) as (found & s1 & Heq & Hst).
  step_bind Heq. eexists. split; [reflexivity|exact Hst].
Qed.

Lemma removeClient_gone s k :
  NoDup (Map_keys (clients_of s)) ->
  k ∉ Map_keys (clients_of (exec (removeClient k) s)).
Proof.
  intros Hnd. apply Map_get_None.
  destruct (Map_get k (clients_of s)) as [c|] eqn:Hget.
  - unfold exec. rewrite (removeClient_present _ _ _ Hget).
    unfold clients_of. proj_simpl. now apply Map_get_delete_eq.
  - unfold exec. now rewrite (removeClient_absent _ _ Hget).
Qed.

(** The function of [cleanup] returns, whatever the send does, and leaves
    its client out of the Map. *)
Lemma cleanup_visit_returns k s :
  exists s',
    cleanup_visit k s = (Ok tt, s') /\ steps_on [k] s s'
    /\ (NoDup (Map_keys (clients_of s)) -> k ∉ Map_keys (clients_of s')).
Proof.
  unfold cleanup_visit.
  destruct (host_call_returns Date_now [k] s) as (s1 & Heq1 & _ & _ & _ & Hst1).
  destruct (sendToClient_returns s1 k
              (SSEEvent.mk None "server-shutdown"
                 (JObject [("message", JString "Server is shutting down");
                           ("timestamp", JNumber (fst (Date_now (world s))))])
                 None)) as (sent & s2 & Heq2 & Hst2).
  destruct (removeClient_returns s2 k) as (found & s3 & Heq3 & Hst3).
  exists s3. split; [|split].
  - unfold bind at 1, try_catch. step_bind Heq1. step_bind Heq2.
    unfold ret at 1. step_bind Heq3. reflexivity.
  - eapply steps_on_trans; [|exact Hst3].
    eapply steps_on_trans; eassumption.
  - intros Hnd. rewrite <- (exec_eq _ _ _ _ Heq3). apply removeClient_gone.
    eapply steps_on_NoDup; [exact Hst2|].
    eapply steps_on_NoDup; [exact Hst1|]. exact Hnd.
Qed.

Lemma getStats_returns ks s :
  exists stats s', getStats s = (Ok stats, s') /\ steps_on ks s s'.
Proof.
  unfold getStats.
  destruct (host_call_returns Date_now ks s) as (s1 & Heq1 & _ & _ & _ & Hst1).
  step_bind Heq1. eexists _, _. split; [reflexivity|exact Hst1].
Qed.

Lemma connected_callback_returns k s :
  exists s', connected_callback k s = (Ok tt, s') /\ steps_on [k] s s'.
Proof.
  unfold connected_callback.
  destruct (host_call_returns Date_now [k] s) as (s1 & Heq1 & _ & _ & _ & Hst1).
  step_bind Heq1.
  destruct (host_call_returns Date_toISOString [k] s1)
    as (s2 & Heq2 & _ & _ & _ & Hst2).
  step_bind Heq2.
  match goal with
  | |- context [sendToClient k ?ev] =>
      destruct (sendToClient_returns s2 k ev) as (sent & s3 & Heq3 & Hst3)
  end.
  step_bind Heq3. exists s3. split; [reflexivity|].
  eapply steps_on_trans; [|exact Hst3]. eapply steps_on_trans; eassumption.
Qed.

Lemma sendToUser_returns userId event s :
  exists n s',
    sendToUser userId event s = (Ok n, s')
    /\ steps_on (Map_keys (clients_of s)) s s'.
Proof.
  apply for_of_clients_steps. intros. apply sendToUser_visit_returns.
Qed.

Lemma broadcast_returns event exclude s :
  exists n s',
    broadcast event exclude s = (Ok n, s')
    /\ steps_on (Map_keys (clients_of s)) s s'.
Proof.
  apply for_of_clients_steps. intros. apply broadcast_visit_returns.
Qed.
End Invariant.

Section Lifecycle.
Context {W : Type} `{Host W}.
Implicit Types (s : State W) (k clientId : string) (c client : SSEClient.t).

Lemma keys_nil (m : list (string * SSEClient.t)) :
  (forall k, k ∉ Map_keys m) -> m = [].
Proof.
  destruct m as [|[k c] m]; [reflexivity|]. intros Hnone.
  exfalso. apply (Hnone k). unfold Map_keys. csimpl. apply elem_of_cons.
  now left.
Qed.

Lemma forEach_cleanup ks s :
  exists s',
    Array_forEach ks cleanup_visit s = (Ok tt, s') /\ steps_on ks s s'
    /\ (NoDup (Map_keys (clients_of s)) ->
        forall k, k ∈ ks -> k ∉ Map_keys (clients_of s')).
Proof.
  revert s. induction ks as [|k ks IH]; intros s.
  - exists s. split; [reflexivity|]. split; [apply steps_on_refl|].
    intros _ k Hk. now apply elem_of_nil in Hk.
  - cbn [Array_forEach].
    destruct (cleanup_visit_returns k s) as (s1 & Heq1 & Hst1 & Hgone1).
    step_bind Heq1. destruct (IH s1) as (s2 & Heq2 & Hst2 & Hgone2).
    exists s2. split; [exact Heq2|]. split.
    + eapply steps_on_cons; eassumption.
    + intros Hnd x Hx. apply elem_of_cons in Hx as [->|Hx].
      * intros Hin. apply (Hgone1 Hnd). eapply steps_on_keys; eassumption.
      * apply Hgone2; [|exact Hx]. eapply steps_on_NoDup; eassumption.
Qed.

Lemma stop_heartbeat_returns s :
  exists s0,
    stop_heartbeat s = (Ok tt, s0)
    /\ clients_of s0 = clients_of s /\ trace s0 = trace s
    /\ timeouts s0 = timeouts s
    /\ SSEService.config (this s0) = SSEService.config (this s)
    /\ SSEService.isShuttingDown (this s0)
       = SSEService.isShuttingDown (this s)
    /\ SSEService.heartbeatInterval (this s0) = None
    /\ (forall t, SSEService.heartbeatInterval (this s) = Some t ->
                  t ∉ intervals s0).
Proof.
  unfold stop_heartbeat. unfold_monad.
  destruct (SSEService.heartbeatInterval (this s)) as [t|] eqn:Hhb.
  - eexists. split; [reflexivity|]. unfold clearInterval. proj_simpl.
    repeat split. intros t' [= <-] Hin.
    apply list_elem_of_In, filter_In in Hin as [_ Hneq].
    now rewrite Nat.eqb_refl in Hneq.
  - exists s. repeat split; auto. discriminate.
Qed.

(** [cleanup] returns, clears the heartbeat timer and empties the Map. *)
Lemma cleanup_returns s :
  exists s',
    cleanup s = (Ok tt, s')
    /\ SSEService.config (this s') = SSEService.config (this s)
    /\ SSEService.isShuttingDown (this s')
       = SSEService.isShuttingDown (this s)
    /\ SSEService.heartbeatInterval (this s') = None
    /\ (forall t, SSEService.heartbeatInterval (this s) = Some t ->
                  t ∉ intervals s')
    /\ (exists calls, trace s' = trace s ++ calls)
    /\ (forall k, k ∈ Map_keys (clients_of s') -> k ∈ Map_keys (clients_of s))
    /\ (NoDup (Map_keys (clients_of s)) -> clients_of s' = []).
Proof.
  unfold cleanup.
  destruct (stop_heartbeat_returns s)
    as (s0 & Heq0 & Hc0 & Ht0 & Hto0 & Hcfg0 & Hf0 & Hh0 & Hi0).
  step_bind Heq0. unfold bind at 1, get_this at 1. cbn [this].
  fold (clients_of s0).
  destruct (forEach_cleanup (Map_keys (clients_of s0)) s0)
    as (s1 & Heq1 & Hst1 & Hgone1).
  exists s1. split; [exact Heq1|].
  pose proof (steps_on_setup _ _ _ Hst1) as (Hcfg1 & Hf1 & Hh1 & _ & Hi1).
  destruct (steps_on_trace _ _ _ Hst1) as (d & Hd).
  repeat split; try congruence.
  - intros t Ht. rewrite Hi1. now apply Hi0.
  - exists d. congruence.
  - intros k Hk. rewrite <- Hc0. eapply steps_on_keys; eassumption.
  - intros Hnd. rewrite <- Hc0 in Hnd. apply keys_nil. intros k Hin.
    apply (Hgone1 Hnd k); [|exact Hin]. eapply steps_on_keys; eassumption.
Qed.

Lemma shutdown_returns s :
  exists s',
    shutdown s = (Ok tt, s')
    /\ SSEService.isShuttingDown (this s') = true
    /\ SSEService.heartbeatInterval (this s') = None
    /\ (forall k, k ∈ Map_keys (clients_of s') -> k ∈ Map_keys (clients_of s))
    /\ (NoDup (Map_keys (clients_of s)) -> clients_of s' = []).
Proof.
  unfold shutdown. unfold bind at 1, modify_this at 1.
  set (s0 := mkState (SSEService.with_isShuttingDown true (this s)) (world s)
                     (trace s) (timeouts s) (intervals s)).
  destruct (cleanup_returns s0)
    as (s' & Heq & _ & Hf & Hh & _ & _ & Hkeys & Hempty).
  exists s'. split; [exact Heq|]. repeat split; auto.
Qed.

(** One tick returns; it only sends and removes. *)
Lemma heartbeat_callback_returns s :
  exists ks s', heartbeat_callback s = (Ok tt, s') /\ steps_on ks s s'.
Proof.
  unfold heartbeat_callback. unfold bind at 1, get_this at 1. cbn [this].
  destruct (SSEService.isShuttingDown (this s)).
  { exists [], s. split; [reflexivity|apply steps_on_refl]. }
  destruct (host_call_returns Date_now [] s) as (s1 & Heq1 & _ & _ & _ & Hst1).
  step_bind Heq1.
  destruct (for_of_clients_steps
              (heartbeat_visit (fst (Date_now (world s)))
                 (Config.clientTimeout (SSEService.config (this s))))
              ltac:(intros; apply heartbeat_visit_returns) [] s1)
    as (stale & s2 & Heq2 & Hst2).
  step_bind Heq2.
  destruct (Array_forEach_steps remove_stale remove_stale_returns stale s2)
    as (s3 & Heq3 & Hst3).
  step_bind Heq3. unfold bind at 1, get_this at 1. cbn [this].
  assert (steps_on (Map_keys (clients_of s1) ++ stale) s s3) as Hs3.
  { eapply steps_on_trans; [eapply steps_on_mono, Hst1|].
    { intros k Hk. now apply elem_of_nil in Hk. }
    eapply steps_on_trans; [eapply steps_on_mono, Hst2|eapply steps_on_mono, Hst3];
      intros k Hk; apply elem_of_app; auto. }
  destruct (Map_size (SSEService.clients (this s3)) >? 0).
  - destruct (getStats_returns (Map_keys (clients_of s1) ++ stale) s3)
      as (stats & s4 & Heq4 & Hst4).
    step_bind Heq4. eexists _, s4. split; [reflexivity|].
    eapply steps_on_trans; eassumption.
  - eexists _, s3. split; [reflexivity|exact Hs3].
Qed.

(** *** The invariant *)

Lemma wf_steps_on ks s s' : wf s -> steps_on ks s s' -> wf s'.
Proof.
  intros [Hnd Hdown] Hst. split.
  - eapply steps_on_NoDup; eassumption.
  - pose proof (steps_on_setup _ _ _ Hst) as (_ & Hf & _).
    rewrite Hf. intros Hflag. apply keys_nil. intros k Hk.
    eapply steps_on_keys in Hk; [|exact Hst]. rewrite (Hdown Hflag) in Hk.
    now apply elem_of_nil in Hk.
Qed.

Lemma wf_new config (w : W) : wf (new_SSEService config w).
Proof.
  split.
  - apply NoDup_nil. exact I.
  - reflexivity.
Qed.

Lemma addClient_cases s controller userId :
  (addClient controller userId s = (Throw Unavailable, s)
   /\ SSEService.isShuttingDown (this s) = true)
  \/ (addClient controller userId s = (Throw CapacityExceeded, s)
      /\ SSEService.isShuttingDown (this s) = false)
  \/ (exists clientId client w,
        addClient controller userId s
        = (Ok clientId,
           mkState (SSEService.with_clients
                      (Map_set clientId client (clients_of s)) (this s))
                   w (trace s) (timeouts s ++ [clientId]) (intervals s))
        /\ SSEService.isShuttingDown (this s) = false).
Proof.
  destruct (SSEService.isShuttingDown (this s)) eqn:Hdown.
  - left. split; [now apply addClient_shutting_down|reflexivity].
  - right.
    destruct (Z_lt_ge_dec (Map_size (clients_of s))
                (Config.maxClients (SSEService.config (this s)))) as [Hlt|Hge].
    + right. pose proof (addClient_accepts s controller userId Hdown Hlt) as Heq.
      cbv zeta in Heq. eauto.
    + left. split; [|reflexivity]. now apply addClient_full.
Qed.

Lemma wf_addClient s controller userId :
  wf s -> wf (exec (addClient controller userId) s).
Proof.
  intros [Hnd Hdown]. unfold exec.
  destruct (addClient_cases s controller userId)
    as [[-> _]|[[-> _]|(id & c & w & -> & Hflag)]]; cbn [snd];
    try (split; assumption).
  split; unfold clients_of in *; proj_simpl.
  - now apply Map_set_NoDup.
  - congruence.
Qed.

Lemma wf_step (op : Op W) s : wf s -> wf (step op s).
Proof.
  intros Hwf. destruct op as [controller userId|k|k event|u event|event ex| | |
                              |n| |f]; cbn [step].
  - now apply wf_addClient.
  - destruct (removeClient_returns s k) as (b & s' & Heq & Hst).
    rewrite (exec_eq _ _ _ _ Heq). eapply wf_steps_on; eassumption.
  - destruct (sendToClient_returns s k event) as (b & s' & Heq & Hst).
    rewrite (exec_eq _ _ _ _ Heq). eapply wf_steps_on; eassumption.
  - destruct (sendToUser_returns u event s) as (b & s' & Heq & Hst).
    rewrite (exec_eq _ _ _ _ Heq). eapply wf_steps_on; eassumption.
  - destruct (broadcast_returns event ex s) as (b & s' & Heq & Hst).
    rewrite (exec_eq _ _ _ _ Heq). eapply wf_steps_on; eassumption.
  - destruct (getStats_returns [] s) as (b & s' & Heq & Hst).
    rewrite (exec_eq _ _ _ _ Heq). eapply wf_steps_on; eassumption.
  - destruct (cleanup_returns s)
      as (s' & Heq & _ & Hf & _ & _ & _ & _ & Hempty).
    rewrite (exec_eq _ _ _ _ Heq). destruct Hwf as [Hnd Hdown].
    split; rewrite (Hempty Hnd); [apply NoDup_nil; exact I|reflexivity].
  - destruct (shutdown_returns s) as (s' & Heq & _ & _ & _ & Hempty).
    rewrite (exec_eq _ _ _ _ Heq). destruct Hwf as [Hnd Hdown].
    split; rewrite (Hempty Hnd); [apply NoDup_nil; exact I|reflexivity].
  - unfold fire_timeout. destruct (nth_error (timeouts s) n) as [k|]; [|exact Hwf].
    match goal with
    | |- wf (exec _ ?s0) =>
        destruct (connected_callback_returns k s0) as (s' & Heq & Hst);
        rewrite (exec_eq _ _ _ _ Heq); eapply wf_steps_on; [|exact Hst]
    end.
    exact Hwf.
  - unfold fire_interval. destruct (intervals s); [exact Hwf|].
    destruct (heartbeat_callback_returns s) as (ks & s' & Heq & Hst).
    rewrite (exec_eq _ _ _ _ Heq). eapply wf_steps_on; eassumption.
  - exact Hwf.
Qed.

(** Every state a service reaches satisfies the invariant. *)
Lemma wf_run (ops : list (Op W)) s : wf s -> wf (run ops s).
Proof.
  revert s. induction ops as [|op ops IH]; intros s Hwf; [exact Hwf|].
  cbn. apply IH. now apply wf_step.
Qed.

(** No step clears the shutdown flag. *)
Lemma shutting_down_step (op : Op W) s :
  SSEService.isShuttingDown (this s) = true ->
  SSEService.isShuttingDown (this (step op s)) = true.
Proof.
  intros Hflag.
  assert (forall ks s', steps_on ks s s' ->
                        SSEService.isShuttingDown (this s') = true) as Hkeep.
  { intros ks s' Hst. pose proof (steps_on_setup _ _ _ Hst) as (_ & Hf & _).
    congruence. }
  destruct op as [controller userId|k|k event|u event|event ex| | |
                  |n| |f]; cbn [step].
  - unfold exec. now rewrite addClient_shutting_down.
  - destruct (removeClient_returns s k) as (b & s' & Heq & Hst).
    rewrite (exec_eq _ _ _ _ Heq). eapply Hkeep, Hst.
  - destruct (sendToClient_returns s k event) as (b & s' & Heq & Hst).
    rewrite (exec_eq _ _ _ _ Heq). eapply Hkeep, Hst.
  - destruct (sendToUser_returns u event s) as (b & s' & Heq & Hst).
    rewrite (exec_eq _ _ _ _ Heq). eapply Hkeep, Hst.
  - destruct (broadcast_returns event ex s) as (b & s' & Heq & Hst).
    rewrite (exec_eq _ _ _ _ Heq). eapply Hkeep, Hst.
  - destruct (getStats_returns [] s) as (b & s' & Heq & Hst).
    rewrite (exec_eq _ _ _ _ Heq). eapply Hkeep, Hst.
  - destruct (cleanup_returns s) as (s' & Heq & _ & Hf & _).
    rewrite (exec_eq _ _ _ _ Heq). congruence.
  - destruct (shutdown_returns s) as (s' & Heq & Hf & _).
    now rewrite (exec_eq _ _ _ _ Heq).
  - unfold fire_timeout. destruct (nth_error (timeouts s) n) as [k|]; [|exact Hflag].
    match goal with
    | |- context [exec _ ?s0] =>
        destruct (connected_callback_returns k s0) as (s' & Heq & Hst);
        rewrite (exec_eq _ _ _ _ Heq)
    end.
    pose proof (steps_on_setup _ _ _ Hst) as (_ & Hf & _). rewrite Hf.
    exact Hflag.
  - unfold fire_interval. destruct (intervals s); [exact Hflag|].
    destruct (heartbeat_callback_returns s) as (ks & s' & Heq & Hst).
    rewrite (exec_eq _ _ _ _ Heq). eapply Hkeep, Hst.
  - exact Hflag.
Qed.

Lemma shutting_down_run (ops : list (Op W)) s :
  SSEService.isShuttingDown (this s) = true ->
  SSEService.isShuttingDown (this (run ops s)) = true.
Proof.
  revert s. induction ops as [|op ops IH]; intros s Hflag; [exact Hflag|].
  cbn. apply IH. now apply shutting_down_step.
Qed.
End Lifecycle.

(** ** Shutdown *)

Section Shutdown.
Context {W : Type} `{Host W}.
Implicit Types (s : State W) (k clientId : string) (c client : SSEClient.t).

(** A send to a registered client starts by reading [desiredSize]. *)
Lemma sendToClient_attempt s k c event :
  Map_get k (clients_of s) = Some c ->
  exists v rest,
    trace (exec (sendToClient k event) s)
    = trace s ++ mkCall k (SSEClient.response c) (GetDesiredSize v) :: rest.
Proof.
  intros Hget. unfold exec.
  destruct (desiredSize (SSEClient.response c) (world s)) as [z|] eqn:Hsize.
  - destruct (enqueue (SSEClient.response c) (formatSSEMessage event) (world s))
      as [[[]|e] w] eqn:Henq.
    + rewrite (sendToClient_written _ _ _ _ _ _ Hget Hsize Henq). cbn. eauto.
    + rewrite (sendToClient_throws _ _ _ _ _ _ _ Hget Hsize Henq). cbn. eauto.
  - rewrite (sendToClient_closed _ _ _ _ Hget Hsize). cbn. eauto.
Qed.

Lemma enqueues_only_app P (l1 l2 : list Call) :
  enqueues_only P l1 -> enqueues_only P l2 -> enqueues_only P (l1 ++ l2).
Proof.
  intros H1 H2 call chunk r Hin Hop. apply elem_of_app in Hin as [Hin|Hin];
    eauto.
Qed.

Lemma enqueues_only_nil P : enqueues_only P [].
Proof. intros call chunk r Hin. now apply elem_of_nil in Hin. Qed.

(** What [sendToClient] writes is the encoding of its event. *)
Lemma sendToClient_enqueues s k event sent s' calls :
  sendToClient k event s = (Ok sent, s') ->
  trace s' = trace s ++ calls ->
  enqueues_only (fun chunk => chunk = formatSSEMessage event) calls.
Proof.
  intros Heq Htr call chunk r Hin Hop.
  destruct (Map_get k (clients_of s)) as [c|] eqn:Hget.
  2:{ rewrite (sendToClient_absent _ _ _ Hget) in Heq. injection Heq as _ <-.
      rewrite <- (app_nil_r (trace s)) in Htr at 1.
      apply app_inv_head in Htr as <-. now apply elem_of_nil in Hin. }
  destruct (desiredSize (SSEClient.response c) (world s)) as [z|] eqn:Hsize.
  - destruct (enqueue (SSEClient.response c) (formatSSEMessage event) (world s))
      as [[[]|e] w] eqn:Henq.
    + rewrite (sendToClient_written _ _ _ _ _ _ Hget Hsize Henq) in Heq.
      injection Heq as _ <-. proj_simpl. apply app_inv_head in Htr as <-.
      repeat (apply elem_of_cons in Hin as [->|Hin]; [cbn in Hop; congruence|]).
      now apply elem_of_nil in Hin.
    + rewrite (sendToClient_throws _ _ _ _ _ _ _ Hget Hsize Henq) in Heq.
      injection Heq as _ <-. proj_simpl. apply app_inv_head in Htr as <-.
      repeat (apply elem_of_cons in Hin as [->|Hin]; [cbn in Hop; congruence|]).
      now apply elem_of_nil in Hin.
  - rewrite (sendToClient_closed _ _ _ _ Hget Hsize) in Heq.
    injection Heq as _ <-. proj_simpl. apply app_inv_head in Htr as <-.
    repeat (apply elem_of_cons in Hin as [->|Hin]; [cbn in Hop; congruence|]).
    now apply elem_of_nil in Hin.
Qed.

(** [removeClient] writes nothing. *)
Lemma removeClient_enqueues P s k found s' calls :
  removeClient k s = (Ok found, s') ->
  trace s' = trace s ++ calls ->
  enqueues_only P calls.
Proof.
  intros Heq Htr call chunk r Hin Hop.
  destruct (Map_get k (clients_of s)) as [c|] eqn:Hget.
  - rewrite (removeClient_present _ _ _ Hget) in Heq. injection Heq as _ <-.
    proj_simpl. apply app_inv_head in Htr as <-.
    apply list_elem_of_singleton in Hin as ->. discriminate.
  - rewrite (removeClient_absent _ _ Hget) in Heq. injection Heq as _ <-.
    rewrite <- (app_nil_r (trace s)) in Htr at 1.
    apply app_inv_head in Htr as <-. now apply elem_of_nil in Hin.
Qed.

Lemma cleanup_visit_attempt k s :
  exists s' calls,
    cleanup_visit k s = (Ok tt, s') /\ steps_on [k] s s'
    /\ trace s' = trace s ++ calls
    /\ announces_shutdown calls
    /\ (forall c, Map_get k (clients_of s) = Some c ->
                  exists v, mkCall k (SSEClient.response c) (GetDesiredSize v)
                            ∈ calls).
Proof.
  unfold cleanup_visit.
  destruct (host_call_returns Date_now [k] s)
    as (s1 & Heq1 & _ & Hthis1 & Htr1 & Hst1).
  destruct (sendToClient_returns s1 k
              (shutdown_event (fst (Date_now (world s)))))
    as (sent & s2 & Heq2 & Hst2).
  destruct (removeClient_returns s2 k) as (found & s3 & Heq3 & Hst3).
  destruct (steps_on_trace _ _ _ Hst2) as (d2 & Hd2).
  destruct (steps_on_trace _ _ _ Hst3) as (d3 & Hd3).
  exists s3, (d2 ++ d3). split; [|split; [|split; [|split]]].
  - unfold bind at 1, try_catch. step_bind Heq1.
    fold (shutdown_event (Date_now (world s)).1).
    step_bind Heq2. unfold ret at 1. step_bind Heq3. reflexivity.
  - eapply steps_on_trans; [|exact Hst3]. eapply steps_on_trans; eassumption.
  - rewrite Hd3, Hd2, Htr1. now rewrite app_assoc.
  - apply enqueues_only_app.
    + intros call chunk r Hin Hop. exists (fst (Date_now (world s))).
      eapply (sendToClient_enqueues _ _ _ _ _ _ Heq2 Hd2); eassumption.
    + eapply removeClient_enqueues; eassumption.
  - intros c Hget.
    assert (Map_get k (clients_of s1) = Some c) as Hget1.
    { unfold clients_of. now rewrite Hthis1. }
    destruct (sendToClient_attempt s1 k c
                (shutdown_event (fst (Date_now (world s)))) Hget1)
      as (v & rest & Htr).
    rewrite (exec_eq _ _ _ _ Heq2), Hd2 in Htr.
    apply app_inv_head in Htr. exists v. rewrite Htr.
    apply elem_of_app. left. apply elem_of_cons. now left.
Qed.

Lemma forEach_cleanup_attempts ks s :
  NoDup ks ->
  exists s' calls,
    Array_forEach ks cleanup_visit s = (Ok tt, s')
    /\ trace s' = trace s ++ calls
    /\ announces_shutdown calls
    /\ (forall k c, k ∈ ks -> Map_get k (clients_of s) = Some c ->
                    exists v, mkCall k (SSEClient.response c) (GetDesiredSize v)
                              ∈ calls).
Proof.
  revert s. induction ks as [|k ks IH]; intros s Hnd.
  - exists s, []. split; [reflexivity|]. split; [now rewrite app_nil_r|].
    split; [apply enqueues_only_nil|].
    intros k c Hk. now apply elem_of_nil in Hk.
  - apply NoDup_cons in Hnd as [Hk Hnd]. cbn [Array_forEach].
    destruct (cleanup_visit_attempt k s)
      as (s1 & d1 & Heq1 & Hst1 & Hd1 & Hann1 & Hgds).
    step_bind Heq1.
    destruct (IH s1 Hnd) as (s2 & d2 & Heq2 & Hd2 & Hann2 & Hrest).
    exists s2, (d1 ++ d2). split; [exact Heq2|].
    split; [rewrite Hd2, Hd1; now rewrite app_assoc|].
    split; [now apply enqueues_only_app|].
    intros x c Hx Hget. apply elem_of_cons in Hx as [->|Hx].
    + destruct (Hgds c Hget) as (v & Hin). exists v. apply elem_of_app. auto.
    + assert (x ∉ [k]) as Hne.
      { intros Heq. apply list_elem_of_singleton in Heq as ->. contradiction. }
      rewrite <- (steps_on_get _ _ _ _ Hst1 Hne) in Hget.
      destruct (Hrest x c Hx Hget) as (v & Hin). exists v.
      apply elem_of_app. auto.
Qed.

Lemma cleanup_attempts s :
  NoDup (Map_keys (clients_of s)) ->
  announces_shutdown (new_calls cleanup s)
  /\ forall k c, Map_get k (clients_of s) = Some c ->
       exists v, mkCall k (SSEClient.response c) (GetDesiredSize v)
                 ∈ new_calls cleanup s.
Proof.
  intros Hnd.
  destruct (stop_heartbeat_returns s) as (s0 & Heq0 & Hc0 & Ht0 & _).
  rewrite <- Hc0 in Hnd.
  destruct (forEach_cleanup_attempts (Map_keys (clients_of s0)) s0 Hnd)
    as (s1 & d & Heq1 & Hd & Hann & Hall).
  assert (new_calls cleanup s = d) as ->.
  { apply new_calls_app. unfold exec, cleanup. step_bind Heq0.
    unfold bind at 1, get_this at 1. cbn [this]. fold (clients_of s0).
    rewrite Heq1. cbn [snd]. now rewrite Hd, Ht0. }
  split; [exact Hann|]. intros k c Hget. rewrite <- Hc0 in Hget.
  apply (Hall k c); [|exact Hget]. eapply Map_get_Some_In, Hget.
Qed.
End Shutdown.

(** C6, as the code has it. The shutdown handler sets [isShuttingDown] and
    runs [cleanup]. It returns normally; a send is attempted on behalf of
    every registered connection, and whatever is written is a
    [server-shutdown] event; the Map is left empty and the heartbeat timer
    is cleared; and from then on, whatever happens to the service, every
    [addClient] fails with "Service is shutting down" and changes
    nothing. *)
Theorem shutdown_then_addClient {W : Type} `{Host W} (s : State W)
    (ops : list (Op W)) (controller : Controller) (userId : option string) :
  NoDup (Map_keys (clients_of s)) ->
  let s1 := exec shutdown s in
  shutdown s = (Ok tt, s1)
  /\ (forall k c, Map_get k (clients_of s) = Some c ->
        exists v, mkCall k (SSEClient.response c) (GetDesiredSize v)
                  ∈ new_calls shutdown s)
  /\ enqueues_only
       (fun chunk => exists timestamp,
                       chunk = formatSSEMessage (shutdown_event timestamp))
       (new_calls shutdown s)
  /\ clients_of s1 = []
  /\ SSEService.heartbeatInterval (this s1) = None
  /\ (forall t, SSEService.heartbeatInterval (this s) = Some t ->
                t ∉ intervals s1)
  /\ addClient controller userId (run ops s1)
     = (Throw Unavailable, run ops s1).
Proof.
  intros Hnd s1. subst s1.
  destruct (shutdown_returns s) as (s1 & Heq & Hflag & Hhb & _ & Hempty).
  rewrite (exec_eq _ _ _ _ Heq). split; [exact Heq|].
  pose (s0 := mkState (SSEService.with_isShuttingDown true (this s))
                      (world s) (trace s) (timeouts s) (intervals s)).
  destruct (cleanup_attempts s0 Hnd) as [Hann Hgds].
  split; [exact Hgds|]. split; [exact Hann|].
  split; [now apply Hempty|split; [exact Hhb|split]].
  - intros t Ht.
    destruct (cleanup_returns s0) as (s' & Heq' & _ & _ & _ & Hint & _).
    assert (s' = s1) as <-.
    { unfold shutdown, bind, modify_this in Heq. fold s0 in Heq. congruence. }
    apply Hint. exact Ht.
  - apply addClient_shutting_down. now apply shutting_down_run.
Qed.

Lemma shutdown_then_addClient_witness :
  addClient 9%nat None
    (run [CallAddClient 9%nat None; IntervalFires]
         (exec shutdown three_clients))
  = (Throw Unavailable,
     run [CallAddClient 9%nat None; IntervalFires]
         (exec shutdown three_clients)).
Proof.
  apply (shutdown_then_addClient three_clients
           [CallAddClient 9%nat None; IntervalFires] 9%nat None).
  apply (bool_decide_unpack _). vm_compute. exact I.
Defined.

(** C6 as it is worded fails: [cleanup] itself does not set the flag, so
    after it [addClient] registers a client again. *)
Lemma cleanup_then_addClient_counterexample :
  ~ (forall (s : State Sim.World) controller userId,
       exists e,
         result (addClient controller userId) (exec cleanup s) = Throw e).
Proof.
  intros Hclaim. destruct (Hclaim one_client 9%nat None) as (e & He).
  vm_compute in He. discriminate.
Qed.

(** ** The ids of the registry *)

Section Ids.
Context {W : Type} `{Host W}.
Implicit Types (s : State W) (k clientId : string) (live : gset string).

Lemma keys_set_to_set (m : list (string * SSEClient.t)) k c :
  list_to_set (Map_keys (Map_set k c m)) =@{gset string}
  {[k]} ∪ list_to_set (Map_keys m).
Proof.
  apply set_eq. intros x.
  rewrite elem_of_union, elem_of_singleton, !elem_of_list_to_set.
  apply Map_keys_set_In.
Qed.

Lemma keys_delete_to_set (m : list (string * SSEClient.t)) k :
  NoDup (Map_keys m) ->
  list_to_set (Map_keys (Map_delete k m)) =@{gset string}
  list_to_set (Map_keys m) ∖ {[k]}.
Proof.
  intros Hnd. apply set_eq. intros x.
  rewrite elem_of_difference, elem_of_singleton, !elem_of_list_to_set.
  now apply Map_keys_delete_iff.
Qed.

Lemma run_registry_ids (calls : list RegistryCall) s live :
  NoDup (Map_keys (clients_of s)) ->
  list_to_set (Map_keys (clients_of s)) = live ->
  NoDup (Map_keys (clients_of (run_registry calls s live).1))
  /\ list_to_set (Map_keys (clients_of (run_registry calls s live).1))
     = (run_registry calls s live).2.
Proof.
  revert s live. induction calls as [|[controller userId|k] calls IH];
    intros s live Hnd Hlive; cbn [run_registry].
  - split; assumption.
  - destruct (addClient_cases s controller userId)
      as [[-> _]|[[-> _]|(id & c & w & -> & _)]].
    + now apply IH.
    + now apply IH.
    + apply IH; unfold clients_of in *; proj_simpl.
      * now apply Map_set_NoDup.
      * rewrite keys_set_to_set. now rewrite Hlive.
  - unfold exec. destruct (Map_get k (clients_of s)) as [c|] eqn:Hget.
    + rewrite (removeClient_present _ _ _ Hget). cbn [snd].
      apply IH; unfold clients_of in *; proj_simpl.
      * now apply Map_delete_NoDup.
      * rewrite keys_delete_to_set by assumption. now rewrite Hlive.
    + rewrite (removeClient_absent _ _ Hget). cbn [snd]. apply IH; [exact Hnd|].
      rewrite Hlive. apply Map_get_None in Hget.
      apply set_eq. intros x. rewrite elem_of_difference, elem_of_singleton.
      split; [|tauto]. intros Hx. split; [exact Hx|]. intros ->.
      apply Hget. rewrite <- Hlive in Hx. now apply elem_of_list_to_set in Hx.
Qed.
End Ids.

(** C7. After every finite sequence of [addClient] and [removeClient] calls
    on a new service, [getActiveClients] returns a list without duplicates
    whose set of elements is exactly the set of ids that [addClient]
    returned and [removeClient] was not called on since. As this holds
    after every sequence, it holds at every moment of a run. *)
Theorem getActiveClients_exact {W : Type} `{Host W}
    (calls : list RegistryCall) (config : option SSEServiceConfig.t) (w : W) :
  let r := run_registry calls (new_SSEService config w) ∅ in
  exists ids,
    getActiveClients r.1 = (Ok ids, r.1)
    /\ NoDup ids
    /\ list_to_set ids = r.2.
Proof.
  intros r. exists (Map_keys (clients_of r.1)).
  split; [apply getActiveClients_eq|]. subst r. apply run_registry_ids.
  - apply NoDup_nil. exact I.
  - reflexivity.
Qed.

(** ** Delivery to the clients of a user *)

Section ToUser.
Context {W : Type} `{Host W}.
Implicit Types (s : State W) (k clientId : string) (c client : SSEClient.t).

Lemma userId_is_true userId c :
  userId_is userId c = true <-> SSEClient.userId c = Some userId.
Proof.
  unfold userId_is. destruct (SSEClient.userId c) as [u|].
  - rewrite String.eqb_eq. split; congruence.
  - split; discriminate.
Qed.

(** The loop of [getClientsByUser] collects the targets, in order. *)
Lemma getClientsByUser_loop userId ks acc s :
  for_of_entries ks acc (getClientsByUser_visit userId) s
  = (Ok (acc ++ List.filter (is_target userId s) ks), s).
Proof.
  revert acc. induction ks as [|k ks IH]; intros acc.
  - cbn. now rewrite app_nil_r.
  - cbn [for_of_entries List.filter]. unfold bind at 1, get_this at 1.
    cbn [this]. fold (clients_of s). unfold is_target at 1.
    destruct (Map_get k (clients_of s)) as [c|]; [|apply IH].
    unfold getClientsByUser_visit at 1. destruct (userId_is userId c).
    + unfold bind, ret. rewrite IH. now rewrite <- app_assoc.
    + unfold bind, ret. apply IH.
Qed.

Lemma getClientsByUser_eq userId s :
  getClientsByUser userId s
  = (Ok (List.filter (is_target userId s) (Map_keys (clients_of s))), s).
Proof.
  unfold getClientsByUser, for_of_clients. unfold bind, get_this. cbn [this].
  fold (clients_of s). now rewrite getClientsByUser_loop.
Qed.

Lemma is_target_iff userId s k :
  k ∈ List.filter (is_target userId s) (Map_keys (clients_of s))
  <-> exists c, Map_get k (clients_of s) = Some c
                /\ SSEClient.userId c = Some userId.
Proof.
  rewrite list_elem_of_In, filter_In, <- list_elem_of_In. unfold is_target.
  split.
  - intros [_ Ht]. destruct (Map_get k (clients_of s)) as [c|]; [|discriminate].
    exists c. split; [reflexivity|]. now apply userId_is_true.
  - intros (c & Hget & Hu). split; [eapply Map_get_Some_In, Hget|].
    rewrite Hget. now apply userId_is_true.
Qed.

(** One send: its result, its calls. *)
Lemma sendToClient_calls s k event :
  exists sent s' calls,
    sendToClient k event s = (Ok sent, s') /\ steps_on [k] s s'
    /\ trace s' = trace s ++ calls
    /\ length (List.filter is_written calls) = (if sent then 1 else 0)%nat
    /\ (forall c, Map_get k (clients_of s) = Some c ->
                  exists v, mkCall k (SSEClient.response c) (GetDesiredSize v)
                            ∈ calls).
Proof.
  destruct (sendToClient_returns s k event) as (sent & s' & Heq & Hst).
  exists sent, s'. destruct (Map_get k (clients_of s)) as [c|] eqn:Hget.
  2:{ exists []. split; [exact Heq|]. split; [exact Hst|].
      rewrite (sendToClient_absent _ _ _ Hget) in Heq.
      injection Heq as <- <-. rewrite app_nil_r.
      do 2 (split; [reflexivity|]). intros ? [=]. }
  assert (forall v l, exists v',
            mkCall k (SSEClient.response c) (GetDesiredSize v')
            ∈ mkCall k (SSEClient.response c) (GetDesiredSize v) :: l) as Hin.
  { intros v l. exists v. apply elem_of_cons. now left. }
  destruct (desiredSize (SSEClient.response c) (world s)) as [z|] eqn:Hsize.
  - destruct (enqueue (SSEClient.response c) (formatSSEMessage event) (world s))
      as [[[]|e] w] eqn:Henq.
    + eexists. split; [exact Heq|]. split; [exact Hst|].
      rewrite (sendToClient_written _ _ _ _ _ _ Hget Hsize Henq) in Heq.
      injection Heq as <- <-. proj_simpl.
      do 2 (split; [reflexivity|]). intros c' [= <-]. apply Hin.
    + eexists. split; [exact Heq|]. split; [exact Hst|].
      rewrite (sendToClient_throws _ _ _ _ _ _ _ Hget Hsize Henq) in Heq.
      injection Heq as <- <-. proj_simpl.
      do 2 (split; [reflexivity|]). intros c' [= <-]. apply Hin.
  - eexists. split; [exact Heq|]. split; [exact Hst|].
    rewrite (sendToClient_closed _ _ _ _ Hget Hsize) in Heq.
    injection Heq as <- <-. proj_simpl.
    do 2 (split; [reflexivity|]). intros c' [= <-]. apply Hin.
Qed.

Lemma count_true_cons sent bs :
  count_true (sent :: bs) = (if sent then 1 else 0) + count_true bs.
Proof. unfold count_true. destruct sent; cbn [List.filter length]; lia. Qed.

(** Sends to distinct ids, one after the other. *)
Lemma sendTo_each_calls ids event s :
  NoDup ids ->
  exists sent s' calls,
    sendTo_each ids event s = (Ok sent, s') /\ steps_on ids s s'
    /\ trace s' = trace s ++ calls
    /\ count_true sent = Z.of_nat (length (List.filter is_written calls))
    /\ (forall k c, k ∈ ids -> Map_get k (clients_of s) = Some c ->
                    exists v, mkCall k (SSEClient.response c) (GetDesiredSize v)
                              ∈ calls).
Proof.
  revert s. induction ids as [|k ids IH]; intros s Hnd.
  - exists [], s, []. rewrite app_nil_r. split; [reflexivity|].
    split; [apply steps_on_refl|]. do 2 (split; [reflexivity|]).
    intros k c Hk. now apply elem_of_nil in Hk.
  - apply NoDup_cons in Hnd as [Hk Hnd]. cbn [sendTo_each].
    destruct (sendToClient_calls s k event)
      as (b & s1 & d1 & Heq1 & Hst1 & Hd1 & Hn1 & Hgds1).
    step_bind Heq1.
    destruct (IH s1 Hnd) as (bs & s2 & d2 & Heq2 & Hst2 & Hd2 & Hn2 & Hgds2).
    step_bind Heq2. exists (b :: bs), s2, (d1 ++ d2).
    split; [reflexivity|]. split; [eapply steps_on_cons; eassumption|].
    split; [rewrite Hd2, Hd1; now rewrite app_assoc|]. split.
    + rewrite count_true_cons, Hn2, List.filter_app, length_app, Hn1.
      destruct b; lia.
    + intros x c Hx Hget. apply elem_of_cons in Hx as [->|Hx].
      * destruct (Hgds1 c Hget) as (v & Hin). exists v. apply elem_of_app. auto.
      * assert (x ∉ [k]) as Hne.
        { intros Heq. apply list_elem_of_singleton in Heq as ->. contradiction. }
        rewrite <- (steps_on_get _ _ _ _ Hst1 Hne) in Hget.
        destruct (Hgds2 x c Hx Hget) as (v & Hin). exists v.
        apply elem_of_app. auto.
Qed.

(** The live loop of [sendToUser] sends to the targets resolved when it
    starts: a send touches its own client alone, so it neither removes a
    later target nor makes one. *)
Lemma sendToUser_loop userId event ks acc s :
  NoDup ks ->
  for_of_entries ks acc (sendToUser_visit userId event) s
  = bind (sendTo_each (List.filter (is_target userId s) ks) event)
         (fun sent => ret (acc + count_true sent)) s.
Proof.
  revert acc s. induction ks as [|k ks IH]; intros acc s Hnd.
  - cbn. unfold bind, ret. cbn. f_equal. f_equal. unfold count_true. cbn. lia.
  - apply NoDup_cons in Hnd as [Hk Hnd].
    cbn [for_of_entries List.filter]. unfold bind at 1, get_this at 1.
    cbn [this]. fold (clients_of s). unfold is_target at 1.
    destruct (Map_get k (clients_of s)) as [c|]; [|now apply IH].
    unfold sendToUser_visit at 1. destruct (userId_is userId c).
    2:{ unfold bind at 1, ret at 1. now apply IH. }
    destruct (sendToClient_returns s k event) as (sent & s1 & Heq & Hst).
    cbn [sendTo_each].
    assert (List.filter (is_target userId s) ks
            = List.filter (is_target userId s1) ks) as ->.
    { apply filter_ext_in. intros x Hx. unfold is_target.
      rewrite (steps_on_get _ _ _ _ Hst); [reflexivity|].
      intros Hin. apply list_elem_of_singleton in Hin as ->.
      now apply list_elem_of_In in Hx. }
    rewrite !bind_assoc. step_bind Heq. step_bind Heq.
    specialize (IH (if sent then acc + 1 else acc) s1 Hnd).
    destruct sent; unfold bind at 1, ret at 1; rewrite IH; unfold bind, ret;
      destruct (sendTo_each _ event s1) as [[bs|e] s2]; try reflexivity;
      rewrite count_true_cons; do 2 f_equal; lia.
Qed.

Lemma sendToUser_eq_resolved userId event s :
  NoDup (Map_keys (clients_of s)) ->
  sendToUser userId event s = sendToUser_resolved userId event s.
Proof.
  intros Hnd. unfold sendToUser_resolved.
  rewrite (bind_eq _ _ _ _ _ (getClientsByUser_eq userId s)).
  unfold sendToUser, for_of_clients.
  unfold bind at 1, get_this at 1. cbn [this]. fold (clients_of s).
  rewrite (sendToUser_loop _ _ _ _ _ Hnd).
  unfold bind. destruct (sendTo_each _ event s) as [[bs|e] s2]; reflexivity.
Qed.
End ToUser.

(** C8. [getClientsByUser] returns exactly the ids of the connections whose
    [userId] is the argument. [sendToUser] does what "resolve these ids,
    then call [sendToClient] on each and count the successes" does: calls
    are made on behalf of exactly these connections, none on behalf of an
    anonymous one, and the number returned is the number of writes that
    succeeded. *)
Theorem sendToUser_targets_exactly {W : Type} `{Host W} (s : State W)
    (userId : string) (event : SSEEvent.t) :
  NoDup (Map_keys (clients_of s)) ->
  exists ids,
    getClientsByUser userId s = (Ok ids, s)
    /\ (forall k, k ∈ ids <->
                  exists c, Map_get k (clients_of s) = Some c
                            /\ SSEClient.userId c = Some userId)
    /\ sendToUser userId event s = sendToUser_resolved userId event s
    /\ (forall k,
          (exists call, call ∈ new_calls (sendToUser userId event) s
                        /\ call_client call = k) <-> k ∈ ids)
    /\ (forall k c call,
          Map_get k (clients_of s) = Some c -> SSEClient.userId c = None ->
          call ∈ new_calls (sendToUser userId event) s ->
          call_client call <> k)
    /\ result (sendToUser userId event) s
       = Ok (Z.of_nat (length (List.filter is_written
                                 (new_calls (sendToUser userId event) s)))).
Proof.
  intros Hnd.
  set (ids := List.filter (is_target userId s) (Map_keys (clients_of s))).
  assert (NoDup ids) as Hids.
  { apply NoDup_ListNoDup, List.NoDup_filter, NoDup_ListNoDup, Hnd. }
  destruct (sendTo_each_calls ids event s Hids)
    as (sent & s' & calls & Heq & Hst & Htr & Hcount & Hgds).
  assert (sendToUser userId event s = (Ok (count_true sent), s')) as Hsend.
  { rewrite (sendToUser_eq_resolved _ _ _ Hnd). unfold sendToUser_resolved.
    rewrite (bind_eq _ _ _ _ _ (getClientsByUser_eq userId s)).
    fold ids. step_bind Heq. reflexivity. }
  assert (new_calls (sendToUser userId event) s = calls) as Hnew.
  { apply new_calls_app. now rewrite (exec_eq _ _ _ _ Hsend). }
  assert (forall call, call ∈ calls -> call_client call ∈ ids) as Htag.
  { destruct Hst as (_ & _ & _ & _ & d & Hd & Htag). rewrite Htr in Hd.
    apply app_inv_head in Hd as <-. exact Htag. }
  exists ids. split; [apply getClientsByUser_eq|].
  split; [intros k; apply is_target_iff|].
  split; [now apply sendToUser_eq_resolved|]. rewrite Hnew.
  split; [|split].
  - intros k. split.
    + intros (call & Hin & <-). now apply Htag.
    + intros Hk. pose proof Hk as Hk'. apply is_target_iff in Hk' as (c & Hget & _).
      destruct (Hgds k c Hk Hget) as (v & Hin). eauto.
  - intros k c call Hget Hanon Hin <-. apply Htag in Hin.
    apply is_target_iff in Hin as (c' & Hget' & Hu). congruence.
  - unfold result. rewrite Hsend. cbn [fst]. now rewrite Hcount.
Qed.

Lemma sendToUser_targets_exactly_witness :
  exists ids,
    getClientsByUser "u1" three_clients = (Ok ids, three_clients)
    /\ (forall k, k ∈ ids <->
                  exists c, Map_get k (clients_of three_clients) = Some c
                            /\ SSEClient.userId c = Some "u1")
    /\ sendToUser "u1" update_42 three_clients
       = sendToUser_resolved "u1" update_42 three_clients
    /\ (forall k,
          (exists call, call ∈ new_calls (sendToUser "u1" update_42) three_clients
                        /\ call_client call = k) <-> k ∈ ids)
    /\ (forall k c call,
          Map_get k (clients_of three_clients) = Some c ->
          SSEClient.userId c = None ->
          call ∈ new_calls (sendToUser "u1" update_42) three_clients ->
          call_client call <> k)
    /\ result (sendToUser "u1" update_42) three_clients
       = Ok (Z.of_nat (length (List.filter is_written
                                 (new_calls (sendToUser "u1" update_42)
                                            three_clients)))).
Proof.
  apply (sendToUser_targets_exactly three_clients "u1" update_42).
  apply (bool_decide_unpack _). vm_compute. exact I.
Defined.

(** ** The empty user id *)

Section EmptyUserId.
Context {W : Type} `{Host W}.
Implicit Types (s : State W) (k clientId : string) (c client : SSEClient.t).

Lemma getStats_counts s :
  exists stats,
    result getStats s = Ok stats
    /\ SSEServiceStats.authenticatedClients stats
       = Z.of_nat (length (List.filter has_userId (Map_values (clients_of s))))
    /\ SSEServiceStats.anonymousClients stats
       = Z.of_nat (length (List.filter (fun c => negb (has_userId c))
                                      (Map_values (clients_of s)))).
Proof.
  unfold getStats. unfold_monad. destruct (Date_now (world s)) as [now w].
  cbn. eexists. split; [reflexivity|]. cbn. split; reflexivity.
Qed.

(** Taking an entry out of the Map takes its client out of a count. *)
Lemma count_delete (f : SSEClient.t -> bool) (m : list (string * SSEClient.t))
    k c :
  Map_get k m = Some c ->
  length (List.filter f (Map_values m))
  = ((if f c then 1 else 0)
     + length (List.filter f (Map_values (Map_delete k m))))%nat.
Proof.
  unfold Map_values. induction m as [|[k' c'] m IH]; [discriminate|].
  cbn [Map_get Map_delete]. destruct (String.eqb_spec k' k) as [->|Hne].
  - intros [= ->]. cbn. destruct (f c); reflexivity.
  - intros Hget. specialize (IH Hget). cbn in *.
    destruct (f c'), (f c); cbn in *; lia.
Qed.

Lemma count_le (f g : SSEClient.t -> bool) (l : list SSEClient.t) :
  (forall c, f c = true -> g c = true) ->
  (length (List.filter f l) <= length (List.filter g l))%nat.
Proof.
  intros Himp. induction l as [|c l IH]; cbn; [lia|].
  destruct (f c) eqn:Hf.
  - rewrite (Himp c Hf). cbn. lia.
  - destruct (g c); cbn; lia.
Qed.
End EmptyUserId.

(** C10. A registered connection whose [userId] is the empty string is
    anonymous for [getStats]: with it in the registry [anonymousClients] is
    one more than without it, and [authenticatedClients] is the same. Yet
    [getClientsByUser("")] returns its id, among exactly the ids of the
    connections whose [userId] is the empty string, and [sendToUser("")]
    sends to it. So [authenticatedClients] is less than the number of
    connections that have a user id to be targeted by. *)
Theorem empty_userId_anonymous_yet_targeted {W : Type} `{Host W}
    (s : State W) (k : string) (c : SSEClient.t) (event : SSEEvent.t) :
  NoDup (Map_keys (clients_of s)) ->
  Map_get k (clients_of s) = Some c ->
  SSEClient.userId c = Some EmptyString ->
  exists stats without ids,
    result getStats s = Ok stats
    /\ result getStats (without_client k s) = Ok without
    /\ SSEServiceStats.anonymousClients stats
       = SSEServiceStats.anonymousClients without + 1
    /\ SSEServiceStats.authenticatedClients stats
       = SSEServiceStats.authenticatedClients without
    /\ getClientsByUser EmptyString s = (Ok ids, s)
    /\ k ∈ ids
    /\ (forall k', k' ∈ ids <->
                   exists c', Map_get k' (clients_of s) = Some c'
                              /\ SSEClient.userId c' = Some EmptyString)
    /\ (exists v, mkCall k (SSEClient.response c) (GetDesiredSize v)
                  ∈ new_calls (sendToUser EmptyString event) s)
    /\ SSEServiceStats.authenticatedClients stats
       < Z.of_nat (length (List.filter has_recorded_userId
                             (Map_values (clients_of s)))).
Proof.
  intros Hnd Hget Hempty.
  destruct (getStats_counts s) as (stats & Hstats & Hauth & Hanon).
  destruct (getStats_counts (without_client k s))
    as (without & Hwithout & Hauth' & Hanon').
  assert (has_userId c = false) as Hfalsy.
  { unfold has_userId. now rewrite Hempty. }
  assert (has_recorded_userId c = true) as Hrecorded.
  { unfold has_recorded_userId. now rewrite Hempty. }
  set (ids := List.filter (is_target EmptyString s) (Map_keys (clients_of s))).
  assert (k ∈ ids) as Hk.
  { apply is_target_iff. eauto. }
  exists stats, without, ids.
  split; [exact Hstats|]. split; [exact Hwithout|].
  unfold without_client, clients_of in Hauth', Hanon'. proj_simpl.
  fold (clients_of s) in Hauth', Hanon'.
  split; [|split; [|split; [|split; [|split; [|split]]]]].
  - rewrite Hanon, Hanon', (count_delete _ _ _ _ Hget), Hfalsy. cbn. lia.
  - rewrite Hauth, Hauth', (count_delete _ _ _ _ Hget), Hfalsy. cbn. lia.
  - apply getClientsByUser_eq.
  - exact Hk.
  - intros k'. apply is_target_iff.
  - assert (NoDup ids) as Hids.
    { apply NoDup_ListNoDup, List.NoDup_filter, NoDup_ListNoDup, Hnd. }
    destruct (sendTo_each_calls ids event s Hids)
      as (sent & s' & calls & Heq & _ & Htr & _ & Hgds).
    assert (sendToUser EmptyString event s = (Ok (count_true sent), s'))
      as Hsend.
    { rewrite (sendToUser_eq_resolved _ _ _ Hnd). unfold sendToUser_resolved.
      rewrite (bind_eq _ _ _ _ _ (getClientsByUser_eq EmptyString s)).
      fold ids. step_bind Heq. reflexivity. }
    erewrite new_calls_app by (rewrite (exec_eq _ _ _ _ Hsend); exact Htr).
    now apply Hgds.
  - rewrite Hauth, (count_delete has_userId _ _ _ Hget), Hfalsy.
    rewrite (count_delete has_recorded_userId _ _ _ Hget), Hrecorded.
    pose proof (count_le has_userId has_recorded_userId
                  (Map_values (Map_delete k (clients_of s)))) as Hle.
    cbn. apply Nat2Z.inj_lt. apply Nat.lt_succ_r. apply Hle.
    intros c'. unfold has_userId, has_recorded_userId.
    destruct (SSEClient.userId c'); [reflexivity|discriminate].
Qed.

Lemma empty_userId_anonymous_yet_targeted_witness :
  exists ids,
    getClientsByUser EmptyString three_clients = (Ok ids, three_clients)
    /\ "uuid-2" ∈ ids.
Proof.
  destruct (empty_userId_anonymous_yet_targeted three_clients "uuid-2"
              (SSEClient.mk "uuid-2" (Some EmptyString) 9%nat 1000 1000)
              update_42)
    as (stats & without & ids & _ & _ & _ & _ & Hids & Hk & _).
  - apply (bool_decide_unpack _). vm_compute. exact I.
  - reflexivity.
  - reflexivity.
  - exists ids. split; assumption.
Defined.

(** ** The heartbeat *)

Section Heartbeat.
Context {W : Type} `{Host W}.
Implicit Types (s : State W) (k clientId : string) (c client : SSEClient.t).

Lemma calls_of_app k (l1 l2 : list Call) :
  calls_of k (l1 ++ l2) = calls_of k l1 ++ calls_of k l2.
Proof. apply filter_app. Qed.

Lemma calls_of_own k (l : list Call) :
  (forall call, call ∈ l -> call_client call ∈ [k]) -> calls_of k l = l.
Proof.
  unfold calls_of. induction l as [|call l IH]; intros Htag; [reflexivity|].
  rewrite filter_cons_True.
  - f_equal. apply IH. intros x Hx. apply Htag, elem_of_cons. now right.
  - apply list_elem_of_singleton, Htag, elem_of_cons. now left.
Qed.

(** The calls of a step on [k], seen from [k]. *)
Lemma steps_on_own k s s' calls :
  steps_on [k] s s' -> trace s' = trace s ++ calls ->
  calls_of k (trace s') = calls_of k (trace s) ++ calls.
Proof.
  intros (_ & _ & _ & _ & d & Hd & Htag) Htr. rewrite Htr in Hd.
  apply app_inv_head in Hd as <-. rewrite Htr, calls_of_app.
  now rewrite (calls_of_own _ _ Htag).
Qed.

Lemma steps_on_nil_trace s s' : steps_on [] s s' -> trace s' = trace s.
Proof.
  intros (_ & _ & _ & _ & d & Hd & Htag). destruct d as [|call d].
  - now rewrite app_nil_r in Hd.
  - exfalso. eapply elem_of_nil, (Htag call), elem_of_cons. now left.
Qed.

(** One send to a registered client: the calls that try the write, and what
    becomes of the entry. *)
Lemma sendToClient_send_calls s k c event :
  NoDup (Map_keys (clients_of s)) ->
  Map_get k (clients_of s) = Some c ->
  exists sent s' calls,
    sendToClient k event s = (Ok sent, s')
    /\ trace s' = trace s ++ calls
    /\ send_calls k (SSEClient.response c) (formatSSEMessage event)
         (List.filter is_send calls) sent
    /\ (sent = false -> Map_get k (clients_of s') = None)
    /\ (sent = true -> is_Some (Map_get k (clients_of s'))).
Proof.
  intros Hnd Hget.
  destruct (desiredSize (SSEClient.response c) (world s)) as [z|] eqn:Hsize.
  - destruct (enqueue (SSEClient.response c) (formatSSEMessage event) (world s))
      as [[[]|e] w] eqn:Henq.
    + eexists _, _, _.
      split; [apply (sendToClient_written _ _ _ _ _ _ Hget Hsize Henq)|].
      proj_simpl. split; [reflexivity|]. split; [apply send_wrote|].
      split; [discriminate|]. intros _. unfold clients_of. proj_simpl.
      rewrite Map_get_set_eq. eauto.
    + eexists _, _, _.
      split; [apply (sendToClient_throws _ _ _ _ _ _ _ Hget Hsize Henq)|].
      proj_simpl. split; [reflexivity|]. split; [apply send_threw|].
      split; [|discriminate]. intros _. unfold clients_of. proj_simpl.
      now apply Map_get_delete_eq.
  - eexists _, _, _.
    split; [apply (sendToClient_closed _ _ _ _ Hget Hsize)|].
    proj_simpl. split; [reflexivity|]. split; [apply send_closed|].
    split; [|discriminate]. intros _. unfold clients_of. proj_simpl.
    now apply Map_get_delete_eq.
Qed.
(** The body of the loop of a tick, on a registered client. *)
Lemma heartbeat_visit_visited now timeout acc k c s :
  NoDup (Map_keys (clients_of s)) ->
  Map_get k (clients_of s) = Some c ->
  k ∉ acc ->
  exists acc' s',
    heartbeat_visit now timeout acc k c s = (Ok acc', s')
    /\ steps_on [k] s s'
    /\ (forall x, x ∈ acc' -> x ∈ acc \/ x = k)
    /\ (forall x, x ∈ acc -> x ∈ acc')
    /\ visited now timeout k c (calls_of k (trace s)) (calls_of k (trace s'))
         (Map_get k (clients_of s')) (k ∈ acc').
Proof.
  intros Hnd Hget Hfresh. unfold heartbeat_visit, visited.
  assert (forall x, x ∈ acc ++ [k] -> x ∈ acc \/ x = k) as Hsnoc.
  { intros x Hx. apply elem_of_app in Hx as [Hx|Hx]; [now left|right].
    now apply list_elem_of_singleton in Hx. }
  assert (forall x, x ∈ acc -> x ∈ acc ++ [k]) as Hkeep.
  { intros x Hx. apply elem_of_app. now left. }
  assert (k ∈ acc ++ [k]) as Hlisted.
  { apply elem_of_app. right. now apply list_elem_of_singleton. }
  destruct (now - SSEClient.lastPing c >? timeout).
  - exists (acc ++ [k]), s. split; [reflexivity|].
    split; [apply steps_on_refl|]. do 2 (split; [assumption|]).
    repeat split; assumption.
  - destruct (host_call_returns Date_toISOString [k] s)
      as (s1 & Heq1 & _ & Hthis1 & Htr1 & Hst1).
    step_bind Heq1.
    set (serverTime := fst (Date_toISOString (world s))).
    change (SSEEvent.mk None "ping" _ None) with (ping_event now serverTime).
    assert (clients_of s1 = clients_of s) as Hc1.
    { unfold clients_of. now rewrite Hthis1. }
    rewrite <- Hc1 in Hnd, Hget.
    destruct (sendToClient_send_calls s1 k c (ping_event now serverTime) Hnd Hget)
      as (sent & s2 & d & Heq2 & Hd & Hcalls & Hfail & Hok).
    destruct (sendToClient_returns s1 k (ping_event now serverTime))
      as (sent' & s2' & Heq2' & Hst2).
    rewrite Heq2 in Heq2'. injection Heq2' as <- <-.
    step_bind Heq2.
    assert (steps_on [k] s s2) as Hst by (eapply steps_on_trans; eassumption).
    assert (calls_of k (trace s2) = calls_of k (trace s) ++ d) as Hown.
    { rewrite <- Htr1. now apply steps_on_own. }
    destruct sent; cbn [negb]; eexists _, s2; (split; [reflexivity|]);
      (split; [exact Hst|]).
    + split; [now left|]. split; [trivial|].
      exists serverTime, true, d. split; [exact Hown|]. split; [exact Hcalls|].
      split; [discriminate|]. intros _. split; [exact Hfresh|now apply Hok].
    + do 2 (split; [assumption|]).
      exists serverTime, false, d. split; [exact Hown|]. split; [exact Hcalls|].
      split; [|discriminate]. intros _. split; [exact Hlisted|now apply Hfail].
Qed.

(** What has been done for a client stays so while other clients are
    visited. *)
Lemma visited_stable now timeout k c before after after' entry entry'
    (listed listed' : Prop) :
  after' = after -> entry' = entry -> (listed <-> listed') ->
  visited now timeout k c before after entry listed ->
  visited now timeout k c before after' entry' listed'.
Proof.
  intros -> -> Hiff. unfold visited.
  destruct (now - SSEClient.lastPing c >? timeout).
  - intros (? & ? & ?). repeat split; tauto.
  - intros (serverTime & sent & d & ? & ? & Hfail & Hok).
    exists serverTime, sent, d. repeat split; tauto.
Qed.

(** The loop of a tick. *)
Lemma heartbeat_loop now timeout ks acc s :
  NoDup ks -> NoDup (Map_keys (clients_of s)) ->
  (forall k, k ∈ ks -> k ∉ acc) ->
  exists acc' s',
    for_of_entries ks acc (heartbeat_visit now timeout) s = (Ok acc', s')
    /\ steps_on ks s s'
    /\ (forall x, x ∈ acc' -> x ∈ acc \/ x ∈ ks)
    /\ (forall x, x ∈ acc -> x ∈ acc')
    /\ (forall k c, k ∈ ks -> Map_get k (clients_of s) = Some c ->
          visited now timeout k c (calls_of k (trace s))
            (calls_of k (trace s')) (Map_get k (clients_of s')) (k ∈ acc')).
Proof.
  revert acc s. induction ks as [|k ks IH]; intros acc s Hks Hnd Hacc.
  - exists acc, s. split; [reflexivity|]. split; [apply steps_on_refl|].
    split; [now left|]. split; [trivial|].
    intros k c Hk. now apply elem_of_nil in Hk.
  - apply NoDup_cons in Hks as [Hk Hks].
    cbn [for_of_entries]. unfold bind at 1, get_this at 1. cbn [this].
    fold (clients_of s).
    destruct (Map_get k (clients_of s)) as [c|] eqn:Hget.
    2:{ destruct (IH acc s Hks Hnd) as (acc' & s' & Heq & Hst & Hin & Hkeep & Hall).
        { intros x Hx. apply Hacc, elem_of_cons. now right. }
        exists acc', s'. split; [exact Heq|].
        split; [eapply steps_on_mono, Hst; intros x Hx; apply elem_of_cons;
                now right|].
        split; [intros x Hx; destruct (Hin x Hx);
                [now left|right; apply elem_of_cons; now right]|].
        split; [exact Hkeep|].
        intros x cx Hx Hgetx. apply elem_of_cons in Hx as [->|Hx];
          [congruence|now apply Hall]. }
    destruct (heartbeat_visit_visited now timeout acc k c s Hnd Hget)
      as (acc1 & s1 & Heq1 & Hst1 & Hin1 & Hkeep1 & Hvis1).
    { apply Hacc, elem_of_cons. now left. }
    step_bind Heq1.
    destruct (IH acc1 s1 Hks) as (acc2 & s2 & Heq2 & Hst2 & Hin2 & Hkeep2 & Hall).
    { eapply steps_on_NoDup; eassumption. }
    { intros x Hx Hx1. destruct (Hin1 x Hx1) as [Hxa| ->].
      - eapply Hacc; [|exact Hxa]. apply elem_of_cons. now right.
      - contradiction. }
    exists acc2, s2. split; [exact Heq2|].
    split; [eapply steps_on_cons; eassumption|].
    split.
    { intros x Hx. destruct (Hin2 x Hx) as [Hx1|Hx1].
      - destruct (Hin1 x Hx1) as [?| ->]; [now left|right].
        apply elem_of_cons. now left.
      - right. apply elem_of_cons. now right. }
    split; [auto|].
    intros x cx Hx Hgetx. apply elem_of_cons in Hx as [->|Hx].
    + assert (cx = c) as -> by congruence.
      eapply visited_stable; [| | |exact Hvis1].
      * now apply (steps_on_calls _ _ _ _ Hst2).
      * now apply (steps_on_get _ _ _ _ Hst2).
      * split; [apply Hkeep2|]. intros Hx2. destruct (Hin2 k Hx2); tauto.
    + assert (x ∉ [k]) as Hne.
      { intros Heq. apply list_elem_of_singleton in Heq as ->. contradiction. }
      rewrite <- (steps_on_calls _ _ _ _ Hst1 Hne).
      apply Hall; [exact Hx|]. now rewrite (steps_on_get _ _ _ _ Hst1 Hne).
Qed.
(** Removing a stale client closes its controller at most; it sends
    nothing. *)
Lemma remove_stale_closes k s :
  NoDup (Map_keys (clients_of s)) ->
  exists s' calls,
    remove_stale k s = (Ok tt, s') /\ steps_on [k] s s'
    /\ trace s' = trace s ++ calls
    /\ List.filter is_send calls = []
    /\ Map_get k (clients_of s') = None.
Proof.
  intros Hnd. unfold remove_stale.
  destruct (removeClient_returns s k) as (found & s' & Heq & Hst).
  step_bind Heq. exists s'.
  destruct (Map_get k (clients_of s)) as [c|] eqn:Hget.
  - eexists. split; [reflexivity|]. split; [exact Hst|].
    rewrite (removeClient_present _ _ _ Hget) in Heq. injection Heq as <- <-.
    proj_simpl. do 2 (split; [reflexivity|]). unfold clients_of. proj_simpl.
    now apply Map_get_delete_eq.
  - exists []. split; [reflexivity|]. split; [exact Hst|].
    rewrite (removeClient_absent _ _ Hget) in Heq. injection Heq as <- <-.
    rewrite app_nil_r. do 2 (split; [reflexivity|]). exact Hget.
Qed.

Lemma remove_stale_loop l s :
  NoDup (Map_keys (clients_of s)) ->
  exists s',
    Array_forEach l remove_stale s = (Ok tt, s') /\ steps_on l s s'
    /\ (forall k, k ∈ l ->
          Map_get k (clients_of s') = None
          /\ exists closes,
               calls_of k (trace s') = calls_of k (trace s) ++ closes
               /\ List.filter is_send closes = []).
Proof.
  revert s. induction l as [|a l IH]; intros s Hnd.
  - exists s. split; [reflexivity|]. split; [apply steps_on_refl|].
    intros k Hk. now apply elem_of_nil in Hk.
  - cbn [Array_forEach].
    destruct (remove_stale_closes a s Hnd)
      as (s1 & d1 & Heq1 & Hst1 & Hd1 & Hsend1 & Hgone1).
    step_bind Heq1.
    destruct (IH s1) as (s2 & Heq2 & Hst2 & Hall).
    { eapply steps_on_NoDup; eassumption. }
    exists s2. split; [exact Heq2|].
    split; [eapply steps_on_cons; eassumption|].
    pose proof (steps_on_own _ _ _ _ Hst1 Hd1) as Hown.
    assert (forall k, k ∈ l ->
              k <> a -> calls_of k (trace s1) = calls_of k (trace s)) as Hother.
    { intros k _ Hne. apply (steps_on_calls _ _ _ _ Hst1).
      intros Hin. now apply list_elem_of_singleton in Hin. }
    intros k Hk. destruct (decide (k = a)) as [->|Hne].
    + destruct (decide (a ∈ l)) as [Hin|Hout].
      * destruct (Hall a Hin) as (Hgone & closes & Hcl & Hsend).
        split; [exact Hgone|]. exists (d1 ++ closes).
        split; [rewrite Hcl, Hown; now rewrite app_assoc|].
        rewrite List.filter_app, Hsend1, Hsend. reflexivity.
      * split; [now rewrite (steps_on_get _ _ _ _ Hst2 Hout)|].
        exists d1. split; [|exact Hsend1].
        now rewrite (steps_on_calls _ _ _ _ Hst2 Hout).
    + apply elem_of_cons in Hk as [?|Hk]; [contradiction|].
      destruct (Hall k Hk) as (Hgone & closes & Hcl & Hsend).
      split; [exact Hgone|]. exists closes. split; [|exact Hsend].
      rewrite Hcl. now rewrite (Hother k Hk Hne).
Qed.

(** One tick, for a client registered when it starts. *)
Lemma heartbeat_callback_visited s k c :
  wf s -> Map_get k (clients_of s) = Some c ->
  let now := fst (Date_now (world s)) in
  let timeout := Config.clientTimeout (SSEService.config (this s)) in
  exists s' calls,
    heartbeat_callback s = (Ok tt, s')
    /\ calls_of k (trace s') = calls_of k (trace s) ++ calls
    /\ if now - SSEClient.lastPing c >? timeout
       then List.filter is_send calls = []
            /\ Map_get k (clients_of s') = None
       else exists serverTime sent,
              send_calls k (SSEClient.response c)
                (formatSSEMessage (ping_event now serverTime))
                (List.filter is_send calls) sent
              /\ (sent = false -> Map_get k (clients_of s') = None)
              /\ (sent = true -> is_Some (Map_get k (clients_of s'))).
Proof.
  intros [Hnd Hdown] Hget now timeout.
  unfold heartbeat_callback. unfold bind at 1, get_this at 1. cbn [this].
  destruct (SSEService.isShuttingDown (this s)).
  { rewrite (Hdown eq_refl) in Hget. discriminate. }
  destruct (host_call_returns Date_now [] s)
    as (s1 & Heq1 & _ & Hthis1 & Htr1 & Hst1).
  step_bind Heq1. fold now timeout.
  assert (clients_of s1 = clients_of s) as Hc1.
  { unfold clients_of. now rewrite Hthis1. }
  destruct (heartbeat_loop now timeout (Map_keys (clients_of s1)) [] s1)
    as (stale & s2 & Heq2 & Hst2 & Hin2 & _ & Hall2).
  { now rewrite Hc1. }
  { now rewrite Hc1. }
  { intros x _ Hx. now apply elem_of_nil in Hx. }
  change (for_of_entries (Map_keys (clients_of s1)) []
            (heartbeat_visit now timeout) s1)
    with (for_of_clients [] (heartbeat_visit now timeout) s1) in Heq2.
  step_bind Heq2.
  assert (NoDup (Map_keys (clients_of s2))) as Hnd2.
  { eapply steps_on_NoDup; [exact Hst2|]. now rewrite Hc1. }
  destruct (remove_stale_loop stale s2 Hnd2) as (s3 & Heq3 & Hst3 & Hall3).
  step_bind Heq3. unfold bind at 1, get_this at 1. cbn [this].
  assert (exists s4, (if Map_size (SSEService.clients (this s3)) >? 0
                      then bind getStats (fun _ => ret tt) else ret tt) s3
                     = (Ok tt, s4)
                     /\ clients_of s4 = clients_of s3
                     /\ trace s4 = trace s3) as (s4 & Heq4 & Hc4 & Htr4).
  { destruct (Map_size (SSEService.clients (this s3)) >? 0).
    - destruct (getStats_returns [] s3) as (stats & s4 & Heq4 & Hst4).
      exists s4. step_bind Heq4. split; [reflexivity|].
      split; [|now apply steps_on_nil_trace].
      unfold clients_of. unfold getStats in Heq4.
      destruct (host_call_returns Date_now [] s3)
        as (s4' & Heq4' & _ & Hthis4 & _).
      rewrite (bind_eq _ _ _ _ _ Heq4') in Heq4. injection Heq4 as _ <-.
      now rewrite Hthis4.
    - exists s3. auto. }
  exists s4. rewrite Heq4, Hc4, Htr4.
  assert (k ∈ Map_keys (clients_of s1)) as Hk.
  { rewrite Hc1. eapply Map_get_Some_In, Hget. }
  specialize (Hall2 k c Hk). rewrite Hc1, Htr1 in Hall2.
  specialize (Hall2 Hget). unfold visited in Hall2.
  destruct (now - SSEClient.lastPing c >? timeout).
  - destruct Hall2 as (Hsame & Hentry & Hlisted).
    destruct (Hall3 k Hlisted) as (Hgone & closes & Hcl & Hsend).
    exists closes. split; [reflexivity|]. split; [congruence|].
    split; [exact Hsend|exact Hgone].
  - destruct Hall2 as (serverTime & sent & d & Hd & Hcalls & Hfail & Hok).
    destruct sent.
    + destruct (Hok eq_refl) as [Hout Hsome].
      exists d. split; [reflexivity|].
      split; [rewrite (steps_on_calls _ _ _ _ Hst3 Hout); exact Hd|].
      exists serverTime, true. split; [exact Hcalls|].
      split; [discriminate|]. intros _.
      now rewrite (steps_on_get _ _ _ _ Hst3 Hout).
    + destruct (Hfail eq_refl) as [Hlisted Hnone].
      destruct (Hall3 k Hlisted) as (Hgone & closes & Hcl & Hsend).
      exists (d ++ closes). split; [reflexivity|].
      split; [rewrite Hcl, Hd; now rewrite app_assoc|].
      exists serverTime, false.
      split; [rewrite List.filter_app, Hsend, app_nil_r; exact Hcalls|].
      split; [intros _; exact Hgone|discriminate].
Qed.
End Heartbeat.

(** C5. One heartbeat tick returns, and for every connection registered when
    it starts: if [now - lastPing > clientTimeout], the tick makes no send
    call on its behalf (it neither reads [desiredSize] nor calls
    [enqueue]) and the connection is not registered when the tick ends;
    otherwise the tick tries to send it a [ping] event whose payload
    carries [now], and if that send fails the connection is not registered
    when the tick ends, while if it succeeds it still is. *)
Theorem heartbeat_tick {W : Type} `{Host W} (s : State W)
    (clientId : string) (client : SSEClient.t) :
  wf s ->
  Map_get clientId (clients_of s) = Some client ->
  let now := fst (Date_now (world s)) in
  let timeout := Config.clientTimeout (SSEService.config (this s)) in
  let s' := exec heartbeat_callback s in
  let sends :=
    List.filter is_send (calls_of clientId (new_calls heartbeat_callback s)) in
  result heartbeat_callback s = Ok tt
  /\ (now - SSEClient.lastPing client > timeout ->
      sends = [] /\ clientId ∉ Map_keys (clients_of s'))
  /\ (now - SSEClient.lastPing client <= timeout ->
      exists serverTime sent,
        send_calls clientId (SSEClient.response client)
          (formatSSEMessage (ping_event now serverTime)) sends sent
        /\ (sent = false -> clientId ∉ Map_keys (clients_of s'))
        /\ (sent = true -> clientId ∈ Map_keys (clients_of s'))).
Proof.
  intros Hwf Hget now timeout s' sends.
  destruct (heartbeat_callback_visited s clientId client Hwf Hget)
    as (s1 & calls & Heq & Hcalls & Hvisited).
  fold now timeout in Hvisited.
  destruct (heartbeat_callback_returns s) as (ks & s1' & Heq' & Hst).
  rewrite Heq in Heq'. injection Heq' as <-.
  destruct (steps_on_trace _ _ _ Hst) as (d & Hd).
  assert (sends = List.filter is_send calls) as ->.
  { subst sends. f_equal.
    rewrite (new_calls_app heartbeat_callback s d)
      by (now rewrite (exec_eq _ _ _ _ Heq)).
    rewrite Hd, calls_of_app in Hcalls. now apply app_inv_head in Hcalls. }
  subst s'. rewrite (exec_eq _ _ _ _ Heq). unfold result. rewrite Heq.
  split; [reflexivity|].
  destruct (Z.gtb_spec (now - SSEClient.lastPing client) timeout) as [Hgt|Hle].
  - split; [|lia]. intros _. destruct Hvisited as [Hsends Hgone].
    split; [exact Hsends|]. now apply Map_get_None.
  - split; [lia|]. intros _.
    destruct Hvisited as (serverTime & sent & Hsend & Hfail & Hok).
    exists serverTime, sent. split; [exact Hsend|]. split.
    + intros Hs. now apply Map_get_None, Hfail.
    + intros Hs. destruct (Hok Hs) as [c' Hc']. eapply Map_get_Some_In, Hc'.
Qed.

Lemma heartbeat_tick_witness :
  (List.filter is_send
     (calls_of "uuid-0" (new_calls heartbeat_callback before_tick)) = []
   /\ "uuid-0" ∉ Map_keys (clients_of (exec heartbeat_callback before_tick)))
  /\ exists serverTime sent,
       send_calls "uuid-1" 8%nat
         (formatSSEMessage (ping_event 101000 serverTime))
         (List.filter is_send
            (calls_of "uuid-1" (new_calls heartbeat_callback before_tick)))
         sent
       /\ (sent = false ->
           "uuid-1" ∉ Map_keys (clients_of (exec heartbeat_callback before_tick)))
       /\ (sent = true ->
           "uuid-1" ∈ Map_keys (clients_of (exec heartbeat_callback before_tick))).
Proof.
  assert (wf before_tick) as Hwf.
  { split; [apply (bool_decide_unpack _); vm_compute; exact I|discriminate]. }
  destruct (heartbeat_tick before_tick "uuid-0"
              (SSEClient.mk "uuid-0" (Some "u1") 7%nat 1000 1000) Hwf eq_refl)
    as (_ & Hstale & _).
  destruct (heartbeat_tick before_tick "uuid-1"
              (SSEClient.mk "uuid-1" None 8%nat 101000 1000) Hwf eq_refl)
    as (_ & _ & Hfresh).
  split.
  - apply Hstale. vm_compute. reflexivity.
  - apply Hfresh. vm_compute. discriminate.
Defined.

(** ** The service at work

    Runs on the simulated host: three registrations, the ids of a user, the
    statistics, a send on a stream that has been closed, and a tick. *)

Example three_clients_ids :
  getActiveClients three_clients
  = (Ok ["uuid-0"; "uuid-1"; "uuid-2"], three_clients).
Proof. reflexivity. Qed.

Example three_clients_of_u1 :
  result (getClientsByUser "u1") three_clients = Ok ["uuid-0"].
Proof. reflexivity. Qed.

Example three_clients_stats :
  result getStats three_clients = Ok (SSEServiceStats.mk 3 1 2 0 0).
Proof. reflexivity. Qed.

Example three_clients_empty_userId :
  result (getClientsByUser EmptyString) three_clients = Ok ["uuid-2"].
Proof. reflexivity. Qed.

Example send_on_closed_stream :
  let s := step (WorldMoves (Sim.shut 7%nat)) one_client in
  result (sendToClient "uuid-0" update_42) s = Ok false
  /\ new_calls (sendToClient "uuid-0" update_42) s
     = [mkCall "uuid-0" 7%nat (GetDesiredSize (Some 0));
        mkCall "uuid-0" 7%nat
          (Enqueue (formatSSEMessage update_42) (Throw Sim.TypeError));
        mkCall "uuid-0" 7%nat (Close (Throw Sim.TypeError))]
  /\ getActiveClients (exec (sendToClient "uuid-0" update_42) s)
     = (Ok [], exec (sendToClient "uuid-0" update_42) s).
Proof. repeat split. Qed.

Example tick_keeps_the_live_client :
  Map_keys (clients_of (exec heartbeat_callback before_tick)) = ["uuid-1"].
Proof. reflexivity. Qed.

Example tick_calls :
  List.map call_op (new_calls heartbeat_callback before_tick)
  = [GetDesiredSize (Some 1);
     Enqueue (formatSSEMessage (ping_event 101000 "1970-01-01T00:00:00.000Z"))
             (Ok tt);
     Close (Ok tt);
     Close (Ok tt)].
Proof. reflexivity. Qed.

Example welcome_after_registration :
  new_calls (fun s => (Ok tt, fire_timeout 0 s)) one_client
  = [mkCall "uuid-0" 7%nat (GetDesiredSize (Some 1));
     mkCall "uuid-0" 7%nat
       (Enqueue
          (formatSSEMessage
             (SSEEvent.mk None "connected"
                (JObject [("clientId", JString "uuid-0");
                          ("timestamp", JNumber 1000);
                          ("serverTime", JString "1970-01-01T00:00:00.000Z")])
                None))
          (Ok tt))].
Proof. reflexivity. Qed.

Example stringify_escapes :
  JSON_stringify (JArray [JString ("a" +:+ DQUOTE +:+ LF +:+ "b"); JNull;
                          JBool true; JNumber (-3)])
  = "[" +:+ DQUOTE +:+ "a" +:+ BACKSLASH +:+ DQUOTE +:+ BACKSLASH +:+ "nb"
    +:+ DQUOTE +:+ ",null,true,-3]".
Proof. reflexivity. Qed.

Example remove_on_closed_stream :
  let s := step (WorldMoves (Sim.shut 7%nat)) one_client in
  result (removeClient "uuid-0") s = Ok true
  /\ new_calls (removeClient "uuid-0") s
     = [mkCall "uuid-0" 7%nat (Close (Throw Sim.TypeError))]
  /\ clients_of (exec (removeClient "uuid-0") s) = [].
Proof. repeat split. Qed.

Example registry_run :
  Map_keys (clients_of
              (run_registry [Register 7%nat (Some "u1"); Register 8%nat None;
                             Remove "uuid-0"; Remove "uuid-0";
                             Register 9%nat None]
                            (new_SSEService None (Sim.fresh 0)) ∅).1)
  = ["uuid-1"; "uuid-2"].
Proof. lazy. reflexivity. Qed.

(** * Further properties of the service and of its callers *)

(** ** Sending to a list of ids *)

Section SendEach.
Context {W : Type} `{Host W}.
Implicit Types (s : State W) (k clientId : string) (c client : SSEClient.t).

Lemma sendTo_each_length ids event s sent s' :
  sendTo_each ids event s = (Ok sent, s') -> length sent = length ids.
Proof.
  revert s sent s'. induction ids as [|k ids IH]; intros s sent s'.
  - cbn. now intros [= <- _].
  - cbn [sendTo_each].
    destruct (sendToClient_returns s k event) as (b & s1 & Heq1 & _).
    step_bind Heq1. unfold bind.
    destruct (sendTo_each ids event s1) as [[bs|e] s2] eqn:Heq2; [|discriminate].
    intros [= <- _]. cbn. f_equal. eapply IH, Heq2.
Qed.

Lemma count_true_bounds (bs : list bool) :
  0 <= count_true bs <= Z.of_nat (length bs).
Proof.
  unfold count_true. split; [lia|]. apply Nat2Z.inj_le.
  induction bs as [|[] bs IH]; cbn; lia.
Qed.

(** Sends to distinct registered ids: who is called, and the count. *)
Lemma sendTo_each_summary ids event s :
  NoDup ids ->
  (forall k, k ∈ ids -> k ∈ Map_keys (clients_of s)) ->
  exists n s' calls,
    bind (sendTo_each ids event) (fun sent => ret (count_true sent)) s
    = (Ok n, s')
    /\ steps_on ids s s'
    /\ trace s' = trace s ++ calls
    /\ (forall k, (exists call, call ∈ calls /\ call_client call = k)
                  <-> k ∈ ids)
    /\ n = Z.of_nat (length (List.filter is_written calls))
    /\ 0 <= n <= Z.of_nat (length ids).
Proof.
  intros Hnd Hreg.
  destruct (sendTo_each_calls ids event s Hnd)
    as (sent & s' & calls & Heq & Hst & Htr & Hcount & Hgds).
  exists (count_true sent), s', calls.
  split; [step_bind Heq; reflexivity|]. split; [exact Hst|].
  split; [exact Htr|]. split; [|split; [exact Hcount|]].
  - intros k. split.
    + intros (call & Hin & <-).
      destruct Hst as (_ & _ & _ & _ & d & Hd & Htag). rewrite Htr in Hd.
      apply app_inv_head in Hd as <-. now apply Htag.
    + intros Hk. destruct (Map_get_In _ _ (Hreg k Hk)) as (c & Hget).
      destruct (Hgds k c Hk Hget) as (v & Hin). eauto.
  - rewrite <- (sendTo_each_length _ _ _ _ _ Heq). apply count_true_bounds.
Qed.
End SendEach.

(** ** Broadcast *)

Section Broadcast.
Context {W : Type} `{Host W}.
Implicit Types (s : State W) (k clientId : string) (c client : SSEClient.t).

(** The live loop of [broadcast] sends to the keys that are registered and
    not excluded when it starts. *)
Lemma broadcast_loop event exclude ks acc s :
  NoDup ks ->
  for_of_entries ks acc (broadcast_visit event exclude) s
  = bind (sendTo_each
            (List.filter
               (fun k => match Map_get k (clients_of s) with
                         | Some _ => negb (is_excluded exclude k)
                         | None => false
                         end) ks) event)
         (fun sent => ret (acc + count_true sent)) s.
Proof.
  revert acc s. induction ks as [|k ks IH]; intros acc s Hnd.
  - cbn. unfold bind, ret. cbn. do 2 f_equal. unfold count_true. cbn. lia.
  - apply NoDup_cons in Hnd as [Hk Hnd].
    cbn [for_of_entries List.filter]. unfold bind at 1, get_this at 1.
    cbn [this]. fold (clients_of s).
    destruct (Map_get k (clients_of s)) as [c|]; [|now apply IH].
    unfold broadcast_visit at 1. destruct (negb (is_excluded exclude k)).
    2:{ unfold bind at 1, ret at 1. now apply IH. }
    destruct (sendToClient_returns s k event) as (sent & s1 & Heq & Hst).
    cbn [sendTo_each].
    match goal with
    | |- context [List.filter ?f ks] =>
        assert (List.filter f ks
                = List.filter
                    (fun k => match Map_get k (clients_of s1) with
                              | Some _ => negb (is_excluded exclude k)
                              | None => false
                              end) ks) as ->
    end.
    { apply filter_ext_in. intros x Hx.
      rewrite (steps_on_get _ _ _ _ Hst); [reflexivity|].
      intros Hin. apply list_elem_of_singleton in Hin as ->.
      now apply list_elem_of_In in Hx. }
    rewrite !bind_assoc. step_bind Heq. step_bind Heq.
    specialize (IH (if sent then acc + 1 else acc) s1 Hnd).
    destruct sent; unfold bind at 1, ret at 1; rewrite IH; unfold bind, ret;
      destruct (sendTo_each _ event s1) as [[bs|e] s2]; try reflexivity;
      rewrite count_true_cons; do 2 f_equal; lia.
Qed.

Lemma broadcast_eq_resolved event exclude s :
  NoDup (Map_keys (clients_of s)) ->
  broadcast event exclude s = broadcast_resolved event exclude s.
Proof.
  intros Hnd. unfold broadcast_resolved.
  rewrite (bind_eq _ _ _ _ _ (getActiveClients_eq s)).
  unfold broadcast, for_of_clients.
  unfold bind at 1, get_this at 1. cbn [this]. fold (clients_of s).
  rewrite (broadcast_loop _ _ _ _ _ Hnd).
  match goal with
  | |- context [List.filter ?f (Map_keys (clients_of s))] =>
      assert (List.filter f (Map_keys (clients_of s))
              = List.filter (fun id => negb (is_excluded exclude id))
                            (Map_keys (clients_of s))) as ->
  end.
  { apply filter_ext_in. intros x Hx. apply list_elem_of_In in Hx.
    destruct (Map_get_In _ _ Hx) as (c & ->). reflexivity. }
  unfold bind.
  destruct (sendTo_each _ event s) as [[bs|e] s2]; reflexivity.
Qed.

Lemma NoDup_filter_keys (f : string -> bool) (l : list string) :
  NoDup l -> NoDup (List.filter f l).
Proof. intros Hnd. apply NoDup_ListNoDup, List.NoDup_filter, NoDup_ListNoDup, Hnd. Qed.

(** [broadcast], summed up. *)
Lemma broadcast_summary event exclude s :
  NoDup (Map_keys (clients_of s)) ->
  exists n s' calls,
    broadcast event exclude s = (Ok n, s')
    /\ steps_on (Map_keys (clients_of s)) s s'
    /\ trace s' = trace s ++ calls
    /\ (forall k, (exists call, call ∈ calls /\ call_client call = k)
                  <-> k ∈ Map_keys (clients_of s)
                      /\ is_excluded exclude k = false)
    /\ n = Z.of_nat (length (List.filter is_written calls))
    /\ 0 <= n <= Map_size (clients_of s).
Proof.
  intros Hnd.
  set (ids := List.filter (fun id => negb (is_excluded exclude id))
                          (Map_keys (clients_of s))).
  assert (forall k, k ∈ ids <-> k ∈ Map_keys (clients_of s)
                                /\ is_excluded exclude k = false) as Hids.
  { intros k. subst ids. rewrite list_elem_of_In, filter_In, <- list_elem_of_In.
    rewrite negb_true_iff. reflexivity. }
  destruct (sendTo_each_summary ids event s)
    as (n & s' & calls & Heq & Hst & Htr & Hwho & Hn & Hle).
  { now apply NoDup_filter_keys. }
  { intros k Hk. now apply Hids. }
  exists n, s', calls. split; [|split; [|split; [exact Htr|split; [|split]]]].
  - rewrite (broadcast_eq_resolved _ _ _ Hnd). unfold broadcast_resolved.
    rewrite (bind_eq _ _ _ _ _ (getActiveClients_eq s)). exact Heq.
  - eapply steps_on_mono, Hst. intros k Hk. now apply Hids.
  - intros k. rewrite Hwho. apply Hids.
  - exact Hn.
  - split; [lia|]. destruct Hle as [_ Hle]. etransitivity; [exact Hle|].
    unfold Map_size, Map_keys. rewrite <- (length_fmap fst (clients_of s)).
    apply inj_le. subst ids. apply List.filter_length_le.
Qed.
End Broadcast.

(** X1. [broadcast] does what "take the ids registered now, leave out the
    excluded one, call [sendToClient] on each and count the successes"
    does. Calls are made on behalf of exactly the registered ids other than
    the excluded one, the number returned is the number of writes that
    succeeded, and it lies between 0 and the number of connections. *)
Theorem broadcast_reaches_all_but_excluded {W : Type} `{Host W}
    (s : State W) (event : SSEEvent.t) (excludeClientId : option string) :
  NoDup (Map_keys (clients_of s)) ->
  broadcast event excludeClientId s
  = broadcast_resolved event excludeClientId s
  /\ (forall k,
        (exists call, call ∈ new_calls (broadcast event excludeClientId) s
                      /\ call_client call = k)
        <-> k ∈ Map_keys (clients_of s)
            /\ Some k <> excludeClientId)
  /\ result (broadcast event excludeClientId) s
     = Ok (Z.of_nat (length (List.filter is_written
                               (new_calls (broadcast event excludeClientId)
                                          s))))
  /\ exists n, result (broadcast event excludeClientId) s = Ok n
               /\ 0 <= n <= Map_size (clients_of s).
Proof.
  intros Hnd.
  destruct (broadcast_summary event excludeClientId s Hnd)
    as (n & s' & calls & Heq & _ & Htr & Hwho & Hn & Hle).
  assert (new_calls (broadcast event excludeClientId) s = calls) as ->.
  { apply new_calls_app. now rewrite (exec_eq _ _ _ _ Heq). }
  split; [now apply broadcast_eq_resolved|]. unfold result. rewrite Heq.
  cbn [fst]. split; [|split; [now rewrite Hn|eauto]].
  intros k. rewrite Hwho. unfold is_excluded.
  destruct excludeClientId as [x|].
  - rewrite String.eqb_neq. split; intros [Hk Hne]; (split; [exact Hk|]);
      congruence.
  - split; intros [Hk _]; (split; [exact Hk|]); [discriminate|reflexivity].
Qed.

Lemma broadcast_reaches_all_but_excluded_witness :
  broadcast update_42 (Some "uuid-1") three_clients
  = broadcast_resolved update_42 (Some "uuid-1") three_clients.
Proof.
  apply (broadcast_reaches_all_but_excluded three_clients update_42
           (Some "uuid-1")).
  apply (bool_decide_unpack _). vm_compute. exact I.
Defined.

(** X2. [sendToClient] always returns normally. To an id that is not
    registered it returns [false] and changes nothing at all. In every case
    it leaves the entries of the other clients, the configuration, the
    shutdown flag and the timers as they are, registers no id, and makes
    calls on behalf of its own client only. *)
Theorem sendToClient_touches_its_client_only {W : Type} `{Host W}
    (s : State W) (clientId : string) (event : SSEEvent.t) :
  exists sent,
    sendToClient clientId event s
    = (Ok sent, exec (sendToClient clientId event) s)
    /\ (Map_get clientId (clients_of s) = None ->
        sent = false /\ exec (sendToClient clientId event) s = s)
    /\ (forall k, k <> clientId ->
          Map_get k (clients_of (exec (sendToClient clientId event) s))
          = Map_get k (clients_of s))
    /\ (forall k,
          k ∈ Map_keys (clients_of (exec (sendToClient clientId event) s)) ->
          k ∈ Map_keys (clients_of s))
    /\ same_setup s (exec (sendToClient clientId event) s)
    /\ (forall call,
          call ∈ new_calls (sendToClient clientId event) s ->
          call_client call = clientId).
Proof.
  destruct (sendToClient_steps s clientId event) as (sent & Heq & Hst).
  exists sent. split; [exact Heq|]. split; [|split; [|split; [|split]]].
  - intros Hget. unfold exec. rewrite (sendToClient_absent _ _ _ Hget) in *.
    injection Heq as ->. auto.
  - intros k Hk. apply (steps_on_get _ _ _ _ Hst). intros Hin.
    now apply list_elem_of_singleton in Hin.
  - intros k. apply (steps_on_keys _ _ _ _ Hst).
  - eapply steps_on_setup, Hst.
  - destruct Hst as (_ & _ & _ & _ & d & Hd & Htag).
    rewrite (new_calls_app _ _ _ Hd). intros call Hin.
    now apply list_elem_of_singleton, Htag.
Qed.

(** A send to an id that was never registered. *)
Lemma sendToClient_touches_its_client_only_witness :
  exec (sendToClient "uuid-9" update_42) one_client = one_client.
Proof.
  destruct (sendToClient_touches_its_client_only one_client "uuid-9" update_42)
    as (sent & _ & Hnone & _).
  apply Hnone. reflexivity.
Defined.

(** ** Registration *)

Section Registration.
Context {W : Type} `{Host W}.
Implicit Types (s : State W) (k clientId : string) (c client : SSEClient.t).

Lemma Map_delete_set_fresh (m : list (string * SSEClient.t)) k c :
  k ∉ Map_keys m -> Map_delete k (Map_set k c m) = m.
Proof.
  unfold Map_keys. induction m as [|[k' c'] m IH]; csimpl.
  - intros _. now rewrite String.eqb_refl.
  - rewrite not_elem_of_cons. intros [Hne Hout].
    destruct (String.eqb_spec k' k) as [->|_]; [congruence|]. csimpl.
    destruct (String.eqb_spec k' k) as [->|_]; [congruence|].
    now rewrite IH.
Qed.

Lemma Map_size_keys (m : list (string * SSEClient.t)) :
  Map_size m = Z.of_nat (length (Map_keys m)).
Proof. unfold Map_size, Map_keys. now rewrite length_fmap. Qed.
End Registration.

(** X3. When the service is not shutting down and holds fewer than
    [maxClients] connections, [addClient] returns the id [randomUUID] gives.
    The Map holds under that id a client with the given user id and
    controller, [lastPing] and [connectedAt] being the two clock readings;
    every other entry is as before; no call is made on any controller; and
    the [connected] callback is queued last. If the id was not registered it
    is listed last and there is one connection more; if it was, the entry
    is replaced where it stood and the ids are those of before. *)
Theorem addClient_registers {W : Type} `{Host W} (s : State W)
    (controller : Controller) (userId : option string) :
  SSEService.isShuttingDown (this s) = false ->
  Map_size (clients_of s) < Config.maxClients (SSEService.config (this s)) ->
  let clientId := fst (randomUUID (world s)) in
  let t1 := Date_now (snd (randomUUID (world s))) in
  let t2 := Date_now (snd t1) in
  let s' := exec (addClient controller userId) s in
  addClient controller userId s = (Ok clientId, s')
  /\ Map_get clientId (clients_of s')
     = Some (SSEClient.mk clientId userId controller (fst t1) (fst t2))
  /\ (forall k, k <> clientId ->
        Map_get k (clients_of s') = Map_get k (clients_of s))
  /\ trace s' = trace s
  /\ timeouts s' = timeouts s ++ [clientId]
  /\ SSEService.config (this s') = SSEService.config (this s)
  /\ (clientId ∉ Map_keys (clients_of s) ->
      Map_keys (clients_of s') = Map_keys (clients_of s) ++ [clientId]
      /\ Map_size (clients_of s') = Map_size (clients_of s) + 1)
  /\ (clientId ∈ Map_keys (clients_of s) ->
      Map_keys (clients_of s') = Map_keys (clients_of s)).
Proof.
  intros Hdown Hroom clientId t1 t2 s'. subst s'. unfold exec.
  rewrite (addClient_accepts s controller userId Hdown Hroom).
  cbv zeta. fold clientId t1 t2. cbn [snd]. unfold clients_of. proj_simpl.
  split; [reflexivity|]. split; [apply Map_get_set_eq|].
  split; [intros k Hk; now apply Map_get_set_ne|].
  do 3 (split; [reflexivity|]). split.
  - intros Hfresh. rewrite !Map_size_keys, Map_keys_set_absent by exact Hfresh.
    split; [reflexivity|]. rewrite length_app. cbn. lia.
  - intros Hin. now apply Map_keys_set_present.
Qed.

Lemma addClient_registers_witness :
  addClient 8%nat None one_client
  = (Ok "uuid-1", exec (addClient 8%nat None) one_client).
Proof.
  destruct (addClient_registers one_client 8%nat None) as (Heq & _);
    [reflexivity | vm_compute; reflexivity | exact Heq].
Defined.

(** X4. Registering a client under a new id and removing it again leaves
    the Map of clients as it was. *)
Theorem addClient_then_removeClient {W : Type} `{Host W} (s : State W)
    (controller : Controller) (userId : option string) :
  SSEService.isShuttingDown (this s) = false ->
  Map_size (clients_of s) < Config.maxClients (SSEService.config (this s)) ->
  fst (randomUUID (world s)) ∉ Map_keys (clients_of s) ->
  exists clientId s1,
    addClient controller userId s = (Ok clientId, s1)
    /\ removeClient clientId s1 = (Ok true, exec (removeClient clientId) s1)
    /\ clients_of (exec (removeClient clientId) s1) = clients_of s.
Proof.
  intros Hdown Hroom Hfresh.
  pose proof (addClient_accepts s controller userId Hdown Hroom) as Heq.
  cbv zeta in Heq. eexists _, _. split; [exact Heq|].
  match goal with
  | |- removeClient ?k ?s1 = _ /\ _ =>
      assert (Map_get k (clients_of s1)
              = Some (SSEClient.mk k userId controller
                        (fst (Date_now (snd (randomUUID (world s)))))
                        (fst (Date_now
                                (snd (Date_now (snd (randomUUID (world s))))))))
             ) as Hget
        by (unfold clients_of; proj_simpl; apply Map_get_set_eq)
  end.
  unfold exec. rewrite (removeClient_present _ _ _ Hget).
  split; [reflexivity|]. unfold clients_of. proj_simpl.
  now apply Map_delete_set_fresh.
Qed.

Lemma addClient_then_removeClient_witness :
  exists clientId s1,
    addClient 8%nat None one_client = (Ok clientId, s1)
    /\ removeClient clientId s1 = (Ok true, exec (removeClient clientId) s1)
    /\ clients_of (exec (removeClient clientId) s1) = clients_of one_client.
Proof.
  apply (addClient_then_removeClient one_client 8%nat None);
    [reflexivity | vm_compute; reflexivity |].
  apply (bool_decide_unpack _). vm_compute. exact I.
Defined.

(** ** What every step of a run keeps *)

Section Reachable.
Context {W : Type} `{Host W}.
Implicit Types (s : State W) (k clientId : string) (c client : SSEClient.t).

(** Sending and removing do not make the Map larger. *)
Lemma steps_on_size ks s s' :
  steps_on ks s s' -> NoDup (Map_keys (clients_of s)) ->
  Map_size (clients_of s') <= Map_size (clients_of s).
Proof.
  intros Hst Hnd. rewrite !Map_size_keys. apply inj_le.
  apply submseteq_length, NoDup_submseteq.
  - eapply steps_on_NoDup; eassumption.
  - intros k. apply (steps_on_keys _ _ _ _ Hst).
Qed.

Lemma stop_heartbeat_timer s :
  timer_ok s ->
  exists s0,
    stop_heartbeat s = (Ok tt, s0)
    /\ intervals s0 = []
    /\ SSEService.heartbeatInterval (this s0) = None.
Proof.
  unfold timer_ok, stop_heartbeat. unfold_monad.
  destruct (SSEService.heartbeatInterval (this s)) as [t|] eqn:Hhb;
    intros Hok.
  - eexists. split; [reflexivity|]. unfold clearInterval. proj_simpl.
    rewrite Hok. cbn. now rewrite Nat.eqb_refl.
  - exists s. auto.
Qed.

Lemma cleanup_timer s :
  timer_ok s ->
  intervals (exec cleanup s) = []
  /\ SSEService.heartbeatInterval (this (exec cleanup s)) = None.
Proof.
  intros Hok.
  destruct (stop_heartbeat_timer s Hok) as (s0 & Heq0 & Hi0 & Hh0).
  destruct (forEach_cleanup (Map_keys (SSEService.clients (this s0))) s0)
    as (s1 & Heq1 & Hst1 & _).
  assert (exec cleanup s = s1) as ->.
  { unfold exec, cleanup. step_bind Heq0. unfold bind at 1, get_this at 1.
    cbn [this]. now rewrite Heq1. }
  destruct (steps_on_setup _ _ _ Hst1) as (_ & _ & Hh & _ & Hi).
  split; congruence.
Qed.

(** What one step does to the configuration, the size of the Map and the
    heartbeat timer. *)
Lemma step_effect (op : Op W) s :
  wf s ->
  SSEService.config (this (step op s)) = SSEService.config (this s)
  /\ (Map_size (clients_of (step op s)) <= Map_size (clients_of s)
      \/ Map_size (clients_of s)
         < Config.maxClients (SSEService.config (this s))
         /\ Map_size (clients_of (step op s)) <= Map_size (clients_of s) + 1)
  /\ (timer_ok s -> timer_ok (step op s))
  /\ (SSEService.heartbeatInterval (this s) = None ->
      SSEService.heartbeatInterval (this (step op s)) = None).
Proof.
  intros [Hnd Hdown].
  assert (forall ks s0 s',
            this s0 = this s -> intervals s0 = intervals s ->
            steps_on ks s0 s' ->
            SSEService.config (this s') = SSEService.config (this s)
            /\ (Map_size (clients_of s') <= Map_size (clients_of s)
                \/ Map_size (clients_of s)
                   < Config.maxClients (SSEService.config (this s))
                   /\ Map_size (clients_of s') <= Map_size (clients_of s) + 1)
            /\ (timer_ok s -> timer_ok s')
            /\ (SSEService.heartbeatInterval (this s) = None ->
                SSEService.heartbeatInterval (this s') = None)) as Hquiet.
  { intros ks s0 s' Hthis Hint Hst.
    destruct (steps_on_setup _ _ _ Hst) as (Hc & _ & Hh & _ & Hi).
    rewrite Hthis in Hc, Hh. rewrite Hint in Hi.
    split; [exact Hc|]. split; [|split].
    - left. replace (clients_of s) with (clients_of s0)
        by (unfold clients_of; now rewrite Hthis).
      apply (steps_on_size _ _ _ Hst). unfold clients_of. now rewrite Hthis.
    - unfold timer_ok. now rewrite Hh, Hi.
    - now rewrite Hh. }
  destruct op as [controller userId|k|k event|u event|event ex| | |
                  |n| |f]; cbn [step].
  - unfold exec.
    destruct (addClient_cases s controller userId)
      as [[-> _]|[[-> _]|(id & c & w & Heq & Hflag)]]; [| |rewrite Heq];
      cbn [snd].
    + repeat split; auto. left. lia.
    + repeat split; auto. left. lia.
    + unfold clients_of, timer_ok. proj_simpl. split; [reflexivity|].
      split; [|split; auto].
      destruct (Z_lt_ge_dec (Map_size (SSEService.clients (this s)))
                  (Config.maxClients (SSEService.config (this s))))
        as [Hlt|Hge].
      * right. split; [exact Hlt|]. rewrite !Map_size_keys.
        destruct (decide (id ∈ Map_keys (SSEService.clients (this s)))).
        -- rewrite Map_keys_set_present by assumption. lia.
        -- rewrite Map_keys_set_absent by assumption. rewrite length_app.
           cbn. lia.
      * exfalso.
        rewrite (addClient_full s controller userId Hflag Hge) in Heq.
        discriminate.
  - destruct (removeClient_returns s k) as (b & s' & Heq & Hst).
    rewrite (exec_eq _ _ _ _ Heq). now apply (Hquiet _ s s' eq_refl eq_refl Hst).
  - destruct (sendToClient_returns s k event) as (b & s' & Heq & Hst).
    rewrite (exec_eq _ _ _ _ Heq). now apply (Hquiet _ s s' eq_refl eq_refl Hst).
  - destruct (sendToUser_returns u event s) as (b & s' & Heq & Hst).
    rewrite (exec_eq _ _ _ _ Heq). now apply (Hquiet _ s s' eq_refl eq_refl Hst).
  - destruct (broadcast_returns event ex s) as (b & s' & Heq & Hst).
    rewrite (exec_eq _ _ _ _ Heq). now apply (Hquiet _ s s' eq_refl eq_refl Hst).
  - destruct (getStats_returns [] s) as (b & s' & Heq & Hst).
    rewrite (exec_eq _ _ _ _ Heq). now apply (Hquiet _ s s' eq_refl eq_refl Hst).
  - destruct (cleanup_returns s)
      as (s' & Heq & Hc & _ & Hh & _ & _ & _ & Hempty).
    pose proof (cleanup_timer s) as Htimer.
    rewrite (exec_eq _ _ _ _ Heq) in Htimer |- *. split; [exact Hc|].
    specialize (Hempty Hnd).
    split; [left; rewrite Hempty; unfold Map_size; cbn; lia|].
    split; [|auto]. intros Hok. destruct (Htimer Hok) as [Hi Hh'].
    unfold timer_ok. now rewrite Hi, Hh'.
  - set (s0 := mkState (SSEService.with_isShuttingDown true (this s))
                       (world s) (trace s) (timeouts s) (intervals s)).
    destruct (cleanup_returns s0)
      as (s' & Heq & Hc & _ & Hh & _ & _ & _ & Hempty).
    pose proof (cleanup_timer s0) as Htimer.
    rewrite (exec_eq _ _ _ _ Heq) in Htimer.
    assert (exec shutdown s = s') as ->.
    { unfold shutdown, exec, bind, modify_this. fold s0. now rewrite Heq. }
    split; [exact Hc|]. specialize (Hempty Hnd).
    split; [left; rewrite Hempty; unfold Map_size; cbn; lia|].
    split; [|auto]. intros Hok. destruct (Htimer Hok) as [Hi Hh'].
    unfold timer_ok. now rewrite Hi, Hh'.
  - unfold fire_timeout. destruct (nth_error (timeouts s) n) as [k|].
    + match goal with
      | |- context [exec _ ?s0] =>
          destruct (connected_callback_returns k s0) as (s' & Heq & Hst);
          rewrite (exec_eq _ _ _ _ Heq);
          now apply (Hquiet _ s0 s' eq_refl eq_refl Hst)
      end.
    + repeat split; auto. left. lia.
  - unfold fire_interval. destruct (intervals s) eqn:Hint.
    + repeat split; auto. left. lia.
    + rewrite <- Hint in Hquiet.
      destruct (heartbeat_callback_returns s) as (ks & s' & Heq & Hst).
      rewrite (exec_eq _ _ _ _ Heq). now apply (Hquiet _ s s' eq_refl eq_refl Hst).
  - repeat split; auto. left. unfold clients_of. cbn. lia.
Qed.
End Reachable.

Section RunInvariants.
Context {W : Type} `{Host W}.
Implicit Types (s : State W).

Lemma run_cons (op : Op W) ops s : run (op :: ops) s = run ops (step op s).
Proof. reflexivity. Qed.

Lemma run_effect (ops : list (Op W)) s :
  wf s ->
  SSEService.config (this (run ops s)) = SSEService.config (this s)
  /\ (Map_size (clients_of s)
      <= Z.max 0 (Config.maxClients (SSEService.config (this s))) ->
      Map_size (clients_of (run ops s))
      <= Z.max 0 (Config.maxClients (SSEService.config (this s))))
  /\ (timer_ok s -> timer_ok (run ops s))
  /\ (SSEService.heartbeatInterval (this s) = None ->
      SSEService.heartbeatInterval (this (run ops s)) = None).
Proof.
  revert s. induction ops as [|op ops IH]; intros s Hwf.
  - repeat split; auto.
  - rewrite run_cons.
    destruct (step_effect op s Hwf) as (Hc & Hsize & Htimer & Hnone).
    destruct (IH (step op s) (wf_step op s Hwf)) as (Hc' & Hsize' & Ht' & Hn').
    rewrite Hc in Hc', Hsize'. repeat split; auto.
    intros Hle. apply Hsize'. destruct Hsize as [Hsame|[Hlt Hone]]; lia.
Qed.

Lemma timer_ok_new config (w : W) : timer_ok (new_SSEService config w).
Proof. reflexivity. Qed.
End RunInvariants.


(** X6. The constructor starts the heartbeat timer; [cleanup] clears it and
    nothing starts it again. After a [cleanup] at any moment of the life of
    a service, whatever happens next, no heartbeat timer is live and a tick
    changes nothing: the clients registered afterwards are never pinged nor
    timed out. *)
Theorem heartbeat_never_restarts {W : Type} `{Host W}
    (config : option SSEServiceConfig.t) (w : W)
    (before after : list (Op W)) :
  let s := run after (exec cleanup (run before (new_SSEService config w))) in
  intervals (new_SSEService config w) = [1%nat]
  /\ SSEService.heartbeatInterval (this s) = None
  /\ intervals s = []
  /\ step IntervalFires s = s.
Proof.
  intros s. split; [reflexivity|].
  set (s0 := run before (new_SSEService config w)) in *.
  assert (wf s0) as Hwf0 by (apply wf_run, wf_new).
  assert (timer_ok s0) as Hok0.
  { apply (run_effect before _ (wf_new config w)), timer_ok_new. }
  destruct (cleanup_timer s0 Hok0) as [Hi Hh].
  assert (wf (exec cleanup s0)) as Hwf1 by (apply (wf_step CallCleanup), Hwf0).
  destruct (run_effect after (exec cleanup s0) Hwf1) as (_ & _ & Hok & Hnone).
  assert (SSEService.heartbeatInterval (this s) = None) as Hh'
    by (apply Hnone, Hh).
  assert (intervals s = []) as Hi'.
  { assert (timer_ok s) as Hoks.
    { apply Hok. unfold timer_ok. now rewrite Hi, Hh. }
    unfold timer_ok in Hoks. now rewrite Hh' in Hoks. }
  split; [exact Hh'|]. split; [exact Hi'|].
  cbn [step]. unfold fire_interval. now rewrite Hi'.
Qed.

(** ** The welcome of a new client *)

Section Welcome.
Context {W : Type} `{Host W}.
Implicit Types (s : State W) (k clientId : string) (c client : SSEClient.t).

(** The callback reads the clock twice, then sends. *)
Lemma connected_callback_eq clientId s :
  let now_w := Date_now (world s) in
  let iso_w := Date_toISOString (snd now_w) in
  connected_callback clientId s
  = bind (sendToClient clientId
            (connected_event clientId (fst now_w) (fst iso_w)))
         (fun _ => ret tt)
         (mkState (this s) (snd iso_w) (trace s) (timeouts s) (intervals s)).
Proof.
  cbv zeta. unfold connected_callback, connected_event.
  unfold bind at 1, host_call at 1.
  destruct (Date_now (world s)) as [now w1]. cbn [fst snd].
  unfold bind at 1, host_call at 1. cbn [world].
  destruct (Date_toISOString w1) as [iso w2]. reflexivity.
Qed.
End Welcome.

(** X7. The callback [addClient] leaves with [setTimeout] fires once. It
    makes calls on behalf of its own client only and leaves the others as
    they are; whatever it writes is the [connected] event with the id of the
    client and the time of the firing. If the client has been removed in the
    meantime, nothing is called and the service is unchanged; otherwise one
    write is tried on its controller, and a failed write removes the
    client. *)
Theorem connected_callback_welcomes {W : Type} `{Host W} (s : State W)
    (n : nat) (clientId : string) :
  nth_error (timeouts s) n = Some clientId ->
  let now := fst (Date_now (world s)) in
  let serverTime := fst (Date_toISOString (snd (Date_now (world s)))) in
  let chunk := formatSSEMessage (connected_event clientId now serverTime) in
  let s' := fire_timeout n s in
  timeouts s' = firstn n (timeouts s) ++ skipn (S n) (timeouts s)
  /\ (forall k, k <> clientId ->
        Map_get k (clients_of s') = Map_get k (clients_of s))
  /\ exists calls,
       trace s' = trace s ++ calls
       /\ (forall call, call ∈ calls -> call_client call = clientId)
       /\ enqueues_only (fun written => written = chunk) calls
       /\ (Map_get clientId (clients_of s) = None ->
           calls = [] /\ this s' = this s)
       /\ (forall client,
             NoDup (Map_keys (clients_of s)) ->
             Map_get clientId (clients_of s) = Some client ->
             exists sent,
               send_calls clientId (SSEClient.response client) chunk
                 (List.filter is_send calls) sent
               /\ (sent = false -> Map_get clientId (clients_of s') = None)
               /\ (sent = true ->
                   is_Some (Map_get clientId (clients_of s')))).
Proof.
  intros Hnth now serverTime chunk s'. subst s'. unfold fire_timeout.
  rewrite Hnth.
  set (s0 := mkState (this s) (world s) (trace s)
                     (firstn n (timeouts s) ++ skipn (S n) (timeouts s))
                     (intervals s)).
  unfold exec. rewrite (connected_callback_eq clientId s0).
  cbv zeta. cbn [world s0]. fold now serverTime.
  set (ev := connected_event clientId now serverTime).
  set (s2 := mkState (this s0) (snd (Date_toISOString (snd (Date_now (world s)))))
                     (trace s0) (timeouts s0) (intervals s0)).
  destruct (sendToClient_returns s2 clientId ev) as (sent & s3 & Heq & Hst).
  step_bind Heq. cbn [ret snd].
  destruct (steps_on_trace _ _ _ Hst) as (calls & Hcalls).
  split; [apply Hst|].
  split.
  { intros k Hk. apply (steps_on_get _ _ _ _ Hst).
    intros Hin. now apply list_elem_of_singleton in Hin. }
  exists calls. split; [exact Hcalls|]. split.
  { destruct Hst as (_ & _ & _ & _ & d & Hd & Htag). rewrite Hcalls in Hd.
    apply app_inv_head in Hd as <-. intros call Hin.
    now apply list_elem_of_singleton, Htag. }
  split; [exact (sendToClient_enqueues _ _ _ _ _ _ Heq Hcalls)|].
  split.
  - intros Hnone.
    rewrite (sendToClient_absent s2 clientId ev Hnone) in Heq.
    injection Heq as _ <-. cbn [trace s2 s0] in Hcalls.
    split; [|reflexivity].
    rewrite <- (app_nil_r (trace s)) in Hcalls at 1.
    now apply app_inv_head in Hcalls.
  - intros client Hnd Hget.
    destruct (sendToClient_send_calls s2 clientId client ev Hnd Hget)
      as (sent' & s3' & calls' & Heq' & Hcalls' & Hsend & Hf & Ht).
    rewrite Heq in Heq'. injection Heq' as <- <-.
    rewrite Hcalls in Hcalls'. apply app_inv_head in Hcalls' as <-.
    exists sent. auto.
Qed.

(** The welcome of the client of [one_client]. *)
Lemma connected_callback_welcomes_witness :
  timeouts (fire_timeout 0 one_client) = [].
Proof.
  destruct (connected_callback_welcomes one_client 0 "uuid-0") as (Ht & _);
    [reflexivity | exact Ht].
Defined.

(** ** Statistics, cleanup *)

Section Closing.
Context {W : Type} `{Host W}.
Implicit Types (s : State W) (k clientId : string) (c client : SSEClient.t).

Lemma getStats_eq s :
  exists stats,
    getStats s
    = (Ok stats,
       mkState (this s) (snd (Date_now (world s))) (trace s) (timeouts s)
               (intervals s))
    /\ SSEServiceStats.totalClients stats = Map_size (clients_of s)
    /\ SSEServiceStats.authenticatedClients stats
       = Z.of_nat (length (List.filter has_userId (Map_values (clients_of s))))
    /\ SSEServiceStats.anonymousClients stats
       = Z.of_nat (length (List.filter (fun c => negb (has_userId c))
                                      (Map_values (clients_of s)))).
Proof.
  unfold getStats, bind, host_call, get_this, ret.
  destruct (Date_now (world s)) as [now w]. cbn [this snd].
  eexists. split; [reflexivity|]. repeat split.
Qed.

Lemma calls_of_others ks s s' d k :
  steps_on ks s s' -> trace s' = trace s ++ d -> k ∉ ks -> calls_of k d = [].
Proof.
  intros Hst Hd Hk. pose proof (steps_on_calls _ _ _ _ Hst Hk) as Heq.
  rewrite Hd, calls_of_app in Heq.
  rewrite <- (app_nil_r (calls_of k (trace s))) in Heq at 2.
  now apply app_inv_head in Heq.
Qed.

(** A send to a registered client closes its controller if and only if it
    fails. *)
Lemma sendToClient_closes s k c event :
  NoDup (Map_keys (clients_of s)) ->
  Map_get k (clients_of s) = Some c ->
  exists sent s' calls,
    sendToClient k event s = (Ok sent, s')
    /\ trace s' = trace s ++ calls
    /\ (sent = true ->
        List.filter is_close calls = []
        /\ exists c', Map_get k (clients_of s') = Some c'
                      /\ SSEClient.response c' = SSEClient.response c)
    /\ (sent = false ->
        Map_get k (clients_of s') = None
        /\ exists r, List.filter is_close calls
                     = [mkCall k (SSEClient.response c) (Close r)]).
Proof.
  intros Hnd Hget.
  destruct (desiredSize (SSEClient.response c) (world s)) as [z|] eqn:Hsize.
  - destruct (enqueue (SSEClient.response c) (formatSSEMessage event) (world s))
      as [[[]|e] w] eqn:Henq.
    + eexists _, _, _.
      split; [apply (sendToClient_written _ _ _ _ _ _ Hget Hsize Henq)|].
      proj_simpl. split; [reflexivity|]. split; [|discriminate].
      intros _. split; [reflexivity|]. unfold clients_of. proj_simpl.
      rewrite Map_get_set_eq. eexists. split; [reflexivity|]. reflexivity.
    + eexists _, _, _.
      split; [apply (sendToClient_throws _ _ _ _ _ _ _ Hget Hsize Henq)|].
      proj_simpl. split; [reflexivity|]. split; [discriminate|].
      intros _. split.
      * unfold clients_of. proj_simpl. now apply Map_get_delete_eq.
      * eexists. reflexivity.
  - eexists _, _, _.
    split; [apply (sendToClient_closed _ _ _ _ Hget Hsize)|].
    proj_simpl. split; [reflexivity|]. split; [discriminate|].
    intros _. split.
    + unfold clients_of. proj_simpl. now apply Map_get_delete_eq.
    + eexists. reflexivity.
Qed.

(** [cleanup] on one registered client: its controller is closed once, by
    the failed send or by the removal. *)
Lemma cleanup_visit_closes k c s :
  NoDup (Map_keys (clients_of s)) ->
  Map_get k (clients_of s) = Some c ->
  exists s' calls r,
    cleanup_visit k s = (Ok tt, s') /\ steps_on [k] s s'
    /\ trace s' = trace s ++ calls
    /\ List.filter is_close calls = [mkCall k (SSEClient.response c) (Close r)].
Proof.
  intros Hnd Hget. unfold cleanup_visit.
  destruct (host_call_returns Date_now [k] s)
    as (s1 & Heq1 & _ & Hthis1 & Htr1 & Hst1).
  assert (clients_of s1 = clients_of s) as Hc1
    by (unfold clients_of; now rewrite Hthis1).
  rewrite <- Hc1 in Hnd, Hget.
  set (ev := shutdown_event (fst (Date_now (world s)))).
  destruct (sendToClient_closes s1 k c ev Hnd Hget)
    as (sent & s2 & d2 & Heq2 & Hd2 & Hsent & Hfail).
  destruct (sendToClient_returns s1 k ev) as (sent' & s2' & Heq2' & Hst2).
  rewrite Heq2 in Heq2'. injection Heq2' as <- <-.
  assert (cleanup_visit k s = bind (removeClient k) (fun _ => ret tt) s2)
    as Hcv.
  { unfold cleanup_visit, bind at 1, try_catch. step_bind Heq1.
    fold (shutdown_event (Date_now (world s)).1). fold ev.
    step_bind Heq2. reflexivity. }
  fold (cleanup_visit k). rewrite Hcv.
  destruct sent.
  - destruct (Hsent eq_refl) as (Hnone & c' & Hget2 & Hresp).
    rewrite (bind_eq _ _ _ _ _ (removeClient_present s2 k c' Hget2)).
    eexists _, _, _. split; [reflexivity|]. split; [|split].
    + eapply steps_on_trans; [exact Hst1|].
      eapply steps_on_trans; [exact Hst2|].
      apply steps_on_deleted. intros call Hin.
      apply list_elem_of_singleton in Hin. now subst call.
    + proj_simpl. rewrite Hd2, Htr1, <- app_assoc. reflexivity.
    + rewrite List.filter_app, Hnone, Hresp. reflexivity.
  - destruct (Hfail eq_refl) as (Hgone & r & Hclose).
    rewrite (bind_eq _ _ _ _ _ (removeClient_absent s2 k Hgone)).
    exists s2, d2, r. split; [reflexivity|]. split; [|split].
    + eapply steps_on_trans; eassumption.
    + now rewrite Hd2, Htr1.
    + exact Hclose.
Qed.

Lemma forEach_cleanup_closes ks s :
  NoDup ks -> NoDup (Map_keys (clients_of s)) ->
  (forall k, k ∈ ks -> k ∈ Map_keys (clients_of s)) ->
  exists s' calls,
    Array_forEach ks cleanup_visit s = (Ok tt, s') /\ steps_on ks s s'
    /\ trace s' = trace s ++ calls
    /\ (forall k c, k ∈ ks -> Map_get k (clients_of s) = Some c ->
          exists r, List.filter is_close (calls_of k calls)
                    = [mkCall k (SSEClient.response c) (Close r)]).
Proof.
  revert s. induction ks as [|k ks IH]; intros s Hks Hnd Hreg.
  - exists s, []. split; [reflexivity|]. split; [apply steps_on_refl|].
    split; [now rewrite app_nil_r|].
    intros k c Hk. now apply elem_of_nil in Hk.
  - apply NoDup_cons in Hks as [Hk Hks]. cbn [Array_forEach].
    destruct (Map_get_In _ k (Hreg k ltac:(apply elem_of_cons; now left)))
      as (c & Hget).
    destruct (cleanup_visit_closes k c s Hnd Hget)
      as (s1 & d1 & r & Heq1 & Hst1 & Hd1 & Hclose).
    step_bind Heq1.
    assert (forall x, x ∈ ks -> x ∉ [k]) as Hne.
    { intros x Hx Heq. apply list_elem_of_singleton in Heq as ->.
      contradiction. }
    destruct (IH s1 Hks (steps_on_NoDup _ _ _ Hst1 Hnd))
      as (s2 & d2 & Heq2 & Hst2 & Hd2 & Hrest).
    { intros x Hx.
      assert (x ∈ Map_keys (clients_of s)) as Hx'
        by (apply Hreg, elem_of_cons; now right).
      apply Map_get_In in Hx' as (cx & Hgx).
      rewrite <- (steps_on_get _ _ _ _ Hst1 (Hne x Hx)) in Hgx.
      eapply Map_get_Some_In, Hgx. }
    exists s2, (d1 ++ d2). split; [exact Heq2|]. split; [|split].
    + eapply steps_on_cons; eassumption.
    + rewrite Hd2, Hd1. now rewrite app_assoc.
    + intros x cx Hx Hgx. rewrite calls_of_app.
      apply elem_of_cons in Hx as [->|Hx].
      * rewrite Hget in Hgx. injection Hgx as <-.
        rewrite (calls_of_others _ _ _ _ _ Hst2 Hd2 Hk), app_nil_r.
        destruct Hst1 as (_ & _ & _ & _ & d & Hd & Htag).
        rewrite Hd1 in Hd. apply app_inv_head in Hd as <-.
        rewrite (calls_of_own _ _ Htag). now exists r.
      * rewrite (calls_of_others _ _ _ _ _ Hst1 Hd1 (Hne x Hx)).
        rewrite <- (steps_on_get _ _ _ _ Hst1 (Hne x Hx)) in Hgx.
        apply (Hrest x cx Hx Hgx).
Qed.
End Closing.

(** X8. [getStats] reads the clock and nothing else: the service and the
    calls made so far are as before. It counts every registered client once:
    [totalClients] is the number of ids, and it is the sum of
    [authenticatedClients] and [anonymousClients]. *)
Theorem getStats_partitions {W : Type} `{Host W} (s : State W) :
  exists stats,
    getStats s = (Ok stats, exec getStats s)
    /\ this (exec getStats s) = this s
    /\ trace (exec getStats s) = trace s
    /\ SSEServiceStats.totalClients stats
       = Z.of_nat (length (Map_keys (clients_of s)))
    /\ SSEServiceStats.totalClients stats
       = SSEServiceStats.authenticatedClients stats
         + SSEServiceStats.anonymousClients stats
    /\ 0 <= SSEServiceStats.authenticatedClients stats
    /\ 0 <= SSEServiceStats.anonymousClients stats.
Proof.
  destruct (getStats_eq s) as (stats & Heq & Htot & Hauth & Hanon).
  exists stats. unfold exec. rewrite Heq. cbn [snd this trace].
  split; [reflexivity|]. split; [reflexivity|]. split; [reflexivity|].
  split; [rewrite Htot; apply Map_size_keys|].
  rewrite Htot, Hauth, Hanon.
  pose proof (List.filter_length has_userId (Map_values (clients_of s))) as Hp.
  assert (length (Map_values (clients_of s)) = length (clients_of s)) as Hl
    by apply length_fmap.
  unfold Map_size. lia.
Qed.

(** X9. [cleanup] returns and leaves the Map empty, and it closes the
    controller of every registered client exactly once, whether the farewell
    could be written or not; every call it makes is on behalf of a client
    that was registered. *)
Theorem cleanup_closes_every_client {W : Type} `{Host W} (s : State W) :
  NoDup (Map_keys (clients_of s)) ->
  cleanup s = (Ok tt, exec cleanup s)
  /\ clients_of (exec cleanup s) = []
  /\ (forall call, call ∈ new_calls cleanup s ->
        call_client call ∈ Map_keys (clients_of s))
  /\ (forall k c,
        Map_get k (clients_of s) = Some c ->
        exists r,
          List.filter is_close (calls_of k (new_calls cleanup s))
          = [mkCall k (SSEClient.response c) (Close r)]).
Proof.
  intros Hnd.
  destruct (cleanup_returns s) as (s' & Heq & _ & _ & _ & _ & _ & _ & Hempty).
  unfold exec at 1 2. rewrite Heq. cbn [snd].
  split; [reflexivity|]. split; [now apply Hempty|].
  destruct (stop_heartbeat_returns s) as (s0 & Heq0 & Hc0 & Ht0 & _).
  assert (NoDup (Map_keys (clients_of s0))) as Hnd0 by now rewrite Hc0.
  destruct (forEach_cleanup_closes (Map_keys (clients_of s0)) s0 Hnd0 Hnd0)
    as (s1 & d & Heq1 & Hst & Hd & Hall); [auto|].
  assert (new_calls cleanup s = d) as ->.
  { apply new_calls_app. unfold exec, cleanup. step_bind Heq0.
    unfold bind at 1, get_this at 1. cbn [this]. fold (clients_of s0).
    rewrite Heq1. cbn [snd]. now rewrite Hd, Ht0. }
  split.
  - destruct Hst as (_ & _ & _ & _ & d' & Hd' & Htag).
    rewrite Hd in Hd'. apply app_inv_head in Hd' as <-.
    intros call Hin. rewrite <- Hc0. now apply Htag.
  - intros k c Hget. rewrite <- Hc0 in Hget.
    apply (Hall k c); [|exact Hget]. eapply Map_get_Some_In, Hget.
Qed.

(** [cleanup] on three clients. *)
Lemma cleanup_closes_every_client_witness :
  clients_of (exec cleanup three_clients) = [].
Proof.
  destruct (cleanup_closes_every_client three_clients) as (_ & Hempty & _);
    [apply (bool_decide_unpack _); vm_compute; exact I | exact Hempty].
Defined.

(** ** The procedures of the router *)

Section RouterFacts.
Context {W : Type} `{Host W}.
Implicit Types (s : State W) (k clientId : string) (c client : SSEClient.t).

Lemma sendTo_each_returns ids event s :
  exists sent s', sendTo_each ids event s = (Ok sent, s') /\ steps_on ids s s'.
Proof.
  revert s. induction ids as [|k ids IH]; intros s.
  - exists [], s. split; [reflexivity|apply steps_on_refl].
  - cbn [sendTo_each].
    destruct (sendToClient_returns s k event) as (b & s1 & Heq1 & Hst1).
    destruct (IH s1) as (bs & s2 & Heq2 & Hst2).
    exists (b :: bs), s2. split.
    + step_bind Heq1. step_bind Heq2. reflexivity.
    + eapply steps_on_cons; eassumption.
Qed.

Lemma sendTo_each_enqueues ids event s sent s' calls :
  sendTo_each ids event s = (Ok sent, s') ->
  trace s' = trace s ++ calls ->
  enqueues_only (fun chunk => chunk = formatSSEMessage event) calls.
Proof.
  revert s sent s' calls. induction ids as [|k ids IH]; intros s sent s' calls.
  - cbn. intros [= _ <-] Htr.
    rewrite <- (app_nil_r (trace s)) in Htr at 1.
    apply app_inv_head in Htr as <-. apply enqueues_only_nil.
  - cbn [sendTo_each].
    destruct (sendToClient_returns s k event) as (b & s1 & Heq1 & Hst1).
    destruct (sendTo_each_returns ids event s1) as (bs & s2 & Heq2 & Hst2).
    step_bind Heq1. step_bind Heq2. intros [= _ <-] Htr.
    destruct (steps_on_trace _ _ _ Hst1) as (d1 & Hd1).
    destruct (steps_on_trace _ _ _ Hst2) as (d2 & Hd2).
    rewrite Hd2, Hd1, <- app_assoc in Htr. apply app_inv_head in Htr as <-.
    apply enqueues_only_app.
    + eapply sendToClient_enqueues; eassumption.
    + eapply IH; eassumption.
Qed.
(** [sendToUser], summed up. *)
Lemma sendToUser_summary userId event s :
  NoDup (Map_keys (clients_of s)) ->
  exists n s' calls,
    sendToUser userId event s = (Ok n, s')
    /\ steps_on (Map_keys (clients_of s)) s s'
    /\ trace s' = trace s ++ calls
    /\ (forall k, (exists call, call ∈ calls /\ call_client call = k)
                  <-> exists c, Map_get k (clients_of s) = Some c
                                /\ SSEClient.userId c = Some userId)
    /\ n = Z.of_nat (length (List.filter is_written calls))
    /\ 0 <= n <= Map_size (clients_of s)
    /\ enqueues_only (fun chunk => chunk = formatSSEMessage event) calls.
Proof.
  intros Hnd.
  set (ids := List.filter (is_target userId s) (Map_keys (clients_of s))).
  assert (forall k, k ∈ ids -> k ∈ Map_keys (clients_of s)) as Hsub.
  { intros k. subst ids. rewrite !list_elem_of_In, filter_In. tauto. }
  destruct (sendTo_each_summary ids event s)
    as (n & s' & calls & Heq & Hst & Htr & Hwho & Hn & Hle).
  { now apply NoDup_filter_keys. }
  { exact Hsub. }
  exists n, s', calls.
  split; [|split; [|split; [exact Htr|split; [|split; [exact Hn|split]]]]].
  - rewrite (sendToUser_eq_resolved _ _ _ Hnd). unfold sendToUser_resolved.
    rewrite (bind_eq _ _ _ _ _ (getClientsByUser_eq userId s)). exact Heq.
  - eapply steps_on_mono, Hst. exact Hsub.
  - intros k. rewrite Hwho. apply is_target_iff.
  - split; [lia|]. destruct Hle as [_ Hle]. etransitivity; [exact Hle|].
    rewrite Map_size_keys. apply inj_le. subst ids. apply List.filter_length_le.
  - destruct (sendTo_each_returns ids event s) as (sent & s1 & Heq1 & _).
    rewrite (bind_eq _ _ _ _ _ Heq1) in Heq. injection Heq as _ <-.
    eapply sendTo_each_enqueues; eassumption.
Qed.

(** What [broadcast] writes. *)
Lemma broadcast_enqueues event exclude s n s' calls :
  NoDup (Map_keys (clients_of s)) ->
  broadcast event exclude s = (Ok n, s') ->
  trace s' = trace s ++ calls ->
  enqueues_only (fun chunk => chunk = formatSSEMessage event) calls.
Proof.
  intros Hnd Heq Htr.
  rewrite (broadcast_eq_resolved _ _ _ Hnd) in Heq.
  unfold broadcast_resolved in Heq.
  rewrite (bind_eq _ _ _ _ _ (getActiveClients_eq s)) in Heq.
  match type of Heq with
  | context [sendTo_each ?ids event] =>
      destruct (sendTo_each_returns ids event s) as (sent & s1 & Heq1 & _)
  end.
  rewrite (bind_eq _ _ _ _ _ Heq1) in Heq. injection Heq as _ <-.
  eapply sendTo_each_enqueues; eassumption.
Qed.

(** The result of a send to a registered client is whether the write
    succeeds. *)
Lemma sendToClient_result s k c event :
  Map_get k (clients_of s) = Some c ->
  result (sendToClient k event) s
  = Ok (write_succeeds (SSEClient.response c) (formatSSEMessage event)
                       (world s)).
Proof.
  intros Hget. unfold result, write_succeeds.
  destruct (desiredSize (SSEClient.response c) (world s)) as [z|] eqn:Hsize.
  - destruct (enqueue (SSEClient.response c) (formatSSEMessage event) (world s))
      as [[[]|e] w] eqn:Henq.
    + now rewrite (sendToClient_written _ _ _ _ _ _ Hget Hsize Henq).
    + now rewrite (sendToClient_throws _ _ _ _ _ _ _ Hget Hsize Henq).
  - now rewrite (sendToClient_closed _ _ _ _ Hget Hsize).
Qed.

(** A procedure draws the id of its event first. *)
Lemma randomUUID_first {A} (k : string -> M W A) s :
  bind (host_call randomUUID) k s
  = k (fst (randomUUID (world s)))
      (mkState (this s) (snd (randomUUID (world s))) (trace s) (timeouts s)
               (intervals s)).
Proof.
  unfold bind at 1, host_call. now destruct (randomUUID (world s)).
Qed.
End RouterFacts.

(** X10. The procedure [sendToUser] of the router addresses the user given
    in its input, and the user of the session if the input names none or
    names the empty string. Calls are made on behalf of exactly the clients
    registered for that user; whatever is written is the event of the input
    under a fresh id; [sentCount] is the number of writes that succeeded and
    [success] tells whether there was one. *)
Theorem sseRouter_sendToUser_targets {W : Type} `{Host W} (s : State W)
    (session_user : string) (userId : option string) (event : string)
    (data : JSON) :
  NoDup (Map_keys (clients_of s)) ->
  let target := or_string userId session_user in
  let chunk :=
    formatSSEMessage
      (SSEEvent.mk (Some (fst (randomUUID (world s)))) event data None) in
  let calls :=
    new_calls (sseRouter_sendToUser session_user userId event data) s in
  (userId = None \/ userId = Some EmptyString -> target = session_user)
  /\ (forall u, userId = Some u -> u <> EmptyString -> target = u)
  /\ (forall k,
        (exists call, call ∈ calls /\ call_client call = k)
        <-> exists c, Map_get k (clients_of s) = Some c
                      /\ SSEClient.userId c = Some target)
  /\ enqueues_only (fun written => written = chunk) calls
  /\ exists r,
       result (sseRouter_sendToUser session_user userId event data) s = Ok r
       /\ CountResult.sentCount r
          = Z.of_nat (length (List.filter is_written calls))
       /\ (CountResult.success r = true <-> 0 < CountResult.sentCount r)
       /\ CountResult.message r
          = "Event sent to " +:+ Number_toString (CountResult.sentCount r)
            +:+ " client(s)".
Proof.
  intros Hnd target chunk calls.
  split; [intros [->| ->]; reflexivity|].
  split; [intros u -> Hu; destruct u; [contradiction|reflexivity]|].
  set (s1 := mkState (this s) (snd (randomUUID (world s))) (trace s)
                     (timeouts s) (intervals s)).
  set (ev := SSEEvent.mk (Some (fst (randomUUID (world s)))) event data None).
  destruct (sendToUser_summary target ev s1 Hnd)
    as (n & s' & d & Heq & _ & Htr & Hwho & Hn & _ & Henq).
  assert (sseRouter_sendToUser session_user userId event data s
          = (Ok (CountResult.mk (n >? 0) n
                   ("Event sent to " +:+ Number_toString n +:+ " client(s)")),
             s')) as Hrun.
  { unfold sseRouter_sendToUser. rewrite randomUUID_first.
    fold s1 ev target. step_bind Heq. reflexivity. }
  assert (calls = d) as ->.
  { subst calls. apply new_calls_app. now rewrite (exec_eq _ _ _ _ Hrun). }
  split; [exact Hwho|]. split; [exact Henq|].
  eexists. unfold result. rewrite Hrun. split; [reflexivity|].
  cbn [CountResult.sentCount CountResult.success CountResult.message].
  split; [exact Hn|]. split; [|reflexivity].
  rewrite Z.gtb_ltb. apply Z.ltb_lt.
Qed.

(** The session user [u1] sends to their own clients. *)
Lemma sseRouter_sendToUser_targets_witness :
  or_string None "u1" = "u1".
Proof.
  destruct (sseRouter_sendToUser_targets three_clients "u1" None "update"
              JNull) as (Hfallback & _).
  - apply (bool_decide_unpack _). vm_compute. exact I.
  - apply Hfallback. now left.
Defined.

(** X11. The procedure [sendToClient] of the router returns normally. For
    an id that is not registered it answers [success: false] with the
    message "Client not found or unreachable", calls no controller and leaves
    the service as it is. For a registered client [success] tells whether
    the write of the event, under a fresh id, succeeded; the same message
    reports a failed write, which has removed the client. *)
Theorem sseRouter_sendToClient_reports {W : Type} `{Host W} (s : State W)
    (clientId event : string) (data : JSON) :
  let w := snd (randomUUID (world s)) in
  let chunk :=
    formatSSEMessage
      (SSEEvent.mk (Some (fst (randomUUID (world s)))) event data None) in
  let s' := exec (sseRouter_sendToClient clientId event data) s in
  exists r,
    sseRouter_sendToClient clientId event data s = (Ok r, s')
    /\ SendResult.message r
       = (if SendResult.success r then "Event sent successfully"
          else "Client not found or unreachable")
    /\ (Map_get clientId (clients_of s) = None ->
        SendResult.success r = false
        /\ this s' = this s /\ trace s' = trace s)
    /\ (forall client,
          NoDup (Map_keys (clients_of s)) ->
          Map_get clientId (clients_of s) = Some client ->
          SendResult.success r
          = write_succeeds (SSEClient.response client) chunk w
          /\ (SendResult.success r = false ->
              Map_get clientId (clients_of s') = None)
          /\ (SendResult.success r = true ->
              is_Some (Map_get clientId (clients_of s')))).
Proof.
  intros w chunk s'. subst s'.
  set (s1 := mkState (this s) w (trace s) (timeouts s) (intervals s)).
  set (ev := SSEEvent.mk (Some (fst (randomUUID (world s)))) event data None).
  destruct (sendToClient_returns s1 clientId ev) as (sent & s2 & Heq & _).
  assert (sseRouter_sendToClient clientId event data s
          = (Ok (SendResult.mk sent
                   (if sent then "Event sent successfully"
                    else "Client not found or unreachable")), s2)) as Hrun.
  { unfold sseRouter_sendToClient. rewrite randomUUID_first.
    fold w s1 ev. step_bind Heq. reflexivity. }
  eexists. rewrite (exec_eq _ _ _ _ Hrun). split; [exact Hrun|].
  cbn [SendResult.message SendResult.success].
  split; [reflexivity|]. split.
  - intros Hnone. rewrite (sendToClient_absent s1 clientId ev Hnone) in Heq.
    injection Heq as <- <-. auto.
  - intros client Hnd Hget.
    pose proof (sendToClient_result s1 clientId client ev Hget) as Hres.
    unfold result in Hres. rewrite Heq in Hres. injection Hres as ->.
    destruct (sendToClient_send_calls s1 clientId client ev Hnd Hget)
      as (sent' & s2' & calls & Heq' & _ & _ & Hf & Ht).
    rewrite Heq in Heq'. injection Heq' as Hs <-. rewrite <- Hs in Hf, Ht.
    auto.
Qed.

(** The answer to an id that is not registered. *)
Lemma sseRouter_sendToClient_reports_witness :
  result (sseRouter_sendToClient "uuid-9" "update" JNull) one_client
  = Ok (SendResult.mk false "Client not found or unreachable").
Proof.
  destruct (sseRouter_sendToClient_reports one_client "uuid-9" "update" JNull)
    as (r & Heq & Hmsg & Hnone & _).
  unfold result. rewrite Heq. cbn [fst]. destruct r as [success message].
  cbn [SendResult.success SendResult.message] in *.
  destruct Hnone as (-> & _); [reflexivity|]. now rewrite Hmsg.
Defined.

(** X12. The procedure [broadcast] of the router makes calls on behalf of
    exactly the registered clients other than the excluded one; whatever is
    written is the event of the input under a fresh id; [sentCount] is the
    number of writes that succeeded, at most the number of connections, and
    [success] tells whether there was one. *)
Theorem sseRouter_broadcast_reaches {W : Type} `{Host W} (s : State W)
    (excludeClientId : option string) (event : string) (data : JSON) :
  NoDup (Map_keys (clients_of s)) ->
  let chunk :=
    formatSSEMessage
      (SSEEvent.mk (Some (fst (randomUUID (world s)))) event data None) in
  let calls := new_calls (sseRouter_broadcast excludeClientId event data) s in
  (forall k,
     (exists call, call ∈ calls /\ call_client call = k)
     <-> k ∈ Map_keys (clients_of s) /\ Some k <> excludeClientId)
  /\ enqueues_only (fun written => written = chunk) calls
  /\ exists r,
       result (sseRouter_broadcast excludeClientId event data) s = Ok r
       /\ CountResult.sentCount r
          = Z.of_nat (length (List.filter is_written calls))
       /\ 0 <= CountResult.sentCount r <= Map_size (clients_of s)
       /\ (CountResult.success r = true <-> 0 < CountResult.sentCount r)
       /\ CountResult.message r
          = "Event broadcast to "
            +:+ Number_toString (CountResult.sentCount r) +:+ " client(s)".
Proof.
  intros Hnd chunk calls.
  set (s1 := mkState (this s) (snd (randomUUID (world s))) (trace s)
                     (timeouts s) (intervals s)).
  set (ev := SSEEvent.mk (Some (fst (randomUUID (world s)))) event data None).
  destruct (broadcast_summary ev excludeClientId s1 Hnd)
    as (n & s' & d & Heq & _ & Htr & Hwho & Hn & Hle).
  assert (sseRouter_broadcast excludeClientId event data s
          = (Ok (CountResult.mk (n >? 0) n
                   ("Event broadcast to " +:+ Number_toString n
                    +:+ " client(s)")),
             s')) as Hrun.
  { unfold sseRouter_broadcast. rewrite randomUUID_first.
    fold s1 ev. step_bind Heq. reflexivity. }
  assert (calls = d) as ->.
  { subst calls. apply new_calls_app. now rewrite (exec_eq _ _ _ _ Hrun). }
  split; [|split].
  - intros k. rewrite Hwho. change (clients_of s1) with (clients_of s).
    unfold is_excluded. destruct excludeClientId as [x|].
    + rewrite String.eqb_neq. split; intros [Hk Hne]; (split; [exact Hk|]);
        congruence.
    + split; intros [Hk _]; (split; [exact Hk|]); [discriminate|reflexivity].
  - exact (broadcast_enqueues ev excludeClientId s1 n s' d Hnd Heq Htr).
  - eexists. unfold result. rewrite Hrun. split; [reflexivity|].
    cbn [CountResult.sentCount CountResult.success CountResult.message].
    split; [exact Hn|]. split; [exact Hle|]. split; [|reflexivity].
    rewrite Z.gtb_ltb. apply Z.ltb_lt.
Qed.

(** A broadcast to three clients, one of them excluded. *)
Lemma sseRouter_broadcast_reaches_witness :
  enqueues_only
    (fun written =>
       written
       = formatSSEMessage (SSEEvent.mk (Some "uuid-3") "update" JNull None))
    (new_calls (sseRouter_broadcast (Some "uuid-1") "update" JNull)
               three_clients).
Proof.
  destruct (sseRouter_broadcast_reaches three_clients (Some "uuid-1") "update"
              JNull) as (_ & Henq & _).
  - apply (bool_decide_unpack _). vm_compute. exact I.
  - exact Henq.
Defined.

(** X13. The queries of the router change nothing in the service and call
    no controller. [getActiveClients] answers the registered ids and their
    number; [getClientsByUser] answers, for the user of its input or, by
    default, of the session, exactly the ids registered for that user, with
    their number; [healthCheck] answers "healthy" with the statistics, whose
    [totalClients] is the number of connections. *)
Theorem sseRouter_queries {W : Type} `{Host W} (s : State W)
    (session_user : string) (userId : option string) :
  let target := or_string userId session_user in
  (exists r,
     sseRouter_getActiveClients s = (Ok r, s)
     /\ ClientsResult.clients r = Map_keys (clients_of s)
     /\ ClientsResult.count r = Map_size (clients_of s))
  /\ (exists r,
        sseRouter_getClientsByUser session_user userId s = (Ok r, s)
        /\ ClientsResult.userId r = Some target
        /\ ClientsResult.count r = Z.of_nat (length (ClientsResult.clients r))
        /\ ClientsResult.count r <= Map_size (clients_of s)
        /\ (forall k,
              k ∈ ClientsResult.clients r
              <-> exists c, Map_get k (clients_of s) = Some c
                            /\ SSEClient.userId c = Some target))
  /\ (exists h,
        sseRouter_healthCheck s
        = (Ok h, exec sseRouter_healthCheck s)
        /\ this (exec sseRouter_healthCheck s) = this s
        /\ trace (exec sseRouter_healthCheck s) = trace s
        /\ HealthResult.status h = "healthy"
        /\ SSEServiceStats.totalClients (HealthResult.stats h)
           = Map_size (clients_of s)).
Proof.
  intros target. split; [|split].
  - eexists. split; [reflexivity|]. cbn [ClientsResult.clients ClientsResult.count].
    split; [reflexivity|]. fold (clients_of s). symmetry. apply Map_size_keys.
  - eexists. split.
    + unfold sseRouter_getClientsByUser. fold target.
      rewrite (bind_eq _ _ _ _ _ (getClientsByUser_eq target s)). reflexivity.
    + cbn [ClientsResult.clients ClientsResult.count ClientsResult.userId].
      split; [reflexivity|]. split; [reflexivity|]. split.
      * rewrite Map_size_keys. apply inj_le, List.filter_length_le.
      * apply is_target_iff.
  - destruct (getStats_eq s) as (stats & Heq & Htot & _).
    unfold exec, sseRouter_healthCheck. step_bind Heq.
    unfold bind, host_call, ret. cbn [world].
    destruct (Date_toISOString _) as [iso w']. cbn [snd this trace].
    eexists. split; [reflexivity|]. split; [reflexivity|].
    split; [reflexivity|]. split; [reflexivity|]. exact Htot.
Qed.

(** ** The rate limiter of the broadcast route *)

Section RateLimit.
Implicit Types (m : list (string * RateLimitEntry.t)) (ip clientIP : string)
  (l limit : RateLimitEntry.t).

Lemma rate_limit_fresh now ip m :
  match Map_get ip m with
  | Some l => RateLimitEntry.resetTime l <= now
  | None => True
  end ->
  rate_limit now ip m
  = (true, Map_set ip (RateLimitEntry.mk 1 (now + RATE_WINDOW)) m).
Proof.
  unfold rate_limit. destruct (Map_get ip m) as [l|]; [|reflexivity].
  intros Hle. destruct (Z.ltb_spec now (RateLimitEntry.resetTime l)); [lia|].
  reflexivity.
Qed.

Lemma rate_limit_counted now ip m l :
  Map_get ip m = Some l ->
  now < RateLimitEntry.resetTime l ->
  RateLimitEntry.count l < RATE_LIMIT ->
  rate_limit now ip m
  = (true,
     Map_set ip (RateLimitEntry.mk (RateLimitEntry.count l + 1)
                                   (RateLimitEntry.resetTime l)) m).
Proof.
  intros Hget Hlive Hroom. unfold rate_limit. rewrite Hget.
  destruct (Z.ltb_spec now (RateLimitEntry.resetTime l)); [|lia].
  destruct (Z.geb_spec (RateLimitEntry.count l) RATE_LIMIT); [lia|].
  reflexivity.
Qed.

Lemma rate_limit_refused now ip m l :
  Map_get ip m = Some l ->
  now < RateLimitEntry.resetTime l ->
  RATE_LIMIT <= RateLimitEntry.count l ->
  rate_limit now ip m = (false, m).
Proof.
  intros Hget Hlive Hfull. unfold rate_limit. rewrite Hget.
  destruct (Z.ltb_spec now (RateLimitEntry.resetTime l)); [|lia].
  destruct (Z.geb_spec (RateLimitEntry.count l) RATE_LIMIT); [|lia].
  reflexivity.
Qed.

(** The three cases of the limiter. *)
Lemma rate_limit_cases now ip m :
  (rate_limit now ip m
   = (true, Map_set ip (RateLimitEntry.mk 1 (now + RATE_WINDOW)) m)
   /\ match Map_get ip m with
      | Some l => RateLimitEntry.resetTime l <= now
      | None => True
      end)
  \/ (exists l,
        Map_get ip m = Some l /\ now < RateLimitEntry.resetTime l
        /\ RateLimitEntry.count l < RATE_LIMIT
        /\ rate_limit now ip m
           = (true,
              Map_set ip (RateLimitEntry.mk (RateLimitEntry.count l + 1)
                                            (RateLimitEntry.resetTime l)) m))
  \/ (exists l,
        Map_get ip m = Some l /\ now < RateLimitEntry.resetTime l
        /\ RATE_LIMIT <= RateLimitEntry.count l
        /\ rate_limit now ip m = (false, m)).
Proof.
  destruct (Map_get ip m) as [l|] eqn:Hget.
  - destruct (Z.lt_ge_cases now (RateLimitEntry.resetTime l)) as [Hlive|Hdead].
    + destruct (Z.lt_ge_cases (RateLimitEntry.count l) RATE_LIMIT)
        as [Hroom|Hfull].
      * right. left. exists l.
        split; [reflexivity|]. split; [exact Hlive|]. split; [exact Hroom|].
        now apply (rate_limit_counted _ _ _ l).
      * right. right. exists l.
        split; [reflexivity|]. split; [exact Hlive|]. split; [exact Hfull|].
        now apply (rate_limit_refused _ _ _ l).
    + left. split; [|exact Hdead]. apply rate_limit_fresh. now rewrite Hget.
  - left. split; [|exact I]. apply rate_limit_fresh. now rewrite Hget.
Qed.

(** Requests of an address while its entry is live: those the count leaves
    room for are allowed, the others refused. *)
Lemma rate_limit_all_live ip times m l :
  Map_get ip m = Some l ->
  Forall (fun t => t < RateLimitEntry.resetTime l) times ->
  rate_limit_all ip times m
  = replicate (Nat.min (Z.to_nat (RATE_LIMIT - RateLimitEntry.count l))
                       (length times)) true
    ++ replicate (length times
                  - Z.to_nat (RATE_LIMIT - RateLimitEntry.count l)) false.
Proof.
  revert m l. induction times as [|t times IH]; intros m l Hget Hlive.
  - now rewrite Nat.min_0_r.
  - apply Forall_cons in Hlive as [Ht Hlive]. cbn [rate_limit_all length].
    destruct (Z.lt_ge_cases (RateLimitEntry.count l) RATE_LIMIT)
      as [Hroom|Hfull].
    + rewrite (rate_limit_counted _ _ _ _ Hget Ht Hroom).
      rewrite (IH _ (RateLimitEntry.mk (RateLimitEntry.count l + 1)
                                       (RateLimitEntry.resetTime l)));
        [|apply Map_get_set_eq|exact Hlive].
      cbn [RateLimitEntry.count].
      replace (Z.to_nat (RATE_LIMIT - RateLimitEntry.count l))
        with (S (Z.to_nat (RATE_LIMIT - (RateLimitEntry.count l + 1))))
        by lia.
      reflexivity.
    + rewrite (rate_limit_refused _ _ _ _ Hget Ht Hfull).
      rewrite (IH m l Hget Hlive).
      replace (Z.to_nat (RATE_LIMIT - RateLimitEntry.count l)) with 0%nat
        by lia.
      cbn [Nat.min replicate app]. now rewrite Nat.sub_0_r.
Qed.
End RateLimit.

(** X14. An address that has no entry in the limiter, or an expired one,
    opens a window of [RATE_WINDOW] milliseconds with its request. Of that
    request and those that follow before the window ends, the first ten are
    allowed and all the others are refused. *)
Theorem rate_limit_window (clientIP : string) (t0 : Z) (times : list Z)
    (m : list (string * RateLimitEntry.t)) :
  match Map_get clientIP m with
  | Some limit => RateLimitEntry.resetTime limit <= t0
  | None => True
  end ->
  Forall (fun t => t < t0 + RATE_WINDOW) times ->
  rate_limit_all clientIP (t0 :: times) m
  = replicate (Nat.min 10 (S (length times))) true
    ++ replicate (S (length times) - 10) false.
Proof.
  intros Hfresh Hin. cbn [rate_limit_all].
  rewrite (rate_limit_fresh _ _ _ Hfresh).
  rewrite (rate_limit_all_live clientIP times _
             (RateLimitEntry.mk 1 (t0 + RATE_WINDOW)));
    [|apply Map_get_set_eq|exact Hin].
  reflexivity.
Qed.

(** Twelve requests within a minute. *)
Lemma rate_limit_window_witness :
  rate_limit_all "10.0.0.1" [0; 1; 2; 3; 4; 5; 6; 7; 8; 9; 10; 59999] []
  = [true; true; true; true; true; true; true; true; true; true;
     false; false].
Proof.
  apply (rate_limit_window "10.0.0.1" 0 [1; 2; 3; 4; 5; 6; 7; 8; 9; 10; 59999]
           []).
  - exact I.
  - repeat constructor.
Defined.

(** ** The sweep of the limiter *)

Section SweepFacts.
Context {V : Type}.
Implicit Types (m pre : list (string * V)) (k : string) (v : V).

Lemma Map_get_app_r pre m k :
  k ∉ Map_keys pre -> Map_get k (pre ++ m) = Map_get k m.
Proof.
  unfold Map_keys. induction pre as [|[k' v'] pre IH]; csimpl; [reflexivity|].
  intros Hk. apply not_elem_of_cons in Hk as [Hne Hk].
  destruct (String.eqb_spec k' k); [congruence|]. now apply IH.
Qed.

Lemma Map_delete_app_r pre m k :
  k ∉ Map_keys pre -> Map_delete k (pre ++ m) = pre ++ Map_delete k m.
Proof.
  unfold Map_keys. induction pre as [|[k' v'] pre IH]; csimpl; [reflexivity|].
  intros Hk. apply not_elem_of_cons in Hk as [Hne Hk].
  destruct (String.eqb_spec k' k); [congruence|]. f_equal. now apply IH.
Qed.

Lemma Map_keys_app pre m : Map_keys (pre ++ m) = Map_keys pre ++ Map_keys m.
Proof. apply fmap_app. Qed.

Lemma Map_keys_filter (f : string * V -> bool) m k :
  k ∈ Map_keys (List.filter f m) -> k ∈ Map_keys m.
Proof.
  unfold Map_keys. intros Hk. apply list_elem_of_fmap in Hk as ([k' v] & -> & Hin).
  apply list_elem_of_In, filter_In in Hin as [Hin _].
  apply list_elem_of_fmap. exists (k', v). split; [reflexivity|].
  now apply list_elem_of_In.
Qed.

Lemma Map_filter_NoDup (f : string * V -> bool) m :
  NoDup (Map_keys m) -> NoDup (Map_keys (List.filter f m)).
Proof.
  induction m as [|[k v] m IH]; [intros _; constructor|].
  unfold Map_keys in *. csimpl. intros Hnd. apply NoDup_cons in Hnd as [Hk Hnd].
  destruct (f (k, v)); [|now apply IH]. csimpl. apply NoDup_cons.
  split; [|now apply IH]. intros Hin. apply Hk. eapply Map_keys_filter, Hin.
Qed.
End SweepFacts.

Section Sweep.
Implicit Types (m pre : list (string * RateLimitEntry.t)) (ip : string)
  (l limit : RateLimitEntry.t).

(** The loop of the sweep, from the entry it has reached: the entries it
    has passed stay, those still to come are filtered. *)
Lemma sweep_loop now pre m :
  NoDup (Map_keys (pre ++ m)) ->
  fold_left (sweep_visit now) (Map_keys m) (pre ++ m)
  = pre ++ List.filter
             (fun e => negb (now >? RateLimitEntry.resetTime (snd e))) m.
Proof.
  revert pre. induction m as [|[k v] m IH]; intros pre Hnd.
  - reflexivity.
  - assert (k ∉ Map_keys pre) as Hk.
    { rewrite Map_keys_app in Hnd. apply NoDup_app in Hnd as (_ & Hdisj & _).
      intros Hin. apply (Hdisj k Hin). unfold Map_keys. csimpl.
      apply elem_of_cons. now left. }
    unfold Map_keys at 1. csimpl. fold (Map_keys m).
    unfold sweep_visit at 2. rewrite (Map_get_app_r _ _ _ Hk).
    cbn [Map_get]. rewrite String.eqb_refl. cbn [List.filter snd].
    destruct (now >? RateLimitEntry.resetTime v) eqn:Hexp; cbn [negb].
    + rewrite (Map_delete_app_r _ _ _ Hk). cbn [Map_delete].
      rewrite String.eqb_refl. apply IH.
      rewrite Map_keys_app in Hnd |- *. unfold Map_keys in Hnd at 2.
      csimpl in Hnd. fold (Map_keys m) in Hnd.
      apply NoDup_app in Hnd as (Hpre & Hdisj & Hm).
      apply NoDup_cons in Hm as [_ Hm]. apply NoDup_app.
      split; [exact Hpre|]. split; [|exact Hm].
      intros x Hx Hin. apply (Hdisj x Hx), elem_of_cons. now right.
    + replace (pre ++ (k, v) :: m) with ((pre ++ [(k, v)]) ++ m)
        by now rewrite <- app_assoc.
      rewrite IH; [now rewrite <- app_assoc|].
      now rewrite <- app_assoc.
Qed.

Lemma sweep_eq now m :
  NoDup (Map_keys m) ->
  sweep now m
  = List.filter (fun e => negb (now >? RateLimitEntry.resetTime (snd e))) m.
Proof. intros Hnd. apply (sweep_loop now [] m Hnd). Qed.
End Sweep.

(** X15. The sweep of the limiter removes exactly the entries whose window
    ended before the clock reading of the sweep, and keeps the others in
    their order: an entry is in the Map afterwards if and only if it was in
    it and its [resetTime] is not less than that reading. *)
Theorem sweep_removes_expired (now : Z)
    (m : list (string * RateLimitEntry.t)) :
  NoDup (Map_keys m) ->
  sweep now m
  = List.filter (fun e => negb (now >? RateLimitEntry.resetTime (snd e))) m
  /\ NoDup (Map_keys (sweep now m))
  /\ forall ip limit,
       Map_get ip (sweep now m) = Some limit
       <-> Map_get ip m = Some limit
           /\ now <= RateLimitEntry.resetTime limit.
Proof.
  intros Hnd. rewrite (sweep_eq now m Hnd). split; [reflexivity|].
  pose proof (Map_filter_NoDup
                (fun e => negb (now >? RateLimitEntry.resetTime (snd e)))
                m Hnd) as Hnd'.
  split; [exact Hnd'|]. intros ip limit. split.
  - intros Hget. apply Map_get_entry, list_elem_of_In, filter_In in Hget.
    destruct Hget as [Hin Hkeep]. cbn [snd] in Hkeep.
    split; [apply (Map_entry_get _ _ _ Hnd), list_elem_of_In, Hin|].
    apply negb_true_iff in Hkeep. rewrite Z.gtb_ltb in Hkeep.
    now apply Z.ltb_ge in Hkeep.
  - intros [Hget Hle]. apply (Map_entry_get _ _ _ Hnd').
    apply list_elem_of_In, filter_In. split.
    + now apply list_elem_of_In, Map_get_entry.
    + cbn [snd]. apply negb_true_iff. rewrite Z.gtb_ltb. now apply Z.ltb_ge.
Qed.

(** A sweep at time 100 of three entries, one of them at its boundary. *)
Lemma sweep_removes_expired_witness :
  sweep 100 [("a", RateLimitEntry.mk 3 99); ("b", RateLimitEntry.mk 10 100);
             ("c", RateLimitEntry.mk 1 60100)]
  = [("b", RateLimitEntry.mk 10 100); ("c", RateLimitEntry.mk 1 60100)].
Proof.
  destruct (sweep_removes_expired 100
              [("a", RateLimitEntry.mk 3 99); ("b", RateLimitEntry.mk 10 100);
               ("c", RateLimitEntry.mk 1 60100)]) as (Heq & _).
  - apply (bool_decide_unpack _). vm_compute. exact I.
  - rewrite Heq. reflexivity.
Defined.

(** ** The broadcast route *)

Section Route.
Context {W : Type} `{Host W}.
Implicit Types (s : State W) (rs : RouteState W) (k : string)
  (d : BroadcastData.t).

Lemma POST_eq request rs :
  POST request rs
  = let now_w := Date_now (world (sse rs)) in
    let s := mkState (this (sse rs)) (snd now_w) (trace (sse rs))
                     (timeouts (sse rs)) (intervals (sse rs)) in
    let verdict :=
      rate_limit (fst now_w) (clientIP_of request) (rateLimitMap rs) in
    if negb (fst verdict) then (Json429, mkRoute (snd verdict) s)
    else
      match NextRequest.body request with
      | ZodError => (Json400, mkRoute (snd verdict) s)
      | BodyError => (Json500, mkRoute (snd verdict) s)
      | Parsed validatedData =>
          match deliver validatedData s with
          | (Ok sentCount, s') =>
              (Json200 (broadcast_message sentCount) sentCount,
               mkRoute (snd verdict) s')
          | (Throw _, s') => (Json500, mkRoute (snd verdict) s')
          end
      end.
Proof.
  unfold POST. destruct (Date_now (world (sse rs))) as [now w].
  cbn [fst snd]. now destruct (rate_limit now (clientIP_of request) _).
Qed.

(** What [POST] sends, summed up. *)
Lemma deliver_summary d s :
  NoDup (Map_keys (clients_of s)) ->
  exists n s' calls ks,
    deliver d s = (Ok n, s')
    /\ steps_on ks s s'
    /\ trace s' = trace s ++ calls
    /\ n = Z.of_nat (length (List.filter is_written calls))
    /\ enqueues_only (fun chunk => chunk = formatSSEMessage (event_of d)) calls
    /\ (forall t,
          BroadcastData.targetClientId d = Some t -> t <> EmptyString ->
          (forall call, call ∈ calls -> call_client call = t)
          /\ n <= 1
          /\ (Map_get t (clients_of s) = None -> n = 0 /\ calls = [])
          /\ (forall c, Map_get t (clients_of s) = Some c ->
                exists v, mkCall t (SSEClient.response c) (GetDesiredSize v)
                          ∈ calls))
    /\ (BroadcastData.targetClientId d = None
        \/ BroadcastData.targetClientId d = Some EmptyString ->
        (forall k,
           (exists call, call ∈ calls /\ call_client call = k)
           <-> k ∈ Map_keys (clients_of s)
               /\ Some k <> BroadcastData.excludeClientId d)
        /\ n <= Map_size (clients_of s)).
Proof.
  intros Hnd.
  assert (exists n s' calls,
            broadcast (event_of d) (BroadcastData.excludeClientId d) s
            = (Ok n, s')
            /\ steps_on (Map_keys (clients_of s)) s s'
            /\ trace s' = trace s ++ calls
            /\ n = Z.of_nat (length (List.filter is_written calls))
            /\ enqueues_only
                 (fun chunk => chunk = formatSSEMessage (event_of d)) calls
            /\ (forall k,
                  (exists call, call ∈ calls /\ call_client call = k)
                  <-> k ∈ Map_keys (clients_of s)
                      /\ Some k <> BroadcastData.excludeClientId d)
            /\ n <= Map_size (clients_of s)) as Hall.
  { destruct (broadcast_summary (event_of d) (BroadcastData.excludeClientId d)
                s Hnd) as (n & s' & calls & Heq & Hst & Htr & Hwho & Hn & Hle).
    exists n, s', calls. split; [exact Heq|]. split; [exact Hst|].
    split; [exact Htr|]. split; [exact Hn|].
    split; [exact (broadcast_enqueues _ _ _ _ _ _ Hnd Heq Htr)|].
    split; [|apply Hle]. intros k. rewrite Hwho. unfold is_excluded.
    destruct (BroadcastData.excludeClientId d) as [x|].
    - rewrite String.eqb_neq. split; intros [Hk Hne]; (split; [exact Hk|]);
        congruence.
    - split; intros [Hk _]; (split; [exact Hk|]); [discriminate|reflexivity]. }
  unfold deliver.
  destruct (BroadcastData.targetClientId d) as [[|a t]|] eqn:Htarget;
    cbn [truthy_string].
  - destruct Hall as (n & s' & calls & Heq & Hst & Htr & Hn & Henq & Hwho & Hle).
    exists n, s', calls, (Map_keys (clients_of s)).
    split; [exact Heq|]. split; [exact Hst|]. split; [exact Htr|].
    split; [exact Hn|]. split; [exact Henq|]. split.
    + intros t [= <-] Ht. contradiction.
    + intros _. auto.
  - set (target := String a t) in *.
    destruct (sendToClient_calls s target (event_of d))
      as (sent & s' & calls & Heq & Hst & Htr & Hwritten & Htried).
    exists (if sent then 1 else 0), s', calls, [target].
    split; [step_bind Heq; reflexivity|]. split; [exact Hst|].
    split; [exact Htr|]. split; [rewrite Hwritten; now destruct sent|].
    split; [exact (sendToClient_enqueues _ _ _ _ _ _ Heq Htr)|]. split.
    + intros t' [= <-] _. split; [|split; [now destruct sent|split]].
      * destruct Hst as (_ & _ & _ & _ & d' & Hd' & Htag). rewrite Htr in Hd'.
        apply app_inv_head in Hd' as <-. intros call Hin.
        now apply list_elem_of_singleton, Htag.
      * intros Hnone. rewrite (sendToClient_absent _ _ _ Hnone) in Heq.
        injection Heq as <- <-. split; [reflexivity|].
        rewrite <- (app_nil_r (trace s)) in Htr at 1.
        now apply app_inv_head in Htr.
      * exact Htried.
    + intros [Hcontra|Hcontra]; discriminate.
  - destruct Hall as (n & s' & calls & Heq & Hst & Htr & Hn & Henq & Hwho & Hle).
    exists n, s', calls, (Map_keys (clients_of s)).
    split; [exact Heq|]. split; [exact Hst|]. split; [exact Htr|].
    split; [exact Hn|]. split; [exact Henq|]. split.
    + intros t Hcontra. discriminate.
    + intros _. auto.
Qed.

Lemma rate_limit_frame now ip ip' (m : list (string * RateLimitEntry.t)) :
  ip' <> ip -> Map_get ip' (snd (rate_limit now ip m)) = Map_get ip' m.
Proof.
  intros Hne.
  destruct (rate_limit_cases now ip m)
    as [[Heq _]|[(l & _ & _ & _ & Heq)|(l & _ & _ & _ & Heq)]];
    rewrite Heq; cbn [snd]; [| |reflexivity]; now apply Map_get_set_ne.
Qed.



End Route.

(** X16. [POST] refuses a request with status 429 exactly when the address
    has a live entry that has reached [RATE_LIMIT]; the limiter is then left
    as it is. Every other request is counted, whatever its body: the entry
    of the address is advanced, or opened anew if there was none or its
    window had ended; the entries of other addresses are never touched. A
    request with an invalid body is answered 400 or 500 once counted, and
    neither it nor a refused request reaches the service. *)
Theorem POST_counts_the_request {W : Type} `{Host W}
    (request : NextRequest.t) (rs : RouteState W) :
  let ip := clientIP_of request in
  let now := fst (Date_now (world (sse rs))) in
  let m := rateLimitMap rs in
  let response := fst (POST request rs) in
  let rs' := snd (POST request rs) in
  (response = Json429
   <-> exists limit,
         Map_get ip m = Some limit
         /\ now < RateLimitEntry.resetTime limit
         /\ RATE_LIMIT <= RateLimitEntry.count limit)
  /\ (response = Json429 -> rateLimitMap rs' = m)
  /\ (response <> Json429 ->
      Map_get ip (rateLimitMap rs')
      = Some (match Map_get ip m with
              | Some limit =>
                  if now <? RateLimitEntry.resetTime limit
                  then RateLimitEntry.mk (RateLimitEntry.count limit + 1)
                                         (RateLimitEntry.resetTime limit)
                  else RateLimitEntry.mk 1 (now + RATE_WINDOW)
              | None => RateLimitEntry.mk 1 (now + RATE_WINDOW)
              end))
  /\ (forall ip', ip' <> ip -> Map_get ip' (rateLimitMap rs') = Map_get ip' m)
  /\ (NextRequest.body request = ZodError ->
      response = Json429 \/ response = Json400)
  /\ (NextRequest.body request = BodyError ->
      response = Json429 \/ response = Json500)
  /\ (response = Json429
      \/ (forall validatedData,
            NextRequest.body request <> Parsed validatedData) ->
      this (sse rs') = this (sse rs) /\ trace (sse rs') = trace (sse rs)).
Proof.
  intros ip now m response rs'.
  assert (rateLimitMap rs' = snd (rate_limit now ip m)) as Hmap.
  { subst rs'. rewrite POST_eq. cbv zeta. destruct (negb _); [reflexivity|].
    destruct (NextRequest.body request) as [d| |]; try reflexivity.
    now destruct (deliver d _) as [[n|e] s']. }
  assert (fst (rate_limit now ip m) = false
          -> response = Json429
             /\ this (sse rs') = this (sse rs)
             /\ trace (sse rs') = trace (sse rs)) as Hrefused.
  { intros Hv. subst response rs'. rewrite POST_eq. cbv zeta.
    fold now ip m. rewrite Hv. cbn. auto. }
  assert (fst (rate_limit now ip m) = true
          -> response <> Json429
             /\ (NextRequest.body request = ZodError -> response = Json400)
             /\ (NextRequest.body request = BodyError -> response = Json500)
             /\ ((forall validatedData,
                    NextRequest.body request <> Parsed validatedData) ->
                 this (sse rs') = this (sse rs)
                 /\ trace (sse rs') = trace (sse rs))) as Hallowed.
  { intros Hv. subst response rs'. rewrite POST_eq. cbv zeta.
    fold now ip m. rewrite Hv. cbn [negb].
    destruct (NextRequest.body request) as [d| |].
    - destruct (deliver d _) as [[n|e] s']; cbn [fst];
        (split; [discriminate|]); (split; [discriminate|]);
        (split; [discriminate|]); intros Hno; now destruct (Hno d).
    - cbn. repeat split; try (intros; discriminate); auto.
    - cbn. repeat split; try (intros; discriminate); auto. }
  rewrite Hmap.
  destruct (rate_limit_cases now ip m)
    as [[Heq Hfresh]|[(l & Hget & Hlive & Hroom & Heq)
                     |(l & Hget & Hlive & Hfull & Heq)]];
    rewrite Heq in *; cbn [fst snd] in *.
  - destruct (Hallowed eq_refl) as (Hne & Hzod & Hbody & Hno).
    split; [|split; [|split; [|split; [|split; [|split]]]]]; auto.
    + split; [contradiction|]. intros (l & Hget & Hlive & _).
      rewrite Hget in Hfresh. lia.
    + contradiction.
    + intros _. rewrite Map_get_set_eq. f_equal.
      destruct (Map_get ip m) as [l|]; [|reflexivity].
      destruct (Z.ltb_spec now (RateLimitEntry.resetTime l)); [lia|].
      reflexivity.
    + intros ip' Hip. now apply Map_get_set_ne.
    + intros [Hcontra|Hnone]; [contradiction|auto].
  - destruct (Hallowed eq_refl) as (Hne & Hzod & Hbody & Hno).
    split; [|split; [|split; [|split; [|split; [|split]]]]]; auto.
    + split; [contradiction|]. intros (l' & Hget' & _ & Hfull).
      rewrite Hget in Hget'. injection Hget' as <-. lia.
    + contradiction.
    + intros _. rewrite Map_get_set_eq, Hget. f_equal.
      destruct (Z.ltb_spec now (RateLimitEntry.resetTime l)); [|lia].
      reflexivity.
    + intros ip' Hip. now apply Map_get_set_ne.
    + intros [Hcontra|Hnone]; [contradiction|auto].
  - destruct (Hrefused eq_refl) as (Hresp & Hthis & Htrace).
    split; [|split; [|split; [|split; [|split; [|split]]]]]; auto.
    + split; [|auto]. intros _. exists l. auto.
    + intros Hne. contradiction.
Qed.

(** An eleventh request within the window of its address. *)
Lemma POST_counts_the_request_witness :
  fst (POST (NextRequest.mk (Some "10.0.0.1") None ZodError)
            (mkRoute [("10.0.0.1", RateLimitEntry.mk 10 60000)]
                     three_clients))
  = Json429.
Proof.
  destruct (POST_counts_the_request
              (NextRequest.mk (Some "10.0.0.1") None ZodError)
              (mkRoute [("10.0.0.1", RateLimitEntry.mk 10 60000)]
                       three_clients)) as (Hrefused & _).
  apply Hrefused. exists (RateLimitEntry.mk 10 60000).
  split; [reflexivity|]. split; [vm_compute; reflexivity|].
  vm_compute. discriminate.
Defined.

(** X17. A request that is not refused and whose body is valid is answered
    200 with [sentCount], the number of writes that succeeded, and its
    message; whatever is written is the event of the request, without an id.
    With a [targetClientId], calls are made on behalf of that client only,
    excluded or not, and [sentCount] is 0 or 1: 0 with no call at all if the
    target is not registered. Without one, calls are made on behalf of
    exactly the registered clients other than the excluded one. *)
Theorem POST_delivers {W : Type} `{Host W} (request : NextRequest.t)
    (rs : RouteState W) (validatedData : BroadcastData.t) :
  NoDup (Map_keys (clients_of (sse rs))) ->
  NextRequest.body request = Parsed validatedData ->
  fst (POST request rs) <> Json429 ->
  exists sentCount calls,
    fst (POST request rs)
    = Json200 (broadcast_message sentCount) sentCount
    /\ trace (sse (snd (POST request rs))) = trace (sse rs) ++ calls
    /\ sentCount = Z.of_nat (length (List.filter is_written calls))
    /\ enqueues_only
         (fun chunk => chunk = formatSSEMessage (event_of validatedData))
         calls
    /\ (forall target,
          BroadcastData.targetClientId validatedData = Some target ->
          target <> EmptyString ->
          (forall call, call ∈ calls -> call_client call = target)
          /\ sentCount <= 1
          /\ (Map_get target (clients_of (sse rs)) = None ->
              sentCount = 0 /\ calls = [])
          /\ (forall c,
                Map_get target (clients_of (sse rs)) = Some c ->
                exists v, mkCall target (SSEClient.response c)
                            (GetDesiredSize v) ∈ calls))
    /\ (BroadcastData.targetClientId validatedData = None
        \/ BroadcastData.targetClientId validatedData = Some EmptyString ->
        (forall k,
           (exists call, call ∈ calls /\ call_client call = k)
           <-> k ∈ Map_keys (clients_of (sse rs))
               /\ Some k <> BroadcastData.excludeClientId validatedData)
        /\ sentCount <= Map_size (clients_of (sse rs))).
Proof.
  intros Hnd Hbody. rewrite POST_eq. cbv zeta. rewrite Hbody.
  set (s := mkState (this (sse rs)) _ (trace (sse rs)) (timeouts (sse rs))
                    (intervals (sse rs))).
  destruct (negb _); [intros Hne; now destruct Hne|]. intros _.
  destruct (deliver_summary validatedData s Hnd)
    as (n & s' & calls & ks & Heq & _ & Htr & Hn & Henq & Htarget & Hall).
  rewrite Heq. cbn [fst snd sse]. exists n, calls.
  split; [reflexivity|]. split; [exact Htr|]. split; [exact Hn|].
  split; [exact Henq|]. split; [exact Htarget|exact Hall].
Qed.

(** A request aimed at a client that is also the excluded one. *)
Lemma POST_delivers_witness :
  exists (sentCount : Z) (calls : list Call),
    fst (POST (NextRequest.mk None None
                 (Parsed (BroadcastData.mk "update" JNull (Some "uuid-1")
                                           (Some "uuid-1"))))
              (mkRoute [] three_clients))
    = Json200 (broadcast_message sentCount) sentCount
    /\ forall call, call ∈ calls -> call_client call = "uuid-1".
Proof.
  destruct (POST_delivers
              (NextRequest.mk None None
                 (Parsed (BroadcastData.mk "update" JNull (Some "uuid-1")
                                           (Some "uuid-1"))))
              (mkRoute [] three_clients)
              (BroadcastData.mk "update" JNull (Some "uuid-1")
                                (Some "uuid-1")))
    as (n & calls & Hresp & _ & _ & _ & Htarget & _).
  - apply (bool_decide_unpack _). vm_compute. exact I.
  - reflexivity.
  - vm_compute. discriminate.
  - exists n, calls. split; [exact Hresp|].
    apply (Htarget "uuid-1"); [reflexivity|discriminate].
Defined.

